(** * VideoTranscriber: a shallow embedding of [VideoTranscriber.py]

    The Python class [VideoTranscriber] orchestrates audio extraction, a
    remote speech-to-text call, a remote translation call and the writing
    of two text files.  The embedding below follows the source method by
    method.  Effects are explicit: every method is a function from a
    [World] (filesystem, log, object attributes, call counters) to an
    outcome (a value or a raised exception) and a new [World].  What the
    outside world answers (the remote services, the random source, the
    media library, the operating system) is read from an [Env].

    Choices of the model:
    - the state survives an exception, as in Python: a raised exception
      comes with the world in which it was raised;
    - a Python [float] is a binary64 number, held as the rational it
      denotes; every operation rounds to the nearest binary64 number, ties
      to even, as the hardware does; [random.random()] is 53 random bits
      of the environment, scaled to a number in [0, 1);
    - a Python [str] is held as its UTF-8 encoding; [len] and slicing
      count characters, not bytes;
    - a log record keeps the template of the message and its arguments;
    - the filesystem is a finite map from paths to files and directories;
      paths are compared as strings, the working directory and the root
      are not entries of the map, and removing an existing file succeeds;
    - the recursion of the two retry loops is well-founded recursion on
      [11 - intento], so both loops are total functions. *)

From Stdlib Require Import QArith Qround Qabs Qpower Qreduction Lqa.
From Stdlib Require Qcanon.
From stdpp Require Import gmap strings pretty list fin_maps.
From Equations Require Import Equations.

Local Open Scope string_scope.
Local Open Scope Z_scope.

(** ** Python strings *)

Module PyStr.

(** [s.startswith(p)] with [p] as first argument. *)
Fixpoint startswith (p s : string) : bool :=
  match p, s with
  | EmptyString, _ => true
  | String a p', String b s' => if Ascii.eqb a b then startswith p' s' else false
  | String _ _, EmptyString => false
  end.

(** [sub in s]: [sub] occurs in [s] at some offset. *)
Fixpoint contains (sub s : string) : bool :=
  startswith sub s ||
  match s with
  | EmptyString => false
  | String _ s' => contains sub s'
  end.

(** [bool(s)]: a string is truthy when it is not empty. *)
Definition truthy (s : string) : bool :=
  match s with EmptyString => false | String _ _ => true end.

(** [os.path.join(a, b)] of [posixpath], for two components; [a] ends
    with the separator when its reverse starts with it. *)
Definition path_join (a b : string) : string :=
  if startswith "/" b then b
  else if negb (truthy a) || startswith "/" (String.rev a) then a ++ b
  else a ++ "/" ++ b.

(** A [string] holds the UTF-8 encoding of a Python [str]: a byte of the
    form 10xxxxxx continues a character, every other byte starts one. *)
Definition continuation (c : Ascii.ascii) : bool :=
  let n := Ascii.nat_of_ascii c in (128 <=? n)%nat && (n <? 192)%nat.

(** [len(s)]: the number of characters of [s]. *)
Fixpoint len (s : string) : nat :=
  match s with
  | EmptyString => O
  | String c s' => if continuation c then len s' else S (len s')
  end.

(** [s[:n]]: the first [n] characters of [s], each with the bytes that
    continue it. *)
Fixpoint take (n : nat) (s : string) : string :=
  match s with
  | EmptyString => EmptyString
  | String c s' =>
      if continuation c then String c (take n s')
      else match n with
           | O => EmptyString
           | S n' => String c (take n' s')
           end
  end.

(** The separator of [posixpath]. *)
Definition is_sep (c : Ascii.ascii) : bool :=
  Ascii.eqb c (Ascii.ascii_of_nat 47).

(** [p.rstrip('/')]. *)
Fixpoint rstrip_sep (p : string) : string :=
  match p with
  | EmptyString => EmptyString
  | String c p' =>
      let r := rstrip_sep p' in
      if is_sep c && negb (truthy r) then EmptyString else String c r
  end.

(** The prefixes of [p] at which a separator follows a component.  [acc]
    is the part of the path already read, and [fresh] says that no
    component was read since the last separator. *)
Fixpoint boundaries (acc : string) (fresh : bool) (p : string) : list string :=
  match p with
  | EmptyString => []
  | String c p' =>
      app (if is_sep c && negb fresh then [acc] else [])
          (boundaries (acc ++ String c EmptyString) (is_sep c) p')
  end.

(** The directories above [p], outermost first: what [os.path.split]
    yields as head, again and again, down from [p].  The root is not
    among them. *)
Definition ancestors (p : string) : list string :=
  boundaries "" true (rstrip_sep p).

End PyStr.

(** ** Python floats: binary64 *)

Module Binary64.

(** [2 ^ k] for an integer [k] of either sign. *)
Definition pow2 (k : Z) : Q := (2 ^ k)%Q.

(** The integer part of the binary logarithm of a positive rational. *)
Definition ilog2 (x : Q) : Z :=
  let k := Z.log2 (Qnum x) - Z.log2 (Zpos (Qden x)) in
  if Qle_bool (pow2 k) x then k else k - 1.

(** The exponent of the last of the 53 bits of the significand of a
    number close to [x]; it is at least -1074, where the subnormal numbers
    are. *)
Definition cexp (x : Q) : Z := Z.max (-1074) (ilog2 (Qabs x) - 52).

(** The nearest integer, the even one of the two on a tie. *)
Definition rne (q : Q) : Z :=
  let f := Qfloor q in
  match (q - inject_Z f ?= 1 # 2)%Q with
  | Lt => f
  | Gt => f + 1
  | Eq => if Z.even f then f else f + 1
  end.

(** The nearest multiple of [2 ^ e]. *)
Definition grid (e : Z) (x : Q) : Q := (inject_Z (rne (x / pow2 e)) * pow2 e)%Q.

(** The binary64 number nearest to [x], as a fraction in lowest terms.
    The exponent has no upper limit here: a result of [2 ^ 1024] or more
    stands for an overflow. *)
Definition round64 (x : Q) : Q := Qred (grid (cexp x) x).

(** [float(z)] for an [int] of any size; [None] stands for the
    [OverflowError] of a [z] too large for a [float]. *)
Definition of_int (z : Z) : option Q :=
  let x := round64 (inject_Z z) in
  if Qle_bool (pow2 1024) (Qabs x) then None else Some x.

(** [x + y] and [x * y] on two [float]s.  In this program the second
    operand of the sum is at most 5 and the product is below 5, which
    keeps both results finite. *)
Definition add (x y : Q) : Q := round64 (x + y).

Definition mul (x y : Q) : Q := round64 (x * y).

End Binary64.

Arguments Binary64.pow2 : simpl never.
Arguments Binary64.round64 : simpl never.
Arguments Binary64.of_int : simpl never.
Arguments Binary64.add : simpl never.
Arguments Binary64.mul : simpl never.

(** ** Exceptions *)

(** The exception classes that the program raises or that its collaborators
    raise.  All of them derive from [Exception], so every [except Exception]
    handler of the source catches every value of this type. *)
Inductive exn_class :=
  | FileNotFoundError | FileExistsError | IsADirectoryError | NotADirectoryError
  | PermissionError | OSError | ValueError | OverflowError | KeyError | APIError
  | OtherError.

(** [e.response], as far as [_get_retry_time] looks at it: the attribute
    [headers] may be missing; when present it is a dictionary. *)
Record response := { headers : option (gmap string string) }.

(** An exception: its class, [str(e)], and the attribute [response], which
    most exceptions do not have. *)
Record pyexn := {
  exn_cls : exn_class;
  exn_str : string;
  exn_response : option response
}.

Definition plain_exn (c : exn_class) (m : string) : pyexn :=
  {| exn_cls := c; exn_str := m; exn_response := None |}.

(** ** Log records

    Each call of [logger.info] or [logger.error] adds one record.  The
    messages of the source are f-strings; a record keeps the template
    (one constructor per message of the source) and its arguments. *)

Inductive level := INFO | ERROR.

Inductive message :=
  | MsgPromptUpdated                           (* "Prompt de traducción actualizado" *)
  | MsgExtracting (video_path : string)        (* "Extrayendo audio de: {video_path}" *)
  | MsgExtracted (audio_path : string)         (* "Audio extraído exitosamente: {audio_path}" *)
  | MsgExtractError (video_path e : string)    (* "Error extrayendo audio de {video_path}: {str(e)}" *)
  | MsgTranscribeGiveUp                        (* "FALLO TRANSCRIBIENDO EN CANTIDAD DE INTENTOS" *)
  | MsgTranscribing (audio_path : string)      (* "Transcribiendo audio: {audio_path}" *)
  | MsgTranscribed                             (* "Transcripción completada exitosamente" *)
  | MsgAttempt (n : Z)                         (* "Intento {intento + 1}" *)
  | MsgTranscribeError (audio_path e : string) (* "Error transcribiendo audio {audio_path}: {str(e)}" *)
  | MsgTranslateGiveUp                         (* "FALLO TRADUCIENDO EN CANTIDAD DE INTENTOS" *)
  | MsgTranslating                             (* "Traduciendo texto..." *)
  | MsgTranslated                              (* "Traducción completada exitosamente" *)
  | MsgTranslateError (e : string)             (* "Error traduciendo texto: {str(e)}" *)
  | MsgSaved (file_path : string)              (* "Archivo guardado: {file_path}" *)
  | MsgSaveError (file_path e : string)        (* "Error guardando archivo {file_path}: {str(e)}" *)
  | MsgNotFound (video_path : string)          (* "Archivo no encontrado: {video_path}" *)
  | MsgProcessing (video_path : string)        (* "Procesando video: {video_path}" *)
  | MsgTranscriptionLimit                      (* "Error en transcripción por límite de intentos" *)
  | MsgProcessed (video_path : string)         (* "Video procesado exitosamente: {video_path}" *)
  | MsgProcessError (video_path e : string)    (* "Error procesando video {video_path}: {str(e)}" *)
  | MsgApiSuggests (retry_after : Z)           (* "API sugiere esperar {retry_after} segundos." *)
  | MsgNotAnInteger                            (* "No se pudo convertir 'retry-after' a un número entero." *)
  | MsgRetryingIn (wait_time : Q).             (* "Reintentando en {wait_time:.2f} segundos..." *)

(** ** The filesystem *)

Inductive node := File (content : string) | Dir.

(** ** The object and the world *)

(** The attributes of a [VideoTranscriber] instance.  [translator_model] is
    the model the [ChatGroq] client was built with. *)
Record Transcriber := {
  groq_api_key : string;
  whisper_model : string;
  translation_model : string;
  translation_prompt : string;
  translator_model : string
}.

Record World := {
  self : Transcriber;
  fs : gmap string node;
  log : list (level * message);   (* newest first *)
  whisper_calls : nat;            (* requests sent to the speech-to-text service *)
  translator_calls : nat;         (* requests sent to the translation service *)
  random_draws : nat;             (* calls of [random.random] *)
  temp_files : nat;               (* calls of [tempfile.NamedTemporaryFile] *)
  sleeps : list Q                 (* arguments of [time.sleep], newest first *)
}.

(** How a write fails.  [open(p, 'w')] may raise, and then nothing is
    touched.  Or it returns, and the file is there and empty; then
    [write], or the flush that closes the file, raises with only the
    first [n] bytes of the text on disk. *)
Inductive write_failure :=
  | Refused (e : pyexn)
  | Cut (e : pyexn) (n : nat).

(** What the collaborators answer.  None of this is code of the repository:
    the remote services, the random source, [moviepy], the operating system
    and three builtins of Python. *)
Record Env := {
  (* the [n]-th request to the speech-to-text service: model, file name, bytes *)
  whisper_reply : nat -> string -> string -> string -> pyexn + string;
  (* the [n]-th request to the translation service: model, prompt *)
  translator_reply : nat -> string -> string -> pyexn + string;
  (* the 53 random bits of the [n]-th call of [random.random()] *)
  random_bits : nat -> Z;
  (* [VideoFileClip(video_path)] *)
  open_video : string -> option pyexn;
  (* [video.audio.write_audiofile(audio_path)]: the bytes written, or an error *)
  write_audiofile : string -> pyexn + string;
  (* the name chosen by the [n]-th [NamedTemporaryFile], without its suffix *)
  temp_name : nat -> string;
  (* a write to [file_path] that fails (permissions, disk full) *)
  write_fault : string -> option write_failure;
  (* [os.mkdir] refused by the system *)
  mkdir_fault : string -> option pyexn;
  (* [int(s)]: [None] when it raises [ValueError] or [TypeError] *)
  py_int : string -> option Z;
  (* [template.format(text=text)] *)
  py_format : string -> string -> pyexn + string;
  (* [Path(p).stem] *)
  path_stem : string -> string
}.

(** ** Outcomes and the monad of methods *)

Inductive outcome (A : Type) :=
  | Return (a : A)
  | Raise (e : pyexn).
Arguments Return {A} a.
Arguments Raise {A} e.

Definition M (A : Type) : Type := World -> outcome A * World.

Definition ret {A} (a : A) : M A := fun w => (Return a, w).

Definition raise {A} (e : pyexn) : M A := fun w => (Raise e, w).

Definition bind {A B} (m : M A) (k : A -> M B) : M B :=
  fun w =>
    match m w with
    | (Return a, w') => k a w'
    | (Raise e, w') => (Raise e, w')
    end.

(** [try: body except Exception as e: handler e]. *)
Definition try_except {A} (body : M A) (handler : pyexn -> M A) : M A :=
  fun w =>
    match body w with
    | (Return a, w') => (Return a, w')
    | (Raise e, w') => handler e w'
    end.

(** [try: body finally: cleanup].  The cleanup runs on both exits; when it
    raises, its exception replaces the outcome of the body. *)
Definition try_finally {A} (body : M A) (cleanup : M unit) : M A :=
  fun w =>
    match body w with
    | (r, w') =>
        match cleanup w' with
        | (Return _, w'') => (r, w'')
        | (Raise e, w'') => (Raise e, w'')
        end
    end.

Declare Scope py_scope.
Delimit Scope py_scope with py.
Notation "'let*' x := m 'in' k" := (bind m (fun x => k))
  (at level 10, x name, m at level 100, k at level 200) : py_scope.
Notation "m ;; k" := (bind m (fun _ => k))
  (at level 100, k at level 200, right associativity) : py_scope.
Local Open Scope py_scope.

(** ** Primitives: logging, filesystem, time, randomness *)

Definition set_self (o : Transcriber) (w : World) : World :=
  {| self := o; fs := fs w; log := log w; whisper_calls := whisper_calls w;
     translator_calls := translator_calls w; random_draws := random_draws w;
     temp_files := temp_files w; sleeps := sleeps w |}.

Definition set_fs (f : gmap string node) (w : World) : World :=
  {| self := self w; fs := f; log := log w; whisper_calls := whisper_calls w;
     translator_calls := translator_calls w; random_draws := random_draws w;
     temp_files := temp_files w; sleeps := sleeps w |}.

Definition set_log (l : list (level * message)) (w : World) : World :=
  {| self := self w; fs := fs w; log := l; whisper_calls := whisper_calls w;
     translator_calls := translator_calls w; random_draws := random_draws w;
     temp_files := temp_files w; sleeps := sleeps w |}.

Definition set_whisper_calls (n : nat) (w : World) : World :=
  {| self := self w; fs := fs w; log := log w; whisper_calls := n;
     translator_calls := translator_calls w; random_draws := random_draws w;
     temp_files := temp_files w; sleeps := sleeps w |}.

Definition set_translator_calls (n : nat) (w : World) : World :=
  {| self := self w; fs := fs w; log := log w; whisper_calls := whisper_calls w;
     translator_calls := n; random_draws := random_draws w;
     temp_files := temp_files w; sleeps := sleeps w |}.

Definition set_random_draws (n : nat) (w : World) : World :=
  {| self := self w; fs := fs w; log := log w; whisper_calls := whisper_calls w;
     translator_calls := translator_calls w; random_draws := n;
     temp_files := temp_files w; sleeps := sleeps w |}.

Definition set_temp_files (n : nat) (w : World) : World :=
  {| self := self w; fs := fs w; log := log w; whisper_calls := whisper_calls w;
     translator_calls := translator_calls w; random_draws := random_draws w;
     temp_files := n; sleeps := sleeps w |}.

Definition set_sleeps (l : list Q) (w : World) : World :=
  {| self := self w; fs := fs w; log := log w; whisper_calls := whisper_calls w;
     translator_calls := translator_calls w; random_draws := random_draws w;
     temp_files := temp_files w; sleeps := l |}.

(** [logger.info(m)] and [logger.error(m)]. *)
Definition logger (l : level) (m : message) : M unit :=
  fun w => (Return tt, set_log ((l, m) :: log w) w).

(** [self.<attribute>]. *)
Definition get_self : M Transcriber := fun w => (Return (self w), w).

(** [os.path.exists(p)]. *)
Definition os_path_exists (p : string) : M bool :=
  fun w => (Return (bool_decide (is_Some (fs w !! p))), w).

(** [open(p, 'rb').read()]. *)
Definition read_file (p : string) : M string :=
  fun w =>
    match fs w !! p with
    | Some (File c) => (Return c, w)
    | Some Dir => (Raise (plain_exn IsADirectoryError p), w)
    | None => (Raise (plain_exn FileNotFoundError p), w)
    end.

(** [with open(p, 'w', encoding='utf-8') as f: f.write(text)].  When
    [open] raises, the filesystem is as it was.  Once [open] has returned,
    the file is created or emptied, and it holds the text, or the part of
    it that was on disk when the write failed. *)
Definition write_file (env : Env) (p text : string) : M unit :=
  fun w =>
    match write_fault env p with
    | Some (Refused e) => (Raise e, w)
    | fault =>
        match fs w !! p with
        | Some Dir => (Raise (plain_exn IsADirectoryError p), w)
        | _ =>
            match fault with
            | Some (Cut e n) =>
                (Raise e, set_fs (<[p := File (String.substring 0 n text)]> (fs w)) w)
            | _ => (Return tt, set_fs (<[p := File text]> (fs w)) w)
            end
        end
    end.

(** [os.mkdir(d)] below a directory that is there. *)
Definition os_mkdir (env : Env) (d : string) : M unit :=
  fun w =>
    match fs w !! d with
    | Some _ => (Raise (plain_exn FileExistsError d), w)
    | None =>
        match mkdir_fault env d with
        | Some e => (Raise e, w)
        | None => (Return tt, set_fs (<[d := Dir]> (fs w)) w)
        end
    end.

(** The creation of [target] below the directories [dirs], outermost
    first: each of them that is missing is created on the way, and a
    regular file among them stops the descent, since nothing can be
    created below it. *)
Fixpoint make_missing (env : Env) (dirs : list string) (target : string) : M unit :=
  match dirs with
  | [] => os_mkdir env target
  | d :: rest =>
      (fun w =>
         match fs w !! d with
         | Some Dir => (Return tt, w)
         | Some (File _) => (Raise (plain_exn NotADirectoryError (hd target rest)), w)
         | None => os_mkdir env d w
         end) ;;
      make_missing env rest target
  end.

(** [os.makedirs(p, exist_ok=True)]: nothing to do when [p] is a
    directory, [FileExistsError] when it is a regular file; otherwise
    every missing directory above [p] is created, and then [p]. *)
Definition os_makedirs (env : Env) (p : string) : M unit :=
  fun w =>
    match fs w !! p with
    | Some Dir => (Return tt, w)
    | Some (File _) => (Raise (plain_exn FileExistsError p), w)
    | None => make_missing env (PyStr.ancestors p) p w
    end.

(** [os.unlink(p)]. *)
Definition os_unlink (p : string) : M unit :=
  fun w =>
    match fs w !! p with
    | Some (File _) => (Return tt, set_fs (delete p (fs w)) w)
    | Some Dir => (Raise (plain_exn IsADirectoryError p), w)
    | None => (Raise (plain_exn FileNotFoundError p), w)
    end.

(** [tempfile.NamedTemporaryFile(delete=False, suffix=suffix)] followed by
    [close()]: an empty file under a name that was free and that ends with
    the suffix. *)
Definition named_temporary_file (env : Env) (suffix : string) : M string :=
  fun w =>
    let name := temp_name env (temp_files w) ++ suffix in
    let w' := set_temp_files (S (temp_files w)) w in
    match fs w !! name with
    | Some _ => (Raise (plain_exn FileExistsError name), w')
    | None => (Return name, set_fs (<[name := File ""]> (fs w)) w')
    end.

(** [time.sleep(t)]: a negative argument raises [ValueError].  What a
    platform does with a wait of years is not modelled; the properties
    that speak of the waits are stated for waits of a million seconds at
    most. *)
Definition time_sleep (t : Q) : M unit :=
  fun w =>
    if Qlt_le_dec t 0
    then (Raise (plain_exn ValueError "sleep length must be non-negative"), w)
    else (Return tt, set_sleeps (t :: sleeps w) w).

(** The value of the [n]-th call of [random.random()]: its 53 random
    bits [k] as the binary64 number [k / 2 ^ 53]. *)
Definition random_unit (env : Env) (n : nat) : Q :=
  Qred ((random_bits env n mod 2 ^ 53) # 2 ^ 53).

(** [random.random()]. *)
Definition random_random (env : Env) : M Q :=
  fun w =>
    (Return (random_unit env (random_draws w)),
     set_random_draws (S (random_draws w)) w).

(** The conversion of an [int] that meets a [float] in a sum or a
    product. *)
Definition float_of_int (z : Z) : M Q :=
  match Binary64.of_int z with
  | Some x => ret x
  | None => raise (plain_exn OverflowError "int too large to convert to float")
  end.

(** [random.uniform(a, b)] on two [int]s, which is
    [a + (b - a) * self.random()]. *)
Definition random_uniform (env : Env) (a b : Z) : M Q :=
  let* u := random_random env in
  let* d := float_of_int (b - a) in
  let* a' := float_of_int a in
  ret (Binary64.add a' (Binary64.mul d u)).

(** Lift an answer of a collaborator into the monad. *)
Definition answer {A} (r : pyexn + A) : M A :=
  match r with inl e => raise e | inr a => ret a end.

(** [self.whisper_client.audio.transcriptions.create(file=(name, data),
    model=model, prompt="", response_format="text")], followed by the
    extraction of the text of the reply.  One request is counted whether
    it succeeds or not. *)
Definition whisper_create (env : Env) (model name data : string) : M string :=
  fun w =>
    let w' := set_whisper_calls (S (whisper_calls w)) w in
    match whisper_reply env (whisper_calls w) model name data with
    | inl e => (Raise e, w')
    | inr text => (Return text, w')
    end.

(** [self.translator_client.invoke(prompt)], followed by the extraction of
    the text of the reply. *)
Definition translator_invoke (env : Env) (model prompt : string) : M string :=
  fun w =>
    let w' := set_translator_calls (S (translator_calls w)) w in
    match translator_reply env (translator_calls w) model prompt with
    | inl e => (Raise e, w')
    | inr text => (Return text, w')
    end.

(** ** The methods of [VideoTranscriber] *)

Definition FALLO_TRANSCRIBIENDO : string :=
  "FALLO TRANSCRIBIENDO EN CANTIDAD DE INTENTOS".

Definition FALLO_TRADUCIENDO : string :=
  "FALLO TRADUCIENDO EN CANTIDAD DE INTENTOS".

(** [set_translation_prompt(self, prompt)]. *)
Definition set_translation_prompt (prompt : string) : M unit :=
  if negb (PyStr.contains "{text}" prompt)
  then raise (plain_exn ValueError
                "El prompt debe incluir {text} donde se insertará el texto a traducir")
  else
    (fun w =>
       (Return tt,
        set_self {| groq_api_key := groq_api_key (self w);
                    whisper_model := whisper_model (self w);
                    translation_model := translation_model (self w);
                    translation_prompt := prompt;
                    translator_model := translator_model (self w) |} w)) ;;
    logger INFO MsgPromptUpdated.

(** The hint that [_get_retry_time] reads: [e.response.headers['retry-after']],
    present when [e] has a [response], the response has [headers] and the
    key is in them. *)
Definition retry_after_hint (e : pyexn) : option string :=
  match exn_response e with
  | Some r =>
      match headers r with
      | Some h => h !! "retry-after"
      | None => None
      end
  | None => None
  end.

(** [_get_retry_time(self, e)].  The sum [retry_after + jitter] is one of
    an [int] and a [float]: the [int] is converted first, which raises
    [OverflowError] when it is too large. *)
Definition _get_retry_time (env : Env) (e : pyexn) : M Q :=
  let* retry_after :=
    match retry_after_hint e with
    | Some s =>
        match py_int env s with
        | Some h =>
            logger INFO (MsgApiSuggests (h + 2)) ;;
            ret (h + 2)
        | None =>
            logger INFO MsgNotAnInteger ;;
            ret 200
        end
    | None => ret 60
    end in
  let* jitter := random_uniform env 0 5 in
  let* base := float_of_int retry_after in
  let wait_time := Binary64.add base jitter in
  logger INFO (MsgRetryingIn wait_time) ;;
  ret wait_time.

(** [extract_audio(self, video_path)]. *)
Definition extract_audio (env : Env) (video_path : string) : M string :=
  try_except
    (logger INFO (MsgExtracting video_path) ;;
     match open_video env video_path with Some e => raise e | None => ret tt end ;;
     let* audio_path := named_temporary_file env ".wav" in
     let* data := answer (write_audiofile env video_path) in
     (fun w => (Return tt, set_fs (<[audio_path := File data]> (fs w)) w)) ;;
     logger INFO (MsgExtracted audio_path) ;;
     ret audio_path)
    (fun e =>
       logger ERROR (MsgExtractError video_path (exn_str e)) ;;
       raise e).

(** [transcribe_audio(self, audio_path, intento=0)].  The recursion of the
    source is on [intento + 1]; it ends because [11 - intento] decreases. *)
Equations? transcribe_audio (env : Env) (audio_path : string) (intento : Z)
  : M string by wf (Z.to_nat (11 - intento)) lt :=
  transcribe_audio env audio_path intento with Z_gt_le_dec intento 10 := {
    | left _ =>
        logger ERROR MsgTranscribeGiveUp ;;
        ret FALLO_TRANSCRIBIENDO
    | right _ =>
        try_except
          (logger INFO (MsgTranscribing audio_path) ;;
           let* data := read_file audio_path in
           let* o := get_self in
           let* text := whisper_create env (whisper_model o) audio_path data in
           logger INFO MsgTranscribed ;;
           ret text)
          (fun e =>
             logger INFO (MsgAttempt (intento + 1)) ;;
             logger ERROR (MsgTranscribeError audio_path (exn_str e)) ;;
             let* retry_after_time := _get_retry_time env e in
             time_sleep retry_after_time ;;
             transcribe_audio env audio_path (intento + 1)) }.
Proof. lia. Qed.

(** [translate_text(self, text, intento=0)]. *)
Equations? translate_text (env : Env) (text : string) (intento : Z)
  : M string by wf (Z.to_nat (11 - intento)) lt :=
  translate_text env text intento with Z_gt_le_dec intento 10 := {
    | left _ =>
        logger ERROR MsgTranslateGiveUp ;;
        ret FALLO_TRADUCIENDO
    | right _ =>
        try_except
          (logger INFO MsgTranslating ;;
           let* o := get_self in
           let* prompt := answer (py_format env (translation_prompt o) text) in
           let* translation := translator_invoke env (translator_model o) prompt in
           logger INFO MsgTranslated ;;
           ret translation)
          (fun e =>
             logger INFO (MsgAttempt (intento + 1)) ;;
             logger ERROR (MsgTranslateError (exn_str e)) ;;
             let* retry_after_time := _get_retry_time env e in
             time_sleep retry_after_time ;;
             translate_text env text (intento + 1)) }.
Proof. lia. Qed.

(** [save_text(self, text, file_path)]. *)
Definition save_text (env : Env) (text file_path : string) : M unit :=
  try_except
    (write_file env file_path text ;;
     logger INFO (MsgSaved file_path))
    (fun e => logger ERROR (MsgSaveError file_path (exn_str e))).

(** The dictionary that [process_video] returns when [return_results] is
    set; [translation] is [None] on the early exit. *)
Record result := {
  transcription : string;
  translation : option string;
  video_path : string
}.

(** The truth value of [results_path], which is [None] or a string. *)
Definition truthy_path (results_path : option string) : bool :=
  match results_path with
  | Some p => PyStr.truthy p
  | None => false
  end.

(** The directory [results_path] where the source uses it as a string. *)
Definition path_of (results_path : option string) : string :=
  default "" results_path.

(** The inner [try] block of [process_video] (lines 281 to 317). *)
Definition process_audio (env : Env) (video_path : string)
    (results_path : option string) (save return_results : bool)
    (audio_path : string) : M (option result) :=
  let* transcription := transcribe_audio env audio_path 0 in
  if PyStr.contains "FALLO TRANSCRIBIENDO" transcription then
    logger ERROR MsgTranscriptionLimit ;;
    if return_results then
      ret (Some {| transcription := transcription;
                   translation := None;
                   video_path := video_path |})
    else ret None
  else
    let* translation := translate_text env transcription 0 in
    let video_filename := path_stem env video_path in
    (if save && truthy_path results_path then
       let transcription_file :=
         PyStr.path_join (path_of results_path) (video_filename ++ "_transcription.txt") in
       let translation_file :=
         PyStr.path_join (path_of results_path) (video_filename ++ "_translation.txt") in
       save_text env transcription transcription_file ;;
       save_text env translation translation_file
     else ret tt) ;;
    logger INFO (MsgProcessed video_path) ;;
    if return_results then
      ret (Some {| transcription := transcription;
                   translation := Some translation;
                   video_path := video_path |})
    else ret None.

(** The [finally] block of [process_video] (lines 319 to 322). *)
Definition remove_audio (audio_path : string) : M unit :=
  let* found := os_path_exists audio_path in
  if found then os_unlink audio_path else ret tt.

(** The statements of [process_video] that come before the extraction:
    the existence check, the creation of the results directory, and the
    first record of the outer [try] block. *)
Definition process_video_entry (env : Env) (video_path : string)
    (results_path : option string) (save : bool) : M unit :=
  let* found := os_path_exists video_path in
  (if negb found then
     logger ERROR (MsgNotFound video_path) ;;
     raise (plain_exn FileNotFoundError ("Archivo no encontrado: " ++ video_path))
   else ret tt) ;;
  (if save && truthy_path results_path
   then os_makedirs env (path_of results_path)
   else ret tt) ;;
  logger INFO (MsgProcessing video_path).

(** [process_video(self, video_path, results_path=None, save=True,
    return_results=False)]. *)
Definition process_video (env : Env) (video_path : string)
    (results_path : option string) (save return_results : bool)
  : M (option result) :=
  let* found := os_path_exists video_path in
  (if negb found then
     logger ERROR (MsgNotFound video_path) ;;
     raise (plain_exn FileNotFoundError ("Archivo no encontrado: " ++ video_path))
   else ret tt) ;;
  (if save && truthy_path results_path
   then os_makedirs env (path_of results_path)
   else ret tt) ;;
  try_except
    (logger INFO (MsgProcessing video_path) ;;
     let* audio_path := extract_audio env video_path in
     try_finally
       (process_audio env video_path results_path save return_results audio_path)
       (remove_audio audio_path))
    (fun e =>
       logger ERROR (MsgProcessError video_path (exn_str e)) ;;
       raise e).

(** ** The loop of [__main__] *)

(** The condition of line 524, on the value [resultado] that
    [process_video] returned: [resultado and resultado['transcription'] and
    not resultado['transcription'].startswith('FALLO')].  A dictionary with
    three keys is truthy. *)
Definition counts_as_processed (resultado : option result) : bool :=
  match resultado with
  | Some r =>
      PyStr.truthy (transcription r)
      && negb (PyStr.startswith "FALLO" (transcription r))
  | None => false
  end.

(** ** The construction of the object *)

(** The default values of the arguments of [__init__]. *)
Definition DEFAULT_WHISPER_MODEL : string := "whisper-large-v3".

Definition DEFAULT_TRANSLATION_MODEL : string := "openai/gpt-oss-120b".

(** The template that [__init__] installs (lines 49 to 59). *)
Definition DEFAULT_TRANSLATION_PROMPT : string := "
        Traduce el siguiente texto del inglés al español. 
        Eventualmente puede haber texto en árabe también. Asegurate de traducirlo correctamente
        Mantén el formato original y asegúrate de que la traducción sea natural y fluida.
        Devuelve únicamente el contenido de la traducción
        
        Texto a traducir:
        {text}
        
        Traducción al español:
        ".

(** [_initialize_clients(self)]: the translation client is built with the
    model that is configured at that moment. *)
Definition _initialize_clients (o : Transcriber) : Transcriber :=
  {| groq_api_key := groq_api_key o;
     whisper_model := whisper_model o;
     translation_model := translation_model o;
     translation_prompt := translation_prompt o;
     translator_model := translation_model o |}.

(** [x or y] for an argument [x] that is [None] or a string and a [y] that
    is [None] or a string. *)
Definition py_or (x y : option string) : option string :=
  match x with
  | Some k => if PyStr.truthy k then Some k else y
  | None => y
  end.

(** [__init__(self, whisper_model, translation_model, groq_api_key)]:
    the object, or the [ValueError] for a missing key.  [getenv] is what
    [os.getenv("GROQ_API_KEY")] answers. *)
Definition __init__ (getenv : option string) (whisper_model translation_model : string)
    (groq_api_key : option string) : pyexn + Transcriber :=
  match py_or groq_api_key getenv with
  | Some k =>
      if PyStr.truthy k then
        inr (_initialize_clients
               {| groq_api_key := k;
                  whisper_model := whisper_model;
                  translation_model := translation_model;
                  translation_prompt := DEFAULT_TRANSLATION_PROMPT;
                  translator_model := "" |})
      else
        inl (plain_exn ValueError
               "GROQ_API_KEY no encontrada. Configúrala como variable de entorno o pásala como parámetro")
  | None =>
      inl (plain_exn ValueError
             "GROQ_API_KEY no encontrada. Configúrala como variable de entorno o pásala como parámetro")
  end.

(** ** The script: [__main__]

    What the script prints is left out: printing neither fails nor
    decides anything.  The summary that ends a run is the value that
    [main] returns. *)

Module Main.

(** The five variables that the arguments set. *)
Record config := {
  video_directory : string;
  results_directory : option string;
  whisper_model : string;
  translation_model : string;
  save_files : bool
}.

(** [os.path.isdir(p)] and [os.path.exists(p)]. *)
Definition isdir (f : gmap string node) (p : string) : bool :=
  match f !! p with
  | Some Dir => true
  | _ => false
  end.

Definition exists_ (f : gmap string node) (p : string) : bool :=
  bool_decide (is_Some (f !! p)).

(** The reading of [sys.argv] (lines 399 to 466): the configuration, or
    [None] where the script calls [sys.exit(1)]. *)
Definition parse_argv (f : gmap string node) (argv : list string) : option config :=
  match argv with
  | [_; a1] =>
      Some {| video_directory := a1; results_directory := None;
              whisper_model := DEFAULT_WHISPER_MODEL;
              translation_model := DEFAULT_TRANSLATION_MODEL;
              save_files := false |}
  | [_; a1; a2] =>
      if isdir f a2 || negb (exists_ f a2) then
        Some {| video_directory := a1; results_directory := Some a2;
                whisper_model := DEFAULT_WHISPER_MODEL;
                translation_model := DEFAULT_TRANSLATION_MODEL;
                save_files := true |}
      else None
  | [_; a1; a2; a3] =>
      Some {| video_directory := a1; results_directory := None;
              whisper_model := a2; translation_model := a3;
              save_files := false |}
  | [_; a1; a2; a3; a4] =>
      Some {| video_directory := a1; results_directory := Some a2;
              whisper_model := a3; translation_model := a4;
              save_files := true |}
  | _ => None
  end.

(** [ext.upper()] on ASCII letters. *)
Definition upper_char (c : Ascii.ascii) : Ascii.ascii :=
  let n := Ascii.nat_of_ascii c in
  if (97 <=? n)%nat && (n <=? 122)%nat then Ascii.ascii_of_nat (n - 32) else c.

Fixpoint upper (s : string) : string :=
  match s with
  | EmptyString => EmptyString
  | String c s' => String (upper_char c) (upper s')
  end.

Definition video_extensions : list string :=
  [".mp4"; ".avi"; ".mov"; ".mkv"; ".webm"; ".m4v"].

(** The search for video files (lines 487 to 492).  [glob d pat] is what
    [Path(d).glob(pat)] yields, as path strings. *)
Definition find_videos (glob : string -> string -> list string)
    (video_directory : string) : list string :=
  flat_map (fun ext => app (glob video_directory ("*" ++ ext))
                            (glob video_directory ("*" ++ upper ext)))
    video_extensions.

(** [s[:100] + "..." if len(s) > 100 else s]. *)
Definition preview (s : string) : string :=
  if (100 <? PyStr.len s)%nat then PyStr.take 100 s ++ "..." else s.

(** The same expression on a value that may be [None]: its test,
    [len(x) > 100], raises [TypeError] on [None]. *)
Definition preview_opt (x : option string) : M string :=
  match x with
  | Some s => ret (preview s)
  | None => raise (plain_exn OtherError "object of type 'NoneType' has no len()")
  end.

(** The two counters of the loop. *)
Record counts := {
  processed_count : nat;
  error_count : nat
}.

Definition count_processed (c : counts) : counts :=
  {| processed_count := S (processed_count c); error_count := error_count c |}.

Definition count_error (c : counts) : counts :=
  {| processed_count := processed_count c; error_count := S (error_count c) |}.

(** The [try] block of the loop (lines 516 to 539) for one video. *)
Definition try_video (env : Env) (results_directory : option string)
    (save_files : bool) (video_file : string) (c : counts) : M counts :=
  let* resultado :=
    process_video env video_file
      (if save_files then results_directory else None) save_files true in
  match resultado with
  | Some r =>
      if PyStr.truthy (transcription r)
         && negb (PyStr.startswith "FALLO" (transcription r))
      then
        let transcription_preview := preview (transcription r) in
        let* translation_preview := preview_opt (translation r) in
        ret (count_processed c)
      else ret (count_error c)
  | None => ret (count_error c)
  end.

(** One turn of the loop: the [try] block and its handler (lines 541 to
    543), which catches every exception. *)
Definition one_video (env : Env) (results_directory : option string)
    (save_files : bool) (video_file : string) (c : counts) (w : World)
  : counts * World :=
  match try_video env results_directory save_files video_file c w with
  | (Return c', w') => (c', w')
  | (Raise _, w') => (count_error c, w')
  end.

(** The loop over the video files (lines 509 to 543). *)
Fixpoint all_videos (env : Env) (results_directory : option string)
    (save_files : bool) (video_files : list string) (c : counts) (w : World)
  : counts * World :=
  match video_files with
  | [] => (c, w)
  | video_file :: rest =>
      let (c', w') := one_video env results_directory save_files video_file c w in
      all_videos env results_directory save_files rest c' w'
  end.

(** How a run of the script ends: [sys.exit(1)], or the summary with the
    two counters and the number of video files, and exit code 0. *)
Inductive ending :=
  | Exit1
  | Summary (c : counts) (total : nat).

(** The script after the reading of the arguments (lines 398 to 555). *)
Definition main (env : Env) (getenv : option string)
    (glob : string -> string -> list string) (argv : list string) (w : World)
  : ending * World :=
  match parse_argv (fs w) argv with
  | None => (Exit1, w)
  | Some cfg =>
      if negb (exists_ (fs w) (video_directory cfg)) then (Exit1, w)
      else if negb (isdir (fs w) (video_directory cfg)) then (Exit1, w)
      else
        match (if save_files cfg && truthy_path (results_directory cfg)
               then os_makedirs env (path_of (results_directory cfg))
               else ret tt) w with
        | (Raise _, w1) => (Exit1, w1)
        | (Return _, w1) =>
            let video_files := find_videos glob (video_directory cfg) in
            match video_files with
            | [] => (Exit1, w1)
            | _ :: _ =>
                match __init__ getenv (whisper_model cfg) (translation_model cfg) None with
                | inl _ => (Exit1, w1)
                | inr transcriber =>
                    let (c, w2) :=
                      all_videos env (results_directory cfg) (save_files cfg)
                        video_files
                        {| processed_count := 0; error_count := 0 |}
                        (set_self transcriber w1) in
                    (Summary c (length video_files), w2)
                end
            end
        end
  end.

End Main.

(** ** A concrete environment and world, for the examples *)

Module Sample.

(** [int] on plain decimal numerals with an optional sign. *)
Fixpoint digits (s : string) (acc : Z) : option Z :=
  match s with
  | EmptyString => Some acc
  | String c s' =>
      let n := Z.of_nat (Ascii.nat_of_ascii c) - 48 in
      if (0 <=? n) && (n <=? 9) then digits s' (10 * acc + n) else None
  end.

Definition int (s : string) : option Z :=
  match s with
  | EmptyString => None
  | String c s' =>
      if Ascii.eqb c (Ascii.ascii_of_nat 45)          (* the sign "-" *)
      then match s' with
           | EmptyString => None
           | String _ _ => Z.opp <$> digits s' 0
           end
      else digits s 0
  end.

(** [format] on templates that end in the field: ["... {text}"]. *)
Fixpoint format (template text : string) : pyexn + string :=
  match template with
  | EmptyString => inr EmptyString
  | String c t' =>
      if String.eqb template "{text}" then inr text
      else match format t' text with
           | inr r => inr (String c r)
           | inl e => inl e
           end
  end.

(** [stem] on names of the form ["<stem>.mp4"] without directories. *)
Fixpoint stem (p : string) : string :=
  match p with
  | EmptyString => EmptyString
  | String c p' => if String.eqb p ".mp4" then EmptyString else String c (stem p')
  end.

Definition rate_limit (hint : string) : pyexn :=
  {| exn_cls := APIError; exn_str := "rate limit";
     exn_response := Some {| headers := Some {[ "retry-after" := hint ]} |} |}.

(** Both services answer; the system refuses nothing. *)
Definition env : Env :=
  {| whisper_reply := fun _ _ _ _ => inr "hello world";
     translator_reply := fun _ _ _ => inr "hola mundo";
     random_bits := fun _ => 2 ^ 52;
     open_video := fun _ => None;
     write_audiofile := fun _ => inr "RIFF";
     temp_name := fun n => "/tmp/tmp" ++ pretty n;
     write_fault := fun _ => None;
     mkdir_fault := fun _ => None;
     py_int := int;
     py_format := format;
     path_stem := stem |}.

(** The speech-to-text service is down: every request is refused, with
    a hint to come back after one second. *)
Definition whisper_down : Env :=
  {| whisper_reply := fun _ _ _ _ => inl (rate_limit "1");
     translator_reply := translator_reply env;
     random_bits := random_bits env;
     open_video := open_video env;
     write_audiofile := write_audiofile env;
     temp_name := temp_name env;
     write_fault := write_fault env;
     mkdir_fault := mkdir_fault env;
     py_int := int;
     py_format := format;
     path_stem := stem |}.

(** The translation service is down, with the same hint. *)
Definition translator_down : Env :=
  {| whisper_reply := whisper_reply env;
     translator_reply := fun _ _ _ => inl (rate_limit "1");
     random_bits := random_bits env;
     open_video := open_video env;
     write_audiofile := write_audiofile env;
     temp_name := temp_name env;
     write_fault := write_fault env;
     mkdir_fault := mkdir_fault env;
     py_int := int;
     py_format := format;
     path_stem := stem |}.

(** The translation service refuses with a hint far in the past, so that
    the computed wait is negative and [time.sleep] raises. *)
Definition translator_past : Env :=
  {| whisper_reply := whisper_reply env;
     translator_reply := fun _ _ _ => inl (rate_limit "-100");
     random_bits := random_bits env;
     open_video := open_video env;
     write_audiofile := write_audiofile env;
     temp_name := temp_name env;
     write_fault := write_fault env;
     mkdir_fault := mkdir_fault env;
     py_int := int;
     py_format := format;
     path_stem := stem |}.

Definition denied : pyexn := plain_exn PermissionError "Permission denied".

(** Nothing can be written. *)
Definition read_only : Env :=
  {| whisper_reply := whisper_reply env;
     translator_reply := translator_reply env;
     random_bits := random_bits env;
     open_video := open_video env;
     write_audiofile := write_audiofile env;
     temp_name := temp_name env;
     write_fault := fun _ => Some (Refused denied);
     mkdir_fault := mkdir_fault env;
     py_int := int;
     py_format := format;
     path_stem := stem |}.

(** The speech-to-text service returns a text that quotes the failure
    marker in its middle. *)
Definition quoting : Env :=
  {| whisper_reply := fun _ _ _ _ => inr "dijo: FALLO TRANSCRIBIENDO";
     translator_reply := translator_reply env;
     random_bits := random_bits env;
     open_video := open_video env;
     write_audiofile := write_audiofile env;
     temp_name := temp_name env;
     write_fault := write_fault env;
     mkdir_fault := mkdir_fault env;
     py_int := int;
     py_format := format;
     path_stem := stem |}.

Definition obj : Transcriber :=
  {| groq_api_key := "key";
     whisper_model := "whisper-large-v3";
     translation_model := "openai/gpt-oss-120b";
     translation_prompt := "Traduce: {text}";
     translator_model := "openai/gpt-oss-120b" |}.

(** A world with one video file and nothing else. *)
Definition world : World :=
  {| self := obj;
     fs := {[ "x.mp4" := File "video" ]};
     log := [];
     whisper_calls := 0;
     translator_calls := 0;
     random_draws := 0;
     temp_files := 0;
     sleeps := [] |}.

End Sample.

(** ** More environments and worlds, for the examples *)

Module Cases.

(** The media library cannot open the video. *)
Definition unreadable : Env :=
  {| whisper_reply := whisper_reply Sample.env;
     translator_reply := translator_reply Sample.env;
     random_bits := random_bits Sample.env;
     open_video := fun _ => Some (plain_exn OSError "MoviePy error: the file could not be read");
     write_audiofile := write_audiofile Sample.env;
     temp_name := temp_name Sample.env;
     write_fault := write_fault Sample.env;
     mkdir_fault := mkdir_fault Sample.env;
     py_int := Sample.int;
     py_format := Sample.format;
     path_stem := Sample.stem |}.

(** The video has no audio track: [video.audio] is [None]. *)
Definition silent : Env :=
  {| whisper_reply := whisper_reply Sample.env;
     translator_reply := translator_reply Sample.env;
     random_bits := random_bits Sample.env;
     open_video := open_video Sample.env;
     write_audiofile := fun _ =>
       inl (plain_exn OtherError "'NoneType' object has no attribute 'write_audiofile'");
     temp_name := temp_name Sample.env;
     write_fault := write_fault Sample.env;
     mkdir_fault := mkdir_fault Sample.env;
     py_int := Sample.int;
     py_format := Sample.format;
     path_stem := Sample.stem |}.

(** Both services refuse their first two requests and answer the third. *)
Definition flaky : Env :=
  {| whisper_reply := fun n _ _ _ =>
       if (n <? 2)%nat then inl (Sample.rate_limit "1") else inr "hello world";
     translator_reply := fun n _ _ =>
       if (n <? 2)%nat then inl (Sample.rate_limit "1") else inr "hola mundo";
     random_bits := random_bits Sample.env;
     open_video := open_video Sample.env;
     write_audiofile := write_audiofile Sample.env;
     temp_name := temp_name Sample.env;
     write_fault := write_fault Sample.env;
     mkdir_fault := mkdir_fault Sample.env;
     py_int := Sample.int;
     py_format := Sample.format;
     path_stem := Sample.stem |}.

(** [format] on a template with a second field: [KeyError]. *)
Definition second_field : Env :=
  {| whisper_reply := whisper_reply Sample.env;
     translator_reply := translator_reply Sample.env;
     random_bits := random_bits Sample.env;
     open_video := open_video Sample.env;
     write_audiofile := write_audiofile Sample.env;
     temp_name := temp_name Sample.env;
     write_fault := write_fault Sample.env;
     mkdir_fault := mkdir_fault Sample.env;
     py_int := Sample.int;
     py_format := fun _ _ => inl (plain_exn KeyError "'idioma'");
     path_stem := Sample.stem |}.

(** The disk is full: every file can be opened, and is empty when the
    write fails. *)
Definition no_space : pyexn :=
  plain_exn OSError "[Errno 28] No space left on device".

Definition disk_full : Env :=
  {| whisper_reply := whisper_reply Sample.env;
     translator_reply := translator_reply Sample.env;
     random_bits := random_bits Sample.env;
     open_video := open_video Sample.env;
     write_audiofile := write_audiofile Sample.env;
     temp_name := temp_name Sample.env;
     write_fault := fun _ => Some (Cut no_space 0);
     mkdir_fault := mkdir_fault Sample.env;
     py_int := Sample.int;
     py_format := Sample.format;
     path_stem := Sample.stem |}.

(** The random source yields its largest value, [1 - 2 ^ -53]. *)
Definition top_draw : Env :=
  {| whisper_reply := whisper_reply Sample.env;
     translator_reply := translator_reply Sample.env;
     random_bits := fun _ => 2 ^ 53 - 1;
     open_video := open_video Sample.env;
     write_audiofile := write_audiofile Sample.env;
     temp_name := temp_name Sample.env;
     write_fault := write_fault Sample.env;
     mkdir_fault := mkdir_fault Sample.env;
     py_int := Sample.int;
     py_format := Sample.format;
     path_stem := Sample.stem |}.

(** A retry-after hint of 310 digits: [10 ^ 309]. *)
Definition huge_hint : string :=
  String (Ascii.ascii_of_nat 49)
    (String.string_of_list_ascii (repeat (Ascii.ascii_of_nat 48) 309)).

(** A world in which the audio file of the examples exists. *)
Definition with_audio : World :=
  set_fs {[ "a.wav" := File "RIFF" ]} Sample.world.

(** A world in which the name of the results directory is taken by a
    file. *)
Definition with_notes : World :=
  set_fs {[ "x.mp4" := File "video"; "out" := File "notes" ]} Sample.world.

(** A world with a directory of videos. *)
Definition with_videos : World :=
  set_fs {[ "videos" := Dir; "videos/a.mp4" := File "video";
            "videos/b.MP4" := File "video" ]} Sample.world.

(** [glob] on that directory. *)
Definition glob (d pattern : string) : list string :=
  if String.eqb pattern "*.mp4" then [d ++ "/a.mp4"]
  else if String.eqb pattern "*.MP4" then [d ++ "/b.MP4"]
  else [].

End Cases.

(** * Vocabulary of the properties *)

(** ** Runs

    [wp m Q w]: running [m] in the world [w] ends in an outcome and a
    world that satisfy [Q].  Every method is a total function, so this is
    a statement about the one run there is. *)

Definition wp {A} (m : M A) (Q : outcome A -> World -> Prop) (w : World) : Prop :=
  Q (m w).1 (m w).2.

(** [transcribe_audio] changes neither the object, nor the filesystem, nor
    the count of translation requests, and it sends at most [11 - intento]
    requests of its own. *)
Definition transcribe_frame (n : nat) (w w' : World) : Prop :=
  self w' = self w /\ fs w' = fs w
  /\ translator_calls w' = translator_calls w
  /\ (whisper_calls w <= whisper_calls w' <= whisper_calls w + n)%nat.

(** The same for [translate_text], with the two services exchanged. *)
Definition translate_frame (n : nat) (w w' : World) : Prop :=
  self w' = self w /\ fs w' = fs w
  /\ whisper_calls w' = whisper_calls w
  /\ (translator_calls w <= translator_calls w' <= translator_calls w + n)%nat.

(** The run of [process_video] from the world [w] gets as far as the
    transcription: the file exists, the results directory is there when it
    is wanted, and [extract_audio] has returned [audio_path], leaving the
    world [w1]. *)
Definition reaches_transcription (env : Env) (video_path : string)
    (results_path : option string) (save : bool) (w : World)
    (audio_path : string) (w1 : World) : Prop :=
  exists w0,
    process_video_entry env video_path results_path save w = (Return tt, w0)
    /\ extract_audio env video_path w0 = (Return audio_path, w1).

(** The handler of the outer [try] of [process_video] (lines 326 to 328). *)
Definition process_video_handler (video_path : string) (e : pyexn)
  : M (option result) :=
  logger ERROR (MsgProcessError video_path (exn_str e)) ;;
  raise e.

(** The two files that [process_video] writes. *)
Definition transcription_file (env : Env) (video_path : string)
    (results_path : option string) : string :=
  PyStr.path_join (path_of results_path)
    (path_stem env video_path ++ "_transcription.txt").

Definition translation_file (env : Env) (video_path : string)
    (results_path : option string) : string :=
  PyStr.path_join (path_of results_path)
    (path_stem env video_path ++ "_translation.txt").

(** A run that has left the object alone and has sent at most [a]
    requests to the speech-to-text service and at most [b] to the
    translation service. *)
Definition within_budget (a b : nat) (w w' : World) : Prop :=
  self w' = self w
  /\ (whisper_calls w <= whisper_calls w' <= whisper_calls w + a)%nat
  /\ (translator_calls w <= translator_calls w' <= translator_calls w + b)%nat.

(** The template has the place for the text. *)
Definition has_marker (o : Transcriber) : Prop :=
  PyStr.contains "{text}" (translation_prompt o) = true.

(** The random source yields values from 0 on. *)
Definition draws_nonnegative (env : Env) : Prop :=
  forall n, (0 <= random_unit env n)%Q.

(** The jitter that [_get_retry_time] adds on the [n]-th draw: the value
    of [random.uniform(0, 5)], which is [0 + (5 - 0) * random.random()]
    in binary64 arithmetic. *)
Definition jitter (env : Env) (n : nat) : Q :=
  Binary64.add 0 (Binary64.mul 5 (random_unit env n)).

(** [_get_retry_time] returns [t], having drawn once and logged. *)
Definition retry_time_is (env : Env) (e : pyexn) (w : World) (t : Q) : Prop :=
  exists l,
    _get_retry_time env e w
    = (Return t, set_log l (set_random_draws (S (random_draws w)) w)).

(** The retry-after hint of the error, when it has one that parses, asks
    for a wait that is neither in the past nor longer than a million
    seconds, which [float] holds exactly and [time.sleep] accepts on every
    platform: the hint is between -2 and [10 ^ 6]. *)
Definition hint_in_range (env : Env) (e : pyexn) : Prop :=
  match retry_after_hint e with
  | Some s => match py_int env s with
              | Some h => -2 <= h <= 10 ^ 6
              | None => True
              end
  | None => True
  end.

(** The filesystem [f'] is [f] with new directories on the way to [p]:
    what was in [f] is unchanged, and what is new is a directory whose
    name is a prefix of [p]. *)
Definition new_dirs_along (p : string) (f f' : gmap string node) : Prop :=
  forall q,
    f' !! q = f !! q
    \/ (f !! q = None /\ f' !! q = Some Dir /\ PyStr.startswith q p = true).

(** The world after a series of calls of [set_translation_prompt], each
    of which may succeed or raise. *)
Definition after_prompts (prompts : list string) (w : World) : World :=
  fold_left (fun w prompt => (set_translation_prompt prompt w).2) prompts w.

(** * Properties *)

(** ** Reasoning about runs *)

Section Rules.
Context {A B : Type}.
Implicit Types (Q : outcome A -> World -> Prop) (w : World).

Lemma wp_mono (m : M A) Q Q' w :
  (forall r w', Q r w' -> Q' r w') -> wp m Q w -> wp m Q' w.
Proof. unfold wp. auto. Qed.

Lemma wp_ret (a : A) Q w : Q (Return a) w -> wp (ret a) Q w.
Proof. exact id. Qed.

Lemma wp_raise e Q w : Q (Raise e) w -> wp (raise e) Q w.
Proof. exact id. Qed.

Lemma wp_bind (m : M B) (k : B -> M A) Q w :
  wp m (fun r w' => match r with
                    | Return b => wp (k b) Q w'
                    | Raise e => Q (Raise e) w'
                    end) w ->
  wp (bind m k) Q w.
Proof. unfold wp, bind. destruct (m w) as [[b|e] w']; auto. Qed.

Lemma wp_try_except (m : M A) (h : pyexn -> M A) Q w :
  wp m (fun r w' => match r with
                    | Return a => Q (Return a) w'
                    | Raise e => wp (h e) Q w'
                    end) w ->
  wp (try_except m h) Q w.
Proof. unfold wp, try_except. destruct (m w) as [[a|e] w']; auto. Qed.

Lemma wp_try_finally (m : M A) (c : M unit) Q w :
  wp m (fun r w' => wp c (fun rc w'' => match rc with
                                        | Return _ => Q r w''
                                        | Raise e => Q (Raise e) w''
                                        end) w') w ->
  wp (try_finally m c) Q w.
Proof.
  unfold wp, try_finally. destruct (m w) as [r w']; simpl.
  destruct (c w') as [[[]|e] w'']; auto.
Qed.

Lemma wp_answer (r : pyexn + A) Q w :
  match r with inl e => Q (Raise e) w | inr a => Q (Return a) w end ->
  wp (answer r) Q w.
Proof. destruct r; exact id. Qed.

End Rules.

Section Primitives.
Implicit Types (w : World).

Lemma wp_logger l m (Q : outcome unit -> World -> Prop) w :
  Q (Return tt) (set_log ((l, m) :: log w) w) -> wp (logger l m) Q w.
Proof. exact id. Qed.

Lemma wp_get_self (Q : outcome Transcriber -> World -> Prop) w :
  Q (Return (self w)) w -> wp get_self Q w.
Proof. exact id. Qed.

Lemma wp_os_path_exists p (Q : outcome bool -> World -> Prop) w :
  Q (Return (bool_decide (is_Some (fs w !! p)))) w -> wp (os_path_exists p) Q w.
Proof. exact id. Qed.

Lemma wp_read_file p (Q : outcome string -> World -> Prop) w :
  (forall r, Q r w) -> wp (read_file p) Q w.
Proof. intros H. unfold wp, read_file. destruct (fs w !! p) as [[c|]|]; apply H. Qed.

Lemma wp_whisper_create env model name data
    (Q : outcome string -> World -> Prop) w :
  (forall r, Q r (set_whisper_calls (S (whisper_calls w)) w)) ->
  wp (whisper_create env model name data) Q w.
Proof.
  intros H. unfold wp, whisper_create.
  destruct (whisper_reply env _ _ _ _); apply H.
Qed.

Lemma wp_translator_invoke env model prompt
    (Q : outcome string -> World -> Prop) w :
  (forall r, Q r (set_translator_calls (S (translator_calls w)) w)) ->
  wp (translator_invoke env model prompt) Q w.
Proof.
  intros H. unfold wp, translator_invoke.
  destruct (translator_reply env _ _ _); apply H.
Qed.

Lemma wp_time_sleep t (Q : outcome unit -> World -> Prop) w :
  (forall e, Q (Raise e) w) ->
  Q (Return tt) (set_sleeps (t :: sleeps w) w) ->
  wp (time_sleep t) Q w.
Proof.
  intros H1 H2. unfold wp, time_sleep.
  destruct (Qlt_le_dec t 0); simpl; auto.
Qed.

Lemma wp_float_of_int z (Q : outcome Q -> World -> Prop) w :
  (forall r, Q r w) -> wp (float_of_int z) Q w.
Proof. intros H. unfold wp, float_of_int. destruct (Binary64.of_int z); apply H. Qed.

Lemma wp_random_uniform env a b (Q : outcome Q -> World -> Prop) w :
  (forall r, Q r (set_random_draws (S (random_draws w)) w)) ->
  wp (random_uniform env a b) Q w.
Proof.
  intros H. unfold wp, random_uniform, random_random, float_of_int, bind, ret, raise.
  destruct (Binary64.of_int (b - a)); [|apply H].
  destruct (Binary64.of_int a); apply H.
Qed.

(** [_get_retry_time] touches the log and the count of random draws
    only, whether it returns or raises. *)
Lemma wp__get_retry_time env e (Q : outcome Q -> World -> Prop) w :
  (forall r l, Q r (set_log l (set_random_draws (S (random_draws w)) w))) ->
  wp (_get_retry_time env e) Q w.
Proof.
  intros H.
  assert (Hrest : forall retry_after w0,
             (forall r l, Q r (set_log l (set_random_draws (S (random_draws w0)) w0))) ->
             wp (let* jitter := random_uniform env 0 5 in
                 let* base := float_of_int retry_after in
                 let wait_time := Binary64.add base jitter in
                 logger INFO (MsgRetryingIn wait_time) ;;
                 ret wait_time) Q w0).
  { intros retry_after w0 H0.
    apply wp_bind, wp_random_uniform. intros [j|e0]; [|apply (H0 _ (log w0))].
    apply wp_bind, wp_float_of_int. intros [b|e0]; [|apply (H0 _ (log w0))].
    cbv zeta. apply wp_bind, wp_logger, wp_ret. apply H0. }
  unfold _get_retry_time.
  destruct (retry_after_hint e) as [s|]; [destruct (py_int env s) as [h|]|].
  - apply wp_bind, wp_bind, wp_logger, wp_ret. apply Hrest. intros r l. apply H.
  - apply wp_bind, wp_bind, wp_logger, wp_ret. apply Hrest. intros r l. apply H.
  - apply wp_bind, wp_ret. apply Hrest. exact H.
Qed.

End Primitives.

(** One step of symbolic execution. *)
Ltac wp_step :=
  cbv beta iota zeta;
  lazymatch goal with
  | |- wp (bind _ _) _ _ => apply wp_bind
  | |- wp (try_except _ _) _ _ => apply wp_try_except
  | |- wp (try_finally _ _) _ _ => apply wp_try_finally
  | |- wp (ret _) _ _ => apply wp_ret
  | |- wp (raise _) _ _ => apply wp_raise
  | |- wp (answer _) _ _ => apply wp_answer
  | |- wp (logger _ _) _ _ => apply wp_logger
  | |- wp get_self _ _ => apply wp_get_self
  | |- wp (os_path_exists _) _ _ => apply wp_os_path_exists
  | |- wp (read_file _) _ _ => apply wp_read_file; intros [?|?]
  | |- wp (whisper_create _ _ _ _) _ _ => apply wp_whisper_create; intros [?|?]
  | |- wp (translator_invoke _ _ _) _ _ => apply wp_translator_invoke; intros [?|?]
  | |- wp (time_sleep _) _ _ => apply wp_time_sleep; [intros ?|]
  | |- wp (_get_retry_time _ _) _ _ => apply wp__get_retry_time; intros [?|?] ?
  end.

(** ** Frame lemmas: what the retry loops leave alone *)

Lemma transcribe_audio_frame env audio_path intento :
  forall w,
    wp (transcribe_audio env audio_path intento)
       (fun _ w' => transcribe_frame (Z.to_nat (11 - intento)) w w') w.
Proof.
  funelim (transcribe_audio env audio_path intento); intros w.
  - repeat wp_step. unfold transcribe_frame. simpl. repeat split; auto; lia.
  - clear Heqcall Heq.
    pose proof (fun w' => H (plain_exn OtherError "") tt tt 0%Q tt w w') as IH.
    clear H.
    repeat wp_step;
      try (unfold transcribe_frame; simpl; repeat split; auto; lia).
    all: eapply wp_mono; [|apply IH]; cbv beta.
    all: unfold transcribe_frame; simpl; intros _ w' (-> & -> & -> & Hc).
    all: repeat split; auto; lia.
Qed.

Lemma translate_text_frame env text intento :
  forall w,
    wp (translate_text env text intento)
       (fun _ w' => translate_frame (Z.to_nat (11 - intento)) w w') w.
Proof.
  funelim (translate_text env text intento); intros w.
  - repeat wp_step. unfold translate_frame. simpl. repeat split; auto; lia.
  - clear Heqcall Heq.
    pose proof (fun w' => H (plain_exn OtherError "") tt tt 0%Q tt w w') as IH.
    clear H.
    repeat wp_step.
    destruct (py_format env _ text) as [e|prompt]; repeat wp_step;
      try (unfold translate_frame; simpl; repeat split; auto; lia).
    all: eapply wp_mono; [|apply IH]; cbv beta.
    all: unfold translate_frame; simpl; intros _ w' (-> & -> & -> & Hc).
    all: repeat split; auto; lia.
Qed.

(** ** The retry loops *)

(** Past the tenth retry the loops give up at once: the first branch of
    the source. *)
Lemma transcribe_audio_give_up env audio_path intento w :
  10 < intento ->
  transcribe_audio env audio_path intento w
  = (Return FALLO_TRANSCRIBIENDO, set_log ((ERROR, MsgTranscribeGiveUp) :: log w) w).
Proof.
  intros Hi. simp transcribe_audio.
  destruct (Z_gt_le_dec intento 10); [reflexivity | lia].
Qed.

Lemma translate_text_give_up env text intento w :
  10 < intento ->
  translate_text env text intento w
  = (Return FALLO_TRADUCIENDO, set_log ((ERROR, MsgTranslateGiveUp) :: log w) w).
Proof.
  intros Hi. simp translate_text.
  destruct (Z_gt_le_dec intento 10); [reflexivity | lia].
Qed.

(** C1.  For every audio path, every text and every world, a call of
    [transcribe_audio] or [translate_text] with the default counter 0 sends
    at most 11 requests to its remote service; started at any counter it
    sends at most [11 - intento]; and once the counter exceeds 10 the call
    returns the fixed failure string, having logged the failure and sent no
    request.  Both loops are total functions of the counter. *)
Theorem retry_loops_bounded env audio_path text w :
  (whisper_calls (transcribe_audio env audio_path 0 w).2
   <= whisper_calls w + 11)%nat
  /\ (translator_calls (translate_text env text 0 w).2
      <= translator_calls w + 11)%nat
  /\ (forall intento,
        (whisper_calls (transcribe_audio env audio_path intento w).2
         <= whisper_calls w + Z.to_nat (11 - intento))%nat
        /\ (translator_calls (translate_text env text intento w).2
            <= translator_calls w + Z.to_nat (11 - intento))%nat)
  /\ (forall intento,
        10 < intento ->
        transcribe_audio env audio_path intento w
        = (Return FALLO_TRANSCRIBIENDO,
           set_log ((ERROR, MsgTranscribeGiveUp) :: log w) w)
        /\ translate_text env text intento w
           = (Return FALLO_TRADUCIENDO,
              set_log ((ERROR, MsgTranslateGiveUp) :: log w) w)).
Proof.
  assert (Hcalls : forall intento,
             (whisper_calls (transcribe_audio env audio_path intento w).2
              <= whisper_calls w + Z.to_nat (11 - intento))%nat
             /\ (translator_calls (translate_text env text intento w).2
                 <= translator_calls w + Z.to_nat (11 - intento))%nat).
  { intros intento. split.
    - destruct (transcribe_audio_frame env audio_path intento w) as (_ & _ & _ & H).
      lia.
    - destruct (translate_text_frame env text intento w) as (_ & _ & _ & H).
      lia. }
  split; [|split; [|split]].
  - apply (Hcalls 0).
  - apply (Hcalls 0).
  - exact Hcalls.
  - intros intento Hi. split.
    + now apply transcribe_audio_give_up.
    + now apply translate_text_give_up.
Qed.

Lemma retry_loops_bounded_witness :
  transcribe_audio Sample.env "a.wav" 11 Sample.world
  = (Return FALLO_TRANSCRIBIENDO,
     set_log ((ERROR, MsgTranscribeGiveUp) :: log Sample.world) Sample.world)
  /\ translate_text Sample.env "hello" 11 Sample.world
     = (Return FALLO_TRADUCIENDO,
        set_log ((ERROR, MsgTranslateGiveUp) :: log Sample.world) Sample.world).
Proof.
  apply (retry_loops_bounded Sample.env "a.wav" "hello" Sample.world).
  reflexivity.
Defined.

(** With the speech-to-text service down, the default call sends exactly
    11 requests, sleeps 11 times and returns the failure string. *)
Example transcribe_audio_outage :
  let r := transcribe_audio Sample.whisper_down "a.wav" 0
             (set_fs {[ "a.wav" := File "RIFF" ]} Sample.world) in
  r.1 = Return FALLO_TRANSCRIBIENDO
  /\ whisper_calls r.2 = 11%nat
  /\ length (sleeps r.2) = 11%nat.
Proof. vm_compute. repeat split. Qed.

(** Without the audio file no request is sent at all: [open] fails 11
    times. *)
Example transcribe_audio_missing_file :
  let r := transcribe_audio Sample.env "a.wav" 0 Sample.world in
  r.1 = Return FALLO_TRANSCRIBIENDO /\ whisper_calls r.2 = 0%nat.
Proof. vm_compute. repeat split. Qed.

(** ** Binary64 arithmetic

    Rounding is monotone, and it leaves the integers below [2 ^ 53] in
    magnitude as they are.  The bounds on the waits follow from these two
    facts. *)

Module Binary64Facts.
Import Binary64.
Local Open Scope Q_scope.

Lemma pow2_pos k : 0 < pow2 k.
Proof. apply Qpower_0_lt. reflexivity. Qed.

Lemma pow2_add a b : pow2 (a + b) == pow2 a * pow2 b.
Proof. apply Qpower_plus. discriminate. Qed.

Lemma pow2_le a b : (a <= b)%Z -> pow2 a <= pow2 b.
Proof. intros H. apply Qpower_le_compat_l; [exact H | discriminate]. Qed.

Lemma pow2_lt a b : (a < b)%Z -> pow2 a < pow2 b.
Proof. intros H. apply Qpower_lt_compat_l; [exact H | reflexivity]. Qed.

Lemma pow2_Z k : (0 <= k)%Z -> pow2 k == inject_Z (2 ^ k).
Proof. intros H. unfold pow2. now rewrite Zpower_Qpower. Qed.

Lemma pow2_split a b : pow2 a == pow2 (a - b) * pow2 b.
Proof. rewrite <- pow2_add. now replace (a - b + b)%Z with a by lia. Qed.

(** A positive integer between two powers of 2. *)
Lemma log2_bounds n :
  (0 < n)%Z -> pow2 (Z.log2 n) <= inject_Z n < pow2 (Z.log2 n + 1).
Proof.
  intros Hn. pose proof (Z.log2_spec n Hn) as [H1 H2].
  pose proof (Z.log2_nonneg n) as H0.
  rewrite !pow2_Z by lia. rewrite <- Zle_Qle, <- Zlt_Qlt.
  replace (Z.log2 n + 1)%Z with (Z.succ (Z.log2 n)) by lia. auto.
Qed.

Lemma ilog2_spec x : 0 < x -> pow2 (ilog2 x) <= x < pow2 (ilog2 x + 1).
Proof.
  intros Hx. unfold ilog2.
  set (a := Z.log2 (Qnum x)). set (b := Z.log2 (Zpos (Qden x))).
  assert (Hn : (0 < Qnum x)%Z).
  { destruct x as [n d]. unfold Qlt in Hx. simpl in *. lia. }
  destruct (log2_bounds (Qnum x) Hn) as [Ha1 Ha2]. fold a in Ha1, Ha2.
  destruct (log2_bounds (Zpos (Qden x)) ltac:(lia)) as [Hb1 Hb2]. fold b in Hb1, Hb2.
  assert (Hxd : x * inject_Z (Zpos (Qden x)) == inject_Z (Qnum x)).
  { destruct x as [n d]. unfold Qeq, Qmult, inject_Z. simpl. lia. }
  pose proof (pow2_pos b) as Pb. pose proof (pow2_pos (a - b)) as Pab.
  pose proof (pow2_pos (a - b - 1)) as Pab1.
  pose proof (pow2_pos (a - b + 1)) as Pab2.
  assert (Hup : x < pow2 (a - b + 1)).
  { apply Qnot_le_lt. intros Hc.
    assert (pow2 (a + 1) <= inject_Z (Qnum x)); [|lra].
    rewrite <- Hxd. rewrite (pow2_split (a + 1) b).
    replace (a + 1 - b)%Z with (a - b + 1)%Z by lia.
    apply Qle_trans with (x * pow2 b).
    - apply Qmult_le_compat_r; lra.
    - rewrite !(Qmult_comm x). apply Qmult_le_compat_r; lra. }
  assert (Hlow : pow2 (a - b - 1) < x).
  { apply Qnot_le_lt. intros Hc.
    assert (inject_Z (Qnum x) < pow2 a); [|lra].
    rewrite <- Hxd. rewrite (pow2_split a (b + 1)).
    replace (a - (b + 1))%Z with (a - b - 1)%Z by lia.
    apply Qle_lt_trans with (pow2 (a - b - 1) * inject_Z (Zpos (Qden x))).
    - apply Qmult_le_compat_r; [exact Hc|]. lra.
    - rewrite !(Qmult_comm (pow2 (a - b - 1))). apply Qmult_lt_compat_r; lra. }
  destruct (Qle_bool (pow2 (a - b)) x) eqn:E.
  - apply Qle_bool_iff in E. split; assumption.
  - replace (a - b - 1 + 1)%Z with (a - b)%Z by lia. split; [lra|].
    apply Qnot_le_lt. intros Hc. apply Qle_bool_iff in Hc. congruence.
Qed.

Lemma ilog2_unique x e : pow2 e <= x < pow2 (e + 1) -> ilog2 x = e.
Proof.
  intros [H1 H2].
  assert (Hx : 0 < x) by (pose proof (pow2_pos e); lra).
  destruct (ilog2_spec x Hx) as [H3 H4].
  destruct (Z.lt_trichotomy (ilog2 x) e) as [Hlt|[Heq|Hgt]]; [|exact Heq|].
  - pose proof (pow2_le (ilog2 x + 1) e ltac:(lia)). lra.
  - pose proof (pow2_le (e + 1) (ilog2 x) ltac:(lia)). lra.
Qed.

Lemma ilog2_mono x y : 0 < x -> x <= y -> (ilog2 x <= ilog2 y)%Z.
Proof.
  intros Hx Hxy.
  destruct (ilog2_spec x Hx) as [H1 H2].
  destruct (ilog2_spec y ltac:(lra)) as [H3 H4].
  destruct (Z_le_gt_dec (ilog2 x) (ilog2 y)) as [H|H]; [exact H|].
  pose proof (pow2_le (ilog2 y + 1) (ilog2 x) ltac:(lia)). lra.
Qed.

(** Rounding to the nearest integer. *)
Lemma rne_bounds q : (Qfloor q <= rne q <= Qfloor q + 1)%Z.
Proof.
  unfold rne. destruct (q - inject_Z (Qfloor q) ?= 1 # 2); [|lia|lia].
  destruct (Z.even (Qfloor q)); lia.
Qed.

Lemma rne_Z k : rne (inject_Z k) = k.
Proof.
  unfold rne. rewrite Qfloor_Z.
  assert (H : inject_Z k - inject_Z k < 1 # 2) by lra.
  rewrite Qlt_alt in H. now rewrite H.
Qed.

Lemma rne_mono p q : p <= q -> (rne p <= rne q)%Z.
Proof.
  intros Hpq. pose proof (Qfloor_resp_le p q Hpq) as Hf.
  pose proof (rne_bounds p) as Bp. pose proof (rne_bounds q) as Bq.
  destruct (Z.eq_dec (Qfloor p) (Qfloor q)) as [E|NE]; [|lia].
  unfold rne in *. rewrite <- E in *. clear Bp Bq Hf.
  destruct (p - inject_Z (Qfloor p) ?= 1 # 2) eqn:Cp;
    destruct (q - inject_Z (Qfloor p) ?= 1 # 2) eqn:Cq;
    try (destruct (Z.even (Qfloor p))); try lia; exfalso;
    repeat match goal with
           | H : (_ ?= _) = Eq |- _ => apply Qeq_alt in H
           | H : (_ ?= _) = Lt |- _ => apply Qlt_alt in H
           | H : (_ ?= _) = Gt |- _ => apply Qgt_alt in H
           end; lra.
Qed.

Lemma rne_le q k : q <= inject_Z k -> (rne q <= k)%Z.
Proof. intros H. rewrite <- (rne_Z k). now apply rne_mono. Qed.

Lemma rne_ge q k : inject_Z k <= q -> (k <= rne q)%Z.
Proof. intros H. rewrite <- (rne_Z k). now apply rne_mono. Qed.

Lemma round64_grid x : round64 x == grid (cexp x) x.
Proof. unfold round64. apply Qred_correct. Qed.

Lemma scale_le e x k : x <= inject_Z k * pow2 e -> x / pow2 e <= inject_Z k.
Proof.
  intros H. pose proof (pow2_pos e) as P.
  apply Qle_shift_div_r; assumption.
Qed.

Lemma scale_ge e x k : inject_Z k * pow2 e <= x -> inject_Z k <= x / pow2 e.
Proof.
  intros H. pose proof (pow2_pos e) as P.
  apply Qle_shift_div_l; assumption.
Qed.

Lemma grid_le e x k : x <= inject_Z k * pow2 e -> grid e x <= inject_Z k * pow2 e.
Proof.
  intros H. unfold grid. pose proof (pow2_pos e) as P.
  apply Qmult_le_compat_r; [|lra].
  rewrite <- Zle_Qle. apply rne_le. now apply scale_le.
Qed.

Lemma grid_ge e x k : inject_Z k * pow2 e <= x -> inject_Z k * pow2 e <= grid e x.
Proof.
  intros H. unfold grid. pose proof (pow2_pos e) as P.
  apply Qmult_le_compat_r; [|lra].
  rewrite <- Zle_Qle. apply rne_ge. now apply scale_ge.
Qed.

Lemma grid_mono e x y : x <= y -> grid e x <= grid e y.
Proof.
  intros H. unfold grid. pose proof (pow2_pos e) as P.
  apply Qmult_le_compat_r; [|lra].
  rewrite <- Zle_Qle. apply rne_mono.
  apply Qmult_le_compat_r; [exact H|].
  apply Qlt_le_weak, Qinv_lt_0_compat, P.
Qed.

(** A power of 2 at or above the exponent of the grid is on the grid. *)
Lemma pow2_on_grid L e : (e <= L)%Z -> pow2 L == inject_Z (2 ^ (L - e)) * pow2 e.
Proof. intros H. rewrite <- pow2_Z by lia. apply pow2_split. Qed.

Lemma cexp_cases x :
  let L := ilog2 (Qabs x) in
  (cexp x = -1074 /\ L - 52 <= -1074)%Z \/ (cexp x = L - 52 /\ -1074 <= L - 52)%Z.
Proof. unfold cexp. cbv zeta. lia. Qed.

(** What lies at or below a point of the grid rounds to that point at
    most, and likewise above. *)
Lemma round64_mono_pos x y : 0 < x -> x <= y -> round64 x <= round64 y.
Proof.
  intros Hx Hxy. rewrite !round64_grid.
  assert (Ax : Qabs x == x) by (apply Qabs_pos; lra).
  assert (Ay : Qabs y == y) by (apply Qabs_pos; lra).
  destruct (ilog2_spec (Qabs x) ltac:(lra)) as [X1 X2].
  destruct (ilog2_spec (Qabs y) ltac:(lra)) as [Y1 Y2].
  pose proof (ilog2_mono (Qabs x) (Qabs y) ltac:(lra) ltac:(lra)) as HL.
  destruct (cexp_cases x) as [[Ex Bx]|[Ex Bx]];
    destruct (cexp_cases y) as [[Ey By]|[Ey By]]; cbv zeta in *.
  - rewrite Ex, Ey. now apply grid_mono.
  - destruct (Z.eq_dec (cexp x) (cexp y)) as [E|NE];
      [rewrite E; now apply grid_mono|].
    apply Qle_trans with (pow2 (ilog2 (Qabs y))).
    + rewrite (pow2_on_grid (ilog2 (Qabs y)) (cexp x)) by lia.
      apply grid_le. rewrite <- pow2_on_grid by lia.
      pose proof (pow2_le (ilog2 (Qabs x) + 1) (ilog2 (Qabs y)) ltac:(lia)). lra.
    + rewrite (pow2_on_grid (ilog2 (Qabs y)) (cexp y)) by lia.
      apply grid_ge. rewrite <- pow2_on_grid by lia. lra.
  - assert (E : cexp x = cexp y) by lia. rewrite E. now apply grid_mono.
  - destruct (Z.eq_dec (cexp x) (cexp y)) as [E|NE];
      [rewrite E; now apply grid_mono|].
    apply Qle_trans with (pow2 (ilog2 (Qabs y))).
    + rewrite (pow2_on_grid (ilog2 (Qabs y)) (cexp x)) by lia.
      apply grid_le. rewrite <- pow2_on_grid by lia.
      pose proof (pow2_le (ilog2 (Qabs x) + 1) (ilog2 (Qabs y)) ltac:(lia)). lra.
    + rewrite (pow2_on_grid (ilog2 (Qabs y)) (cexp y)) by lia.
      apply grid_ge. rewrite <- pow2_on_grid by lia. lra.
Qed.

Lemma neg_pow2_on_grid L e :
  (e <= L)%Z -> - pow2 L == inject_Z (- 2 ^ (L - e)) * pow2 e.
Proof.
  intros H. rewrite inject_Z_opp, <- pow2_Z by lia.
  rewrite (pow2_split L e). ring.
Qed.

Lemma round64_mono_neg x y : y < 0 -> x <= y -> round64 x <= round64 y.
Proof.
  intros Hy Hxy. rewrite !round64_grid.
  assert (Ax : Qabs x == - x) by (apply Qabs_neg; lra).
  assert (Ay : Qabs y == - y) by (apply Qabs_neg; lra).
  destruct (ilog2_spec (Qabs x) ltac:(lra)) as [X1 X2].
  destruct (ilog2_spec (Qabs y) ltac:(lra)) as [Y1 Y2].
  pose proof (ilog2_mono (Qabs y) (Qabs x) ltac:(lra) ltac:(lra)) as HL.
  destruct (Z.eq_dec (cexp x) (cexp y)) as [E|NE];
    [rewrite E; now apply grid_mono|].
  destruct (cexp_cases x) as [[Ex Bx]|[Ex Bx]];
    destruct (cexp_cases y) as [[Ey By]|[Ey By]]; cbv zeta in *; try lia.
  apply Qle_trans with (- pow2 (ilog2 (Qabs x))).
  - rewrite (neg_pow2_on_grid (ilog2 (Qabs x)) (cexp x)) by lia.
    apply grid_le. rewrite <- neg_pow2_on_grid by lia. lra.
  - rewrite (neg_pow2_on_grid (ilog2 (Qabs x)) (cexp y)) by lia.
    apply grid_ge. rewrite <- neg_pow2_on_grid by lia.
    pose proof (pow2_le (ilog2 (Qabs y) + 1) (ilog2 (Qabs x)) ltac:(lia)). lra.
  - apply Qle_trans with (- pow2 (ilog2 (Qabs x))).
    + rewrite (neg_pow2_on_grid (ilog2 (Qabs x)) (cexp x)) by lia.
      apply grid_le. rewrite <- neg_pow2_on_grid by lia. lra.
    + rewrite (neg_pow2_on_grid (ilog2 (Qabs x)) (cexp y)) by lia.
      apply grid_ge. rewrite <- neg_pow2_on_grid by lia.
      pose proof (pow2_le (ilog2 (Qabs y) + 1) (ilog2 (Qabs x)) ltac:(lia)). lra.
Qed.

Lemma round64_nonneg x : 0 <= x -> 0 <= round64 x.
Proof.
  intros H. rewrite round64_grid.
  assert (H0 : inject_Z 0 * pow2 (cexp x) <= grid (cexp x) x)
    by (apply grid_ge; change (inject_Z 0) with 0; lra).
  change (inject_Z 0) with 0 in H0. lra.
Qed.

Lemma round64_nonpos x : x <= 0 -> round64 x <= 0.
Proof.
  intros H. rewrite round64_grid.
  assert (H0 : grid (cexp x) x <= inject_Z 0 * pow2 (cexp x))
    by (apply grid_le; change (inject_Z 0) with 0; lra).
  change (inject_Z 0) with 0 in H0. lra.
Qed.

(** Rounding is monotone. *)
Lemma round64_mono x y : x <= y -> round64 x <= round64 y.
Proof.
  intros H.
  destruct (Qlt_le_dec 0 x) as [Hx|Hx]; [now apply round64_mono_pos|].
  destruct (Qlt_le_dec y 0) as [Hy|Hy]; [now apply round64_mono_neg|].
  apply Qle_trans with 0; [now apply round64_nonpos | now apply round64_nonneg].
Qed.

(** An integer below [2 ^ 53] in magnitude is a binary64 number. *)
Lemma cexp_small z : (Z.abs z < 2 ^ 53)%Z -> (cexp (inject_Z z) <= 0)%Z.
Proof.
  intros Hz. destruct (Z.eq_dec z 0%Z) as [->|Hnz]; [vm_compute; discriminate|].
  assert (Hpos : 0 < Qabs (inject_Z z)).
  { unfold Qabs, inject_Z, Qlt. simpl. lia. }
  destruct (ilog2_spec _ Hpos) as [H1 _].
  assert (Hlt : Qabs (inject_Z z) < pow2 53).
  { rewrite pow2_Z by lia. unfold Qabs, inject_Z, Qlt. simpl. lia. }
  assert (HL : (ilog2 (Qabs (inject_Z z)) < 53)%Z).
  { destruct (Z_lt_ge_dec (ilog2 (Qabs (inject_Z z))) 53%Z) as [H|H]; [exact H|].
    pose proof (pow2_le 53 (ilog2 (Qabs (inject_Z z))) ltac:(lia)). lra. }
  unfold cexp. lia.
Qed.

Lemma Z_on_grid z e : (e <= 0)%Z -> inject_Z z == inject_Z (z * 2 ^ (- e)) * pow2 e.
Proof.
  intros He. rewrite inject_Z_mult, <- pow2_Z by lia.
  rewrite <- Qmult_assoc, <- pow2_add.
  replace (- e + e)%Z with 0%Z by lia. unfold pow2. simpl. ring.
Qed.

Lemma round64_Z z : (Z.abs z < 2 ^ 53)%Z -> round64 (inject_Z z) = inject_Z z.
Proof.
  intros Hz. pose proof (cexp_small z Hz) as He.
  assert (H : round64 (inject_Z z) == inject_Z z).
  { rewrite round64_grid. apply Qle_antisym.
    - apply Qle_trans with (inject_Z (z * 2 ^ (- cexp (inject_Z z)))
                            * pow2 (cexp (inject_Z z))).
      + apply grid_le. rewrite <- Z_on_grid by exact He. apply Qle_refl.
      + rewrite <- Z_on_grid by exact He. apply Qle_refl.
    - apply Qle_trans with (inject_Z (z * 2 ^ (- cexp (inject_Z z)))
                            * pow2 (cexp (inject_Z z))).
      + rewrite <- Z_on_grid by exact He. apply Qle_refl.
      + apply grid_ge. rewrite <- Z_on_grid by exact He. apply Qle_refl. }
  unfold round64 in *. rewrite Qred_correct in H.
  rewrite (Qred_complete _ _ H). apply Qcanon.Qred_identity. simpl. apply Z.gcd_1_r.
Qed.

Lemma round64_le_Z x k : (Z.abs k < 2 ^ 53)%Z -> x <= inject_Z k -> round64 x <= inject_Z k.
Proof. intros Hk H. rewrite <- (round64_Z k Hk). now apply round64_mono. Qed.

Lemma round64_ge_Z x k : (Z.abs k < 2 ^ 53)%Z -> inject_Z k <= x -> inject_Z k <= round64 x.
Proof. intros Hk H. rewrite <- (round64_Z k Hk). now apply round64_mono. Qed.

End Binary64Facts.

(** ** The wait between retries *)

(** A draw is a multiple of [2 ^ -53] from 0 to [1 - 2 ^ -53]. *)
Lemma random_unit_range env n :
  (0 <= random_unit env n <= (2 ^ 53 - 1) # 2 ^ 53)%Q.
Proof.
  unfold random_unit. rewrite Qred_correct.
  pose proof (Z.mod_pos_bound (random_bits env n) (2 ^ 53) ltac:(lia)) as [H1 H2].
  unfold Qle. simpl Qnum. simpl Qden. lia.
Qed.

(** The jitter is at most [5 - 2 ^ -50], the binary64 number just below
    5: five times the largest draw rounds to it. *)
Lemma jitter_range env n :
  (0 <= jitter env n <= 5629499534213119 # 1125899906842624)%Q.
Proof.
  destruct (random_unit_range env n) as [H0 H1].
  unfold jitter, Binary64.add, Binary64.mul.
  set (u := random_unit env n) in *.
  assert (Hm0 : (0 <= Binary64.round64 (5 * u))%Q)
    by (apply Binary64Facts.round64_nonneg; lra).
  assert (Hm1 : (Binary64.round64 (5 * u)
                 <= Binary64.round64 (5 * ((2 ^ 53 - 1) # 2 ^ 53)))%Q)
    by (apply Binary64Facts.round64_mono; lra).
  assert (E1 : Binary64.round64 (5 * ((2 ^ 53 - 1) # 2 ^ 53))
               = (5629499534213119 # 1125899906842624)%Q)
    by (vm_compute; reflexivity).
  rewrite E1 in Hm1. split.
  - apply Binary64Facts.round64_nonneg. lra.
  - assert (E2 : Binary64.round64 (0 + (5629499534213119 # 1125899906842624))
                 = (5629499534213119 # 1125899906842624)%Q)
      by (vm_compute; reflexivity).
    rewrite <- E2. apply Binary64Facts.round64_mono. lra.
Qed.

Lemma jitter_below_5 env n : (0 <= jitter env n < 5)%Q.
Proof.
  destruct (jitter_range env n) as [H0 H1]. split; [exact H0|].
  eapply Qle_lt_trans; [exact H1 | reflexivity].
Qed.

(** An [int] below [2 ^ 53] in magnitude is converted as it is. *)
Lemma float_of_int_small z w :
  Z.abs z < 2 ^ 53 -> float_of_int z w = (Return (inject_Z z), w).
Proof.
  intros Hz. unfold float_of_int, Binary64.of_int.
  rewrite Binary64Facts.round64_Z by exact Hz.
  destruct (Qle_bool (Binary64.pow2 1024) (Qabs (inject_Z z))) eqn:E; [|reflexivity].
  exfalso. apply Qle_bool_iff in E.
  assert (Hlt : (Qabs (inject_Z z) < Binary64.pow2 53)%Q).
  { rewrite Binary64Facts.pow2_Z by lia. unfold Qabs, inject_Z, Qlt. simpl. lia. }
  pose proof (Binary64Facts.pow2_le 53 1024 ltac:(lia)). lra.
Qed.

(** [random.uniform(0, 5)] returns the jitter of the draw. *)
Lemma random_uniform_run env w :
  random_uniform env 0 5 w
  = (Return (jitter env (random_draws w)), set_random_draws (S (random_draws w)) w).
Proof.
  unfold random_uniform, random_random. unfold bind at 1.
  unfold bind at 1. rewrite float_of_int_small by (simpl; lia).
  unfold bind at 1. rewrite float_of_int_small by (simpl; lia).
  unfold jitter, ret.
  change (inject_Z (5 - 0)) with 5%Q. change (inject_Z 0) with 0%Q.
  reflexivity.
Qed.

(** The base of the wait, which the hint decides. *)
Lemma retry_base_run env e w :
  exists base l,
    match retry_after_hint e with
    | None => base = 60
    | Some s => match py_int env s with
                | Some h => base = h + 2
                | None => base = 200
                end
    end
    /\ _get_retry_time env e w
       = (let* jitter := random_uniform env 0 5 in
          let* b := float_of_int base in
          let wait_time := Binary64.add b jitter in
          logger INFO (MsgRetryingIn wait_time) ;;
          ret wait_time) (set_log l w).
Proof.
  unfold _get_retry_time.
  destruct (retry_after_hint e) as [s|]; [destruct (py_int env s) as [h|]|].
  - exists (h + 2). eexists. split; reflexivity.
  - exists 200. eexists. split; reflexivity.
  - exists 60, (log w). split; [reflexivity|]. destruct w; reflexivity.
Qed.

(** The value of [_get_retry_time] for a base that [float] holds
    exactly: the binary64 sum of the base and the jitter. *)
Lemma retry_time_run env e w :
  exists base l,
    match retry_after_hint e with
    | None => base = 60
    | Some s => match py_int env s with
                | Some h => base = h + 2
                | None => base = 200
                end
    end
    /\ (Z.abs base < 2 ^ 53 ->
        _get_retry_time env e w
        = (Return (Binary64.add (inject_Z base) (jitter env (random_draws w))),
           set_log l (set_random_draws (S (random_draws w)) w))).
Proof.
  destruct (retry_base_run env e w) as (base & l & Hbase & Hrun).
  exists base. eexists. split; [exact Hbase|]. intros Hb. rewrite Hrun.
  unfold bind at 1. rewrite random_uniform_run.
  unfold bind at 1. rewrite float_of_int_small by exact Hb.
  reflexivity.
Qed.

(** The sum of a base and a jitter lies between the base and the base
    plus 5, both ends included. *)
Lemma wait_bounds env n base :
  Z.abs base < 2 ^ 53 -> Z.abs (base + 5) < 2 ^ 53 ->
  (inject_Z base <= Binary64.add (inject_Z base) (jitter env n)
   <= inject_Z (base + 5))%Q.
Proof.
  intros H1 H2. destruct (jitter_below_5 env n) as [J0 J1].
  unfold Binary64.add. split.
  - apply Binary64Facts.round64_ge_Z; [exact H1 | lra].
  - apply Binary64Facts.round64_le_Z; [exact H2|].
    rewrite inject_Z_plus. change (inject_Z 5) with 5%Q. lra.
Qed.

(** C2, as the code has it.  [_get_retry_time] returns the binary64 sum
    of a base and a jitter.  The jitter is the value of
    [random.uniform(0, 5)], five times the draw, and lies in [0, 5).  The
    base is 60 when the error carries no retry-after hint, [h + 2] when
    the hint parses as the integer [h], and 200 when the hint does not
    parse.  The result lies between 60 and 65, between [h + 2] and
    [h + 7] (for a hint that [float] holds exactly, below [2 ^ 53] in
    magnitude), or between 200 and 205; in each case the upper end is
    included, because the sum is rounded. *)
Theorem retry_time_ranges env e w :
  (0 <= jitter env (random_draws w) < 5)%Q
  /\ match retry_after_hint e with
     | None =>
         retry_time_is env e w (Binary64.add 60 (jitter env (random_draws w)))
         /\ (60 <= Binary64.add 60 (jitter env (random_draws w)) <= 65)%Q
     | Some s =>
         match py_int env s with
         | Some h =>
             - 2 ^ 53 < h + 2 -> h + 7 < 2 ^ 53 ->
             retry_time_is env e w
               (Binary64.add (inject_Z (h + 2)) (jitter env (random_draws w)))
             /\ (inject_Z (h + 2)
                 <= Binary64.add (inject_Z (h + 2)) (jitter env (random_draws w))
                 <= inject_Z (h + 7))%Q
         | None =>
             retry_time_is env e w (Binary64.add 200 (jitter env (random_draws w)))
             /\ (200 <= Binary64.add 200 (jitter env (random_draws w)) <= 205)%Q
         end
     end.
Proof.
  split; [apply jitter_below_5|].
  destruct (retry_time_run env e w) as (base & l & Hbase & Hrun).
  unfold retry_time_is.
  destruct (retry_after_hint e) as [s|]; [destruct (py_int env s) as [h|]|];
    subst base.
  - intros Hlo Hhi. split.
    + exists l. apply Hrun. lia.
    + replace (h + 7) with (h + 2 + 5) by lia. apply wait_bounds; lia.
  - split.
    + exists l. apply Hrun. simpl. lia.
    + apply (wait_bounds env (random_draws w) 200); simpl; lia.
  - split.
    + exists l. apply Hrun. simpl. lia.
    + apply (wait_bounds env (random_draws w) 60); simpl; lia.
Qed.

Lemma retry_time_ranges_witness :
  retry_time_is Sample.env (Sample.rate_limit "30") Sample.world
    (Binary64.add (inject_Z (30 + 2)) (jitter Sample.env (random_draws Sample.world)))
  /\ (inject_Z (30 + 2)
      <= Binary64.add (inject_Z (30 + 2))
           (jitter Sample.env (random_draws Sample.world))
      <= inject_Z (30 + 7))%Q.
Proof.
  refine (proj2 (retry_time_ranges Sample.env (Sample.rate_limit "30") Sample.world)
            _ _); vm_compute; reflexivity.
Defined.

(** The three bases on concrete errors: no hint, the hint ["30"], the hint
    ["soon"]; the draw is [1/2], so the jitter is [5/2]. *)
Example retry_time_samples :
  (_get_retry_time Sample.env (plain_exn OSError "timeout") Sample.world).1
  = Return (125 # 2)%Q
  /\ (_get_retry_time Sample.env (Sample.rate_limit "30") Sample.world).1
     = Return (69 # 2)%Q
  /\ (_get_retry_time Sample.env (Sample.rate_limit "soon") Sample.world).1
     = Return (405 # 2)%Q.
Proof. vm_compute. repeat split. Qed.

(** C2, as the claim has it, fails at the upper ends.  With the largest
    draw, [1 - 2 ^ -53], the jitter is [5 - 2 ^ -50], below 5; but the sum
    with 60 has no binary64 number of its own and rounds to 65, so the
    wait is not below 65.  The same happens at 37 for the hint ["30"] and
    at 205 for a hint that does not parse. *)
Lemma retry_time_reaches_the_upper_end :
  jitter Cases.top_draw 0 = (5629499534213119 # 1125899906842624)%Q
  /\ (_get_retry_time Cases.top_draw (plain_exn OSError "timeout") Sample.world).1
     = Return 65%Q
  /\ (_get_retry_time Cases.top_draw (Sample.rate_limit "30") Sample.world).1
     = Return 37%Q
  /\ (_get_retry_time Cases.top_draw (Sample.rate_limit "soon") Sample.world).1
     = Return 205%Q
  /\ ~ (exists t,
          (_get_retry_time Cases.top_draw (plain_exn OSError "timeout")
             Sample.world).1 = Return t
          /\ (60 <= t < 65)%Q).
Proof.
  split; [vm_compute; reflexivity|].
  split; [vm_compute; reflexivity|].
  split; [vm_compute; reflexivity|].
  split; [vm_compute; reflexivity|].
  intros (t & Ht & _ & Hlt).
  assert (E : (_get_retry_time Cases.top_draw (plain_exn OSError "timeout")
                 Sample.world).1 = Return 65%Q) by (vm_compute; reflexivity).
  rewrite E in Ht. injection Ht as <-. discriminate Hlt.
Qed.

(** A hint beyond the range of [float] makes [_get_retry_time] raise
    [OverflowError]: the sum of the [int] and the jitter cannot be
    formed. *)
Example retry_time_overflow :
  Sample.int Cases.huge_hint = Some (10 ^ 309)
  /\ (_get_retry_time Sample.env (Sample.rate_limit Cases.huge_hint) Sample.world).1
     = Raise (plain_exn OverflowError "int too large to convert to float").
Proof. vm_compute. split; reflexivity. Qed.

(** ** Strings: what the two tests mean *)

Lemma append_cons a (s t : string) : String a s ++ t = String a (s ++ t).
Proof. reflexivity. Qed.

Lemma append_nil (t : string) : "" ++ t = t.
Proof. reflexivity. Qed.

Lemma startswith_spec p s :
  PyStr.startswith p s = true <-> exists post, s = p ++ post.
Proof.
  revert s. induction p as [|a p IH]; intros s; simpl.
  - split; [intros _; exists s; reflexivity | reflexivity].
  - destruct s as [|b s].
    + split; [discriminate | intros [post [=]]].
    + destruct (Ascii.eqb_spec a b) as [->|Hab].
      * rewrite IH. split; intros [post Hp]; exists post;
          rewrite append_cons in *; congruence.
      * split; [discriminate|].
        intros [post Hp]. rewrite append_cons in Hp. congruence.
Qed.

Lemma contains_spec sub s :
  PyStr.contains sub s = true <-> exists pre post, s = pre ++ sub ++ post.
Proof.
  induction s as [|c s IH]; simpl; rewrite orb_true_iff, startswith_spec.
  - split.
    + intros [[post Hp]|[=]]. exists "", post. exact Hp.
    + intros ([|? pre] & post & Hp); [left; exists post; exact Hp | discriminate].
  - rewrite IH. split.
    + intros [[post Hp]|(pre & post & Hp)].
      * exists "", post. exact Hp.
      * exists (String c pre), post. rewrite append_cons. congruence.
    + intros ([|c' pre] & post & Hp).
      * left. exists post. exact Hp.
      * right. rewrite append_cons in Hp. injection Hp as -> Hp.
        exists pre, post. exact Hp.
Qed.

(** ** The prompt template *)

(** A template with the marker is installed and the change is logged. *)
Lemma set_translation_prompt_accepts prompt w :
  (exists pre post, prompt = pre ++ "{text}" ++ post) ->
  exists w',
    set_translation_prompt prompt w = (Return tt, w')
    /\ translation_prompt (self w') = prompt.
Proof.
  intros H. apply contains_spec in H.
  unfold set_translation_prompt. rewrite H. simpl.
  eexists. split; reflexivity.
Qed.

(** C5.  Setting a template in which the marker [{text}] does not occur
    raises [ValueError] (the invalid-prompt error of the program), and the
    world after the failed call is the world before it: the template that
    was configured is still there, and so is everything else. *)
Theorem set_translation_prompt_rejects prompt w :
  ~ (exists pre post, prompt = pre ++ "{text}" ++ post) ->
  exists e,
    set_translation_prompt prompt w = (Raise e, w)
    /\ exn_cls e = ValueError
    /\ translation_prompt (self (set_translation_prompt prompt w).2)
       = translation_prompt (self w).
Proof.
  intros H. rewrite <- contains_spec in H.
  apply not_true_is_false in H.
  unfold set_translation_prompt. rewrite H. simpl.
  eexists. repeat split.
Qed.

Lemma set_translation_prompt_rejects_witness :
  exists e,
    set_translation_prompt "Traduce al español" Sample.world
    = (Raise e, Sample.world)
    /\ exn_cls e = ValueError
    /\ translation_prompt
         (self (set_translation_prompt "Traduce al español" Sample.world).2)
       = translation_prompt (self Sample.world).
Proof.
  apply (set_translation_prompt_rejects "Traduce al español" Sample.world).
  rewrite <- contains_spec. vm_compute. discriminate.
Defined.

(** ** Saving a text *)

(** Whatever makes the write fail, [save_text] turns the exception into
    one error record and returns; the world is the one the failed write
    left. *)
Lemma save_text_absorbs env text file_path w e w' :
  write_file env file_path text w = (Raise e, w') ->
  save_text env text file_path w
  = (Return tt, set_log ((ERROR, MsgSaveError file_path (exn_str e)) :: log w') w').
Proof.
  intros H. unfold save_text, try_except, bind, logger. rewrite H. reflexivity.
Qed.

(** C3.  The code at the failing inputs.  With a directory that cannot
    be written to, [open] raises [PermissionError]; with a full disk,
    [open] returns and the write raises [OSError], leaving the file
    empty.  In both cases [save_text] adds one error record and returns
    normally: no exception reaches the caller.  [process_video] then goes
    on, logs success and returns the result, with no file saved. *)
Theorem save_text_swallows_write_failure :
  write_file Sample.read_only "out/x_transcription.txt" "hello world" Sample.world
  = (Raise Sample.denied, Sample.world)
  /\ save_text Sample.read_only "hello world" "out/x_transcription.txt" Sample.world
     = (Return tt,
        set_log [(ERROR, MsgSaveError "out/x_transcription.txt" "Permission denied")]
          Sample.world)
  /\ (write_file Cases.disk_full "out/x_transcription.txt" "hello world"
        Sample.world).1
     = Raise Cases.no_space
  /\ save_text Cases.disk_full "hello world" "out/x_transcription.txt" Sample.world
     = (Return tt,
        set_log [(ERROR, MsgSaveError "out/x_transcription.txt"
                           "[Errno 28] No space left on device")]
          (set_fs (<["out/x_transcription.txt" := File ""]> (fs Sample.world))
             Sample.world))
  /\ (let r := process_video Sample.read_only "x.mp4" (Some "out") true true
                 Sample.world in
      r.1 = Return (Some {| transcription := "hello world";
                            translation := Some "hola mundo";
                            video_path := "x.mp4" |})
      /\ head (log r.2) = Some (INFO, MsgProcessed "x.mp4")
      /\ fs r.2 !! "out/x_transcription.txt" = None
      /\ fs r.2 !! "out/x_translation.txt" = None).
Proof. vm_compute. repeat split. Qed.

(** ** The filesystem: directories on the way to a path *)

Lemma append_assoc (x y z : string) : (x ++ y) ++ z = x ++ y ++ z.
Proof. induction x as [|a x IH]; [reflexivity|]. rewrite !append_cons. now rewrite IH. Qed.

Lemma append_empty_r (x : string) : x ++ "" = x.
Proof. induction x as [|a x IH]; [reflexivity|]. rewrite append_cons. now rewrite IH. Qed.

Lemma startswith_refl p : PyStr.startswith p p = true.
Proof. apply startswith_spec. exists "". now rewrite append_empty_r. Qed.

(** A path without its trailing separators is a prefix of the path. *)
Lemma rstrip_sep_prefix p : exists post, p = PyStr.rstrip_sep p ++ post.
Proof.
  induction p as [|c p [post IH]]; [exists ""; reflexivity|].
  simpl. destruct (PyStr.is_sep c && negb (PyStr.truthy (PyStr.rstrip_sep p))).
  - exists (String c p). reflexivity.
  - exists post. rewrite append_cons. now rewrite <- IH.
Qed.

Lemma boundaries_prefix p :
  forall acc fresh d,
    In d (PyStr.boundaries acc fresh p) -> exists post, acc ++ p = d ++ post.
Proof.
  induction p as [|c p IH]; intros acc fresh d; simpl; [tauto|].
  rewrite in_app_iff. intros [Hd|Hd].
  - destruct (PyStr.is_sep c && negb fresh); [|destruct Hd].
    destruct Hd as [<-|[]]. exists (String c p). reflexivity.
  - apply IH in Hd as [post Hp]. exists post. rewrite <- Hp.
    rewrite append_assoc. reflexivity.
Qed.

(** The directories above a path are prefixes of the path. *)
Lemma ancestors_prefix p d :
  In d (PyStr.ancestors p) -> PyStr.startswith d p = true.
Proof.
  intros Hd. apply boundaries_prefix in Hd as [post Hp]. rewrite append_nil in Hp.
  destruct (rstrip_sep_prefix p) as [post' Hp'].
  apply startswith_spec. exists (post ++ post').
  rewrite Hp', Hp. apply append_assoc.
Qed.

Lemma set_fs_same w : set_fs (fs w) w = w.
Proof. destruct w; reflexivity. Qed.

(** [os.mkdir] does nothing, or it creates the directory under a name
    that was free. *)
Lemma os_mkdir_world env d w r w' :
  os_mkdir env d w = (r, w') ->
  w' = w
  \/ (r = Return tt /\ fs w !! d = None /\ w' = set_fs (<[d := Dir]> (fs w)) w).
Proof.
  unfold os_mkdir. destruct (fs w !! d) eqn:E; [intros [= <- <-]; auto|].
  destruct (mkdir_fault env d); intros [= <- <-]; auto.
Qed.

Lemma make_missing_world env target dirs :
  forall w r w',
    make_missing env dirs target w = (r, w') ->
    exists f,
      w' = set_fs f w
      /\ forall q,
           f !! q = fs w !! q
           \/ (fs w !! q = None /\ f !! q = Some Dir /\ (In q dirs \/ q = target)).
Proof.
  induction dirs as [|d rest IH]; intros w r w' H.
  - simpl in H. apply os_mkdir_world in H as [->|(_ & Hfree & ->)].
    + exists (fs w). split; [symmetry; apply set_fs_same | auto].
    + eexists. split; [reflexivity|]. intros q.
      destruct (decide (q = target)) as [->|Hne].
      * right. rewrite lookup_insert_eq. auto.
      * left. now rewrite lookup_insert_ne.
  - simpl in H. unfold bind in H.
    assert (Hstep : forall r1 w1,
               os_mkdir env d w = (r1, w1) ->
               match r1 with
               | Return _ => make_missing env rest target w1
               | Raise e => (Raise e, w1)
               end = (r, w') ->
               exists f,
                 w' = set_fs f w
                 /\ forall q,
                      f !! q = fs w !! q
                      \/ (fs w !! q = None /\ f !! q = Some Dir
                          /\ (In q (d :: rest) \/ q = target))).
    { intros r1 w1 H1 H2.
      apply os_mkdir_world in H1 as [->|(-> & Hfree & ->)].
      - destruct r1 as [[]|e].
        + apply IH in H2 as (f & -> & Hf). exists f. split; [reflexivity|].
          intros q. destruct (Hf q) as [?|(? & ? & [?|?])]; simpl; auto 10.
        + injection H2 as <- <-. exists (fs w).
          split; [symmetry; apply set_fs_same | auto].
      - apply IH in H2 as (f & -> & Hf). exists f. split; [reflexivity|].
        intros q. specialize (Hf q). simpl in Hf.
        destruct (decide (q = d)) as [->|Hne].
        + right. rewrite lookup_insert_eq in Hf.
          destruct Hf as [Hf|(Hf & _)]; [|discriminate]. simpl. auto.
        + rewrite lookup_insert_ne in Hf by congruence.
          destruct Hf as [?|(? & ? & [?|?])]; simpl; auto 10. }
    destruct (fs w !! d) as [[c|]|] eqn:E.
    + injection H as <- <-. exists (fs w).
      split; [symmetry; apply set_fs_same | auto].
    + apply IH in H as (f & -> & Hf). exists f. split; [reflexivity|].
      intros q. destruct (Hf q) as [?|(? & ? & [?|?])]; simpl; auto 10.
    + destruct (os_mkdir env d w) as [r1 w1] eqn:E1. eapply Hstep; eauto.
Qed.

(** What [os.makedirs] does to the world: it touches the filesystem
    only, leaves what is there as it is, and what it adds are directories
    on the way to the path. *)
Lemma os_makedirs_world env p w r w' :
  os_makedirs env p w = (r, w') ->
  exists f, w' = set_fs f w /\ new_dirs_along p (fs w) f.
Proof.
  unfold os_makedirs. destruct (fs w !! p) as [[c|]|] eqn:E.
  - intros [= <- <-]. exists (fs w). split; [symmetry; apply set_fs_same|].
    intros q. auto.
  - intros [= <- <-]. exists (fs w). split; [symmetry; apply set_fs_same|].
    intros q. auto.
  - intros H. apply make_missing_world in H as (f & -> & Hf).
    exists f. split; [reflexivity|]. intros q.
    destruct (Hf q) as [?|(? & ? & [Hin| ->])]; auto.
    + right. split; [assumption|]. split; [assumption|].
      now apply ancestors_prefix.
    + right. split; [assumption|]. split; [assumption|]. apply startswith_refl.
Qed.

Lemma new_dirs_along_refl p f : new_dirs_along p f f.
Proof. intros q. auto. Qed.

(** A nested results directory: the directory above it is created too. *)
Example os_makedirs_nested :
  map_to_list (fs (os_makedirs Sample.env "out/sub" Sample.world).2)
  = [("out/sub", Dir); ("out", Dir); ("x.mp4", File "video")].
Proof. vm_compute. reflexivity. Qed.

(** ** The pipeline *)

(** C6.  For a path that does not exist, [process_video] raises
    [FileNotFoundError] after one error record and nothing else: the
    filesystem is untouched (no results directory, no output file, no
    temporary audio file), no temporary name has been asked for and no
    request has been sent. *)
Theorem process_video_missing_file env video_path results_path save return_results w :
  fs w !! video_path = None ->
  exists e w',
    process_video env video_path results_path save return_results w = (Raise e, w')
    /\ exn_cls e = FileNotFoundError
    /\ w' = set_log ((ERROR, MsgNotFound video_path) :: log w) w
    /\ fs w' = fs w
    /\ temp_files w' = temp_files w
    /\ whisper_calls w' = whisper_calls w
    /\ translator_calls w' = translator_calls w.
Proof.
  intros H. unfold process_video, bind, os_path_exists. rewrite H. simpl.
  eexists; eexists. repeat split.
Qed.

Lemma process_video_missing_file_witness :
  exists e w',
    process_video Sample.env "y.mp4" (Some "out") true true Sample.world
    = (Raise e, w')
    /\ exn_cls e = FileNotFoundError
    /\ w' = set_log ((ERROR, MsgNotFound "y.mp4") :: log Sample.world) Sample.world
    /\ fs w' = fs Sample.world
    /\ temp_files w' = temp_files Sample.world
    /\ whisper_calls w' = whisper_calls Sample.world
    /\ translator_calls w' = translator_calls Sample.world.
Proof.
  apply (process_video_missing_file Sample.env "y.mp4" (Some "out") true true
           Sample.world).
  reflexivity.
Defined.

(** Once the extraction has returned, what is left of [process_video] is
    the inner [try ... finally] under the outer handler. *)
Lemma process_video_from_transcription env video_path results_path save
    return_results w audio_path w1 :
  reaches_transcription env video_path results_path save w audio_path w1 ->
  process_video env video_path results_path save return_results w
  = try_except
      (try_finally
         (process_audio env video_path results_path save return_results audio_path)
         (remove_audio audio_path))
      (process_video_handler video_path) w1.
Proof.
  intros (w0 & He & Hx).
  unfold process_video, process_video_entry, process_video_handler in *.
  unfold bind, try_except, os_path_exists, ret, logger in *.
  destruct (bool_decide _); simpl in *; [|discriminate].
  destruct (save && truthy_path results_path).
  - destruct (os_makedirs env _ w) as [[[]|e] w']; [|discriminate].
    injection He as <-. unfold logger in Hx. rewrite Hx. reflexivity.
  - injection He as <-. rewrite Hx. reflexivity.
Qed.

(** What a successful extraction leaves: a file under the temporary name,
    which ends in [.wav]; the object and the request counts are as before. *)
Lemma extract_audio_returns env video_path w0 audio_path w1 :
  extract_audio env video_path w0 = (Return audio_path, w1) ->
  audio_path = temp_name env (temp_files w0) ++ ".wav"
  /\ (exists data, fs w1 !! audio_path = Some (File data))
  /\ self w1 = self w0
  /\ whisper_calls w1 = whisper_calls w0
  /\ translator_calls w1 = translator_calls w0.
Proof.
  unfold extract_audio, named_temporary_file.
  unfold try_except, bind, ret, raise, logger, answer. simpl.
  destruct (open_video env video_path); simpl; [discriminate|].
  destruct (fs w0 !! _); simpl; [discriminate|].
  destruct (write_audiofile env video_path) as [e|data]; simpl; [discriminate|].
  intros [= <- <-]. simpl. split; [reflexivity|]. split; [|auto].
  exists data. apply lookup_insert_eq.
Qed.

(** [save_text] never raises.  Either the file could not be opened and
    only the log has grown, or the path now holds a file: with the text
    when the write did not fail, with a part of it otherwise. *)
Lemma wp_save_text env text file_path (Q : outcome unit -> World -> Prop) w :
  (forall l, Q (Return tt) (set_log l w)) ->
  (forall l c,
     (write_fault env file_path = None -> c = text) ->
     fs w !! file_path <> Some Dir ->
     Q (Return tt) (set_log l (set_fs (<[file_path := File c]> (fs w)) w))) ->
  wp (save_text env text file_path) Q w.
Proof.
  intros Hfail Hok.
  unfold wp, save_text, try_except, bind, logger, write_file.
  destruct (write_fault env file_path) as [[e|e n]|] eqn:Hw; simpl;
    [apply Hfail | |];
    destruct (fs w !! file_path) as [[c|]|] eqn:Hf; simpl;
    solve [apply Hfail | apply Hok; congruence].
Qed.

Lemma wp_transcribe_audio env audio_path intento
    (Q : outcome string -> World -> Prop) w :
  (forall r w', transcribe_frame (Z.to_nat (11 - intento)) w w' -> Q r w') ->
  wp (transcribe_audio env audio_path intento) Q w.
Proof.
  intros H. pose proof (transcribe_audio_frame env audio_path intento w) as F.
  unfold wp in *. apply H, F.
Qed.

Lemma wp_translate_text env text intento
    (Q : outcome string -> World -> Prop) w :
  (forall r w', translate_frame (Z.to_nat (11 - intento)) w w' -> Q r w') ->
  wp (translate_text env text intento) Q w.
Proof.
  intros H. pose proof (translate_text_frame env text intento w) as F.
  unfold wp in *. apply H, F.
Qed.

(** The inner block never turns a file into something else: whatever it
    writes, it writes files, and it deletes nothing. *)
Lemma process_audio_keeps_file env video_path results_path save return_results
    audio_path p w :
  (exists c, fs w !! p = Some (File c)) ->
  wp (process_audio env video_path results_path save return_results audio_path)
     (fun _ w' => exists c, fs w' !! p = Some (File c)) w.
Proof.
  intros Hp. unfold process_audio.
  wp_step. apply wp_transcribe_audio. intros [t|e] w1 (_ & Hf1 & _); [|now rewrite Hf1].
  destruct (PyStr.contains "FALLO TRANSCRIBIENDO" t).
  { destruct return_results; repeat wp_step; simpl; now rewrite Hf1. }
  wp_step. apply wp_translate_text. intros [t'|e] w2 (_ & Hf2 & _);
    [|now rewrite Hf2, Hf1].
  assert (Hp2 : exists c, fs w2 !! p = Some (File c)) by now rewrite Hf2, Hf1.
  clear Hp Hf1 Hf2.
  assert (Hins : forall q text (f : gmap string node),
             (exists c, f !! p = Some (File c)) ->
             exists c, <[q := File text]> f !! p = Some (File c)).
  { intros q text f [c Hc]. destruct (decide (q = p)) as [->|Hne].
    - exists text. apply lookup_insert_eq.
    - exists c. now rewrite lookup_insert_ne. }
  wp_step. destruct (save && truthy_path results_path).
  - wp_step. apply wp_save_text; intros;
      (apply wp_save_text; intros;
       destruct return_results; repeat wp_step; simpl; auto).
  - destruct return_results; repeat wp_step; simpl; auto.
Qed.

(** The [finally] block on a world where the audio path is a file. *)
Lemma wp_remove_audio audio_path (Q : outcome unit -> World -> Prop) w :
  (exists c, fs w !! audio_path = Some (File c)) ->
  Q (Return tt) (set_fs (delete audio_path (fs w)) w) ->
  wp (remove_audio audio_path) Q w.
Proof.
  intros [c Hc] HQ. unfold wp, remove_audio, bind, os_path_exists, os_unlink.
  rewrite Hc. simpl. rewrite Hc. exact HQ.
Qed.

(** The run of [process_video], once the transcription is reached, in terms
    of the run of its inner block: the temporary file, which is still
    there when the inner block ends, is deleted, and an exception passes
    through the outer handler. *)
Lemma process_video_run env video_path results_path save return_results
    w audio_path w1 r w3 :
  reaches_transcription env video_path results_path save w audio_path w1 ->
  process_audio env video_path results_path save return_results audio_path w1
  = (r, w3) ->
  (exists c, fs w3 !! audio_path = Some (File c))
  /\ process_video env video_path results_path save return_results w
     = let w4 := set_fs (delete audio_path (fs w3)) w3 in
       match r with
       | Return res => (Return res, w4)
       | Raise e =>
           (Raise e,
            set_log ((ERROR, MsgProcessError video_path (exn_str e)) :: log w4) w4)
       end.
Proof.
  intros Hreach Hrun.
  rewrite (process_video_from_transcription _ _ _ _ _ _ _ _ Hreach).
  destruct Hreach as (w0 & _ & Hx).
  apply extract_audio_returns in Hx as (_ & Hfile & _).
  pose proof (process_audio_keeps_file env video_path results_path save
                return_results audio_path audio_path w1 Hfile) as Hkeep.
  unfold wp in Hkeep. rewrite Hrun in Hkeep. simpl in Hkeep.
  split; [exact Hkeep|]. destruct Hkeep as [c Hc].
  unfold try_except, try_finally, remove_audio, bind, os_path_exists, os_unlink.
  rewrite Hrun. rewrite Hc. simpl. rewrite Hc.
  destruct r; reflexivity.
Qed.

(** The temporary name was free before [extract_audio] took it. *)
Lemma extract_audio_fresh env vpath w0 audio_path w1 :
  extract_audio env vpath w0 = (Return audio_path, w1) ->
  fs w0 !! audio_path = None /\ temp_files w1 = S (temp_files w0).
Proof.
  unfold extract_audio, named_temporary_file.
  unfold try_except, bind, ret, raise, logger, answer. simpl.
  destruct (open_video env vpath); simpl; [discriminate|].
  destruct (fs w0 !! _) eqn:Hfree; simpl; [discriminate|].
  destruct (write_audiofile env vpath) as [e|data]; simpl; [discriminate|].
  intros [= <- <-]. simpl. auto.
Qed.

(** C7.  When the run of [process_video] has reached the transcription,
    that is, [extract_audio] has returned the temporary file [audio_path]
    in the world [w1], then: the file was created in this run (the name
    was free when [extract_audio] started in [w0], and it holds the audio
    in [w1]); it is still there in the world [w3] in which the inner block
    ends, however that block ends (a normal return, the early exit on a
    failed transcription, an exception out of the translation, a write
    that failed); the world that [process_video] leaves is [w3] with this
    file deleted, and with the error record of the outer handler when the
    inner block raised; so the file does not exist after the call. *)
Theorem process_video_removes_audio env video_path results_path save
    return_results w audio_path w1 :
  reaches_transcription env video_path results_path save w audio_path w1 ->
  let inner := process_audio env video_path results_path save return_results
                 audio_path w1 in
  let r := process_video env video_path results_path save return_results w in
  (exists w0,
     process_video_entry env video_path results_path save w = (Return tt, w0)
     /\ extract_audio env video_path w0 = (Return audio_path, w1)
     /\ fs w0 !! audio_path = None)
  /\ (exists data, fs w1 !! audio_path = Some (File data))
  /\ (exists c, fs inner.2 !! audio_path = Some (File c))
  /\ fs r.2 = delete audio_path (fs inner.2)
  /\ r.1 = inner.1
  /\ log r.2 = match inner.1 with
               | Return _ => log inner.2
               | Raise e =>
                   (ERROR, MsgProcessError video_path (exn_str e)) :: log inner.2
               end
  /\ fs r.2 !! audio_path = None.
Proof.
  intros Hreach. cbv zeta.
  destruct (process_audio env video_path results_path save return_results
              audio_path w1) as [r3 w3] eqn:Hrun.
  destruct (process_video_run _ _ _ _ _ _ _ _ _ _ Hreach Hrun) as [Hstill ->].
  destruct Hreach as (w0 & He & Hx).
  pose proof (extract_audio_returns _ _ _ _ _ Hx) as (_ & Hfile & _).
  pose proof (extract_audio_fresh _ _ _ _ _ Hx) as (Hfree & _).
  split; [exists w0; auto|]. split; [exact Hfile|]. split; [exact Hstill|].
  cbv zeta. destruct r3 as [res|e]; simpl;
    repeat split; try reflexivity; apply lookup_delete_eq.
Qed.

Lemma process_video_removes_audio_witness :
  let inner := process_audio Sample.translator_past "x.mp4" (Some "out") true true
                 "/tmp/tmp0.wav"
                 (extract_audio Sample.translator_past "x.mp4"
                    (process_video_entry Sample.translator_past "x.mp4"
                       (Some "out") true Sample.world).2).2 in
  let r := process_video Sample.translator_past "x.mp4" (Some "out") true true
             Sample.world in
  (exists c, fs inner.2 !! "/tmp/tmp0.wav" = Some (File c))
  /\ fs r.2 = delete "/tmp/tmp0.wav" (fs inner.2)
  /\ fs r.2 !! "/tmp/tmp0.wav" = None.
Proof.
  destruct (process_video_removes_audio Sample.translator_past "x.mp4" (Some "out")
              true true Sample.world "/tmp/tmp0.wav"
              (extract_audio Sample.translator_past "x.mp4"
                 (process_video_entry Sample.translator_past "x.mp4" (Some "out")
                    true Sample.world).2).2)
    as (_ & _ & H3 & H4 & _ & _ & H7).
  - eexists. split; vm_compute; reflexivity.
  - cbv zeta. split; [exact H3|]. split; [exact H4 | exact H7].
Defined.

(** In that run the translation raises ([time.sleep] refuses a negative
    wait), [process_video] raises with it, the transcription was not saved,
    and the temporary file is gone all the same. *)
Example process_video_translation_raises :
  let r := process_video Sample.translator_past "x.mp4" (Some "out") true true
             Sample.world in
  r.1 = Raise (plain_exn ValueError "sleep length must be non-negative")
  /\ map_to_list (fs r.2) = [("out", Dir); ("x.mp4", File "video")].
Proof. vm_compute. split; reflexivity. Qed.

(** What the entry and the extraction leave alone. *)
Lemma reaches_transcription_frame env video_path results_path save w audio_path w1 :
  reaches_transcription env video_path results_path save w audio_path w1 ->
  audio_path = temp_name env (temp_files w) ++ ".wav"
  /\ self w1 = self w
  /\ whisper_calls w1 = whisper_calls w
  /\ translator_calls w1 = translator_calls w.
Proof.
  intros (w0 & He & Hx).
  apply extract_audio_returns in Hx as (-> & _ & -> & -> & ->).
  unfold process_video_entry, bind, os_path_exists, ret, logger, raise in He.
  destruct (bool_decide _); simpl in He; [|discriminate].
  destruct (save && truthy_path results_path).
  - destruct (os_makedirs env _ w) as [[[]|e] w'] eqn:Hmk; [|discriminate].
    apply os_makedirs_world in Hmk as (f & -> & _).
    injection He as <-. auto.
  - injection He as <-. auto.
Qed.

(** [save_text] always returns. *)
Lemma save_text_returns env text file_path w :
  (save_text env text file_path w).1 = Return tt.
Proof. apply (wp_save_text env text file_path (fun r _ => r = Return tt)); auto. Qed.

(** The outcome of the inner block, given what the transcription returned:
    the early exit when the text contains the marker, otherwise the outcome
    of the translation. *)
Lemma process_audio_outcome env video_path results_path save return_results
    audio_path w1 t w2 :
  transcribe_audio env audio_path 0 w1 = (Return t, w2) ->
  (process_audio env video_path results_path save return_results audio_path w1).1
  = if PyStr.contains "FALLO TRANSCRIBIENDO" t then
      Return (if return_results
              then Some {| transcription := t; translation := None;
                           video_path := video_path |}
              else None)
    else
      match (translate_text env t 0 w2).1 with
      | Return t' =>
          Return (if return_results
                  then Some {| transcription := t; translation := Some t';
                               video_path := video_path |}
                  else None)
      | Raise e => Raise e
      end.
Proof.
  intros Ht. unfold process_audio. unfold bind at 1. rewrite Ht.
  destruct (PyStr.contains "FALLO TRANSCRIBIENDO" t).
  { destruct return_results; reflexivity. }
  unfold bind at 1. destruct (translate_text env t 0 w2) as [[t'|e] w3]; [|reflexivity].
  cbv zeta. unfold bind at 1.
  destruct (save && truthy_path results_path).
  - unfold bind at 1.
    pose proof (save_text_returns env t (transcription_file env video_path results_path) w3) as H1.
    unfold transcription_file in H1.
    destruct (save_text env t _ w3) as [r1 w4]. simpl in H1. subst r1.
    pose proof (save_text_returns env t' (translation_file env video_path results_path) w4) as H2.
    unfold translation_file in H2.
    destruct (save_text env t' _ w4) as [r2 w5]. simpl in H2. subst r2.
    destruct return_results; reflexivity.
  - destruct return_results; reflexivity.
Qed.

(** The outcome of [process_video] is the outcome of its inner block. *)
Lemma process_video_outcome env video_path results_path save return_results
    w audio_path w1 :
  reaches_transcription env video_path results_path save w audio_path w1 ->
  (process_video env video_path results_path save return_results w).1
  = (process_audio env video_path results_path save return_results audio_path w1).1.
Proof.
  intros Hreach.
  destruct (process_audio env video_path results_path save return_results
              audio_path w1) as [r w3] eqn:Hrun.
  rewrite (proj2 (process_video_run _ _ _ _ _ _ _ _ _ _ Hreach Hrun)).
  destruct r; reflexivity.
Qed.

(** ** The early exit on a failed transcription *)

(** C4, as the code has it.  When the transcription step returns the
    failure string, [process_video] sends no request to the translation
    service and returns normally; what it returns is the dictionary with
    the failure string as transcription and [None] as translation when
    [return_results] is set, and [None] otherwise. *)
Theorem process_video_short_circuit env video_path results_path save
    return_results w audio_path w1 w2 :
  reaches_transcription env video_path results_path save w audio_path w1 ->
  transcribe_audio env audio_path 0 w1 = (Return FALLO_TRANSCRIBIENDO, w2) ->
  (process_video env video_path results_path save return_results w).1
  = Return (if return_results
            then Some {| transcription := FALLO_TRANSCRIBIENDO;
                         translation := None;
                         video_path := video_path |}
            else None)
  /\ translator_calls
       (process_video env video_path results_path save return_results w).2
     = translator_calls w.
Proof.
  intros Hreach Ht. split.
  - rewrite (process_video_outcome _ _ _ _ _ _ _ _ Hreach).
    rewrite (process_audio_outcome _ _ _ _ _ _ _ _ _ Ht). reflexivity.
  - pose proof (transcribe_audio_frame env audio_path 0 w1) as F.
    unfold wp in F. rewrite Ht in F. destruct F as (_ & _ & Hc & _).
    simpl in Hc.
    destruct (reaches_transcription_frame _ _ _ _ _ _ _ Hreach) as (_ & _ & _ & Hc1).
    assert (Hrun : process_audio env video_path results_path save return_results
                     audio_path w1
                   = (Return (if return_results
                              then Some {| transcription := FALLO_TRANSCRIBIENDO;
                                           translation := None;
                                           video_path := video_path |}
                              else None),
                      set_log ((ERROR, MsgTranscriptionLimit) :: log w2) w2)).
    { unfold process_audio, bind. rewrite Ht. simpl.
      destruct return_results; reflexivity. }
    rewrite (proj2 (process_video_run _ _ _ _ _ _ _ _ _ _ Hreach Hrun)). simpl.
    congruence.
Qed.

Lemma process_video_short_circuit_witness :
  (process_video Sample.whisper_down "x.mp4" (Some "out") true true Sample.world).1
  = Return (Some {| transcription := FALLO_TRANSCRIBIENDO;
                    translation := None;
                    video_path := "x.mp4" |})
  /\ translator_calls
       (process_video Sample.whisper_down "x.mp4" (Some "out") true true
          Sample.world).2
     = translator_calls Sample.world.
Proof.
  apply (process_video_short_circuit Sample.whisper_down "x.mp4" (Some "out")
           true true Sample.world "/tmp/tmp0.wav"
           (extract_audio Sample.whisper_down "x.mp4"
              (process_video_entry Sample.whisper_down "x.mp4" (Some "out")
                 true Sample.world).2).2
           (transcribe_audio Sample.whisper_down "/tmp/tmp0.wav" 0
              (extract_audio Sample.whisper_down "x.mp4"
                 (process_video_entry Sample.whisper_down "x.mp4" (Some "out")
                    true Sample.world).2).2).2).
  - eexists. split; vm_compute; reflexivity.
  - vm_compute. reflexivity.
Defined.

(** C4, as the claim has it, fails on the default call: the transcription
    step returns the failure string, and [process_video] returns [None],
    not a dictionary that carries the failure string. *)
Lemma process_video_short_circuit_returns_none :
  let w1 := (extract_audio Sample.whisper_down "x.mp4"
               (process_video_entry Sample.whisper_down "x.mp4" None true
                  Sample.world).2).2 in
  reaches_transcription Sample.whisper_down "x.mp4" None true Sample.world
    "/tmp/tmp0.wav" w1
  /\ (transcribe_audio Sample.whisper_down "/tmp/tmp0.wav" 0 w1).1
     = Return FALLO_TRANSCRIBIENDO
  /\ (process_video Sample.whisper_down "x.mp4" None true false Sample.world).1
     = Return None.
Proof.
  split; [|split].
  - eexists. split; vm_compute; reflexivity.
  - vm_compute. reflexivity.
  - vm_compute. reflexivity.
Qed.

(** ** The value returned *)

Lemma wp_any {A} (m : M A) (Q : outcome A -> World -> Prop) w :
  (forall r w', Q r w') -> wp m Q w.
Proof. intros H. apply H. Qed.

(** The value that the inner block returns, when it returns. *)
Lemma process_audio_value env vpath results_path save return_results
    audio_path w :
  wp (process_audio env vpath results_path save return_results audio_path)
     (fun r _ =>
        match r with
        | Return v =>
            if return_results then
              exists res,
                v = Some res
                /\ video_path res = vpath
                /\ (translation res = None
                    <-> PyStr.contains "FALLO TRANSCRIBIENDO" (transcription res)
                        = true)
            else v = None
        | Raise _ => True
        end) w.
Proof.
  unfold process_audio.
  wp_step. apply wp_any. intros [t|e] w1; [|exact I].
  destruct (PyStr.contains "FALLO TRANSCRIBIENDO" t) eqn:Hc.
  { destruct return_results; repeat wp_step; [|reflexivity].
    eexists. split; [reflexivity|]. simpl. split; [reflexivity|]. tauto. }
  wp_step. apply wp_any. intros [t'|e] w2; [|exact I].
  wp_step. apply wp_mono with (Q := fun r _ => r = Return tt).
  - intros r w3 ->. destruct return_results; repeat wp_step; [|reflexivity].
    eexists. split; [reflexivity|]. simpl. split; [reflexivity|].
    rewrite Hc. split; discriminate.
  - destruct (save && truthy_path results_path); [|reflexivity].
    wp_step. apply wp_save_text; intros; apply wp_save_text; reflexivity.
Qed.

(** C8, as the code has it.  A call of [process_video] that returns,
    returns the dictionary with the three fields when [return_results] is
    set: [video_path] is the argument, and [translation] is [None] exactly
    on the early exit, when the transcription contains the failure marker.
    When [return_results] is not set, which is the default, it returns
    [None]. *)
Theorem process_video_returns_result env vpath results_path save
    return_results w v w' :
  process_video env vpath results_path save return_results w = (Return v, w') ->
  if return_results then
    exists res,
      v = Some res
      /\ video_path res = vpath
      /\ (translation res = None
          <-> PyStr.contains "FALLO TRANSCRIBIENDO" (transcription res) = true)
  else v = None.
Proof.
  intros Hrun.
  assert (H : wp (process_video env vpath results_path save return_results)
                (fun r _ =>
                   match r with
                   | Return v =>
                       if return_results then
                         exists res,
                           v = Some res
                           /\ video_path res = vpath
                           /\ (translation res = None
                               <-> PyStr.contains "FALLO TRANSCRIBIENDO"
                                     (transcription res) = true)
                       else v = None
                   | Raise _ => True
                   end) w).
  { unfold process_video. repeat wp_step.
    destruct (negb _); repeat wp_step; [exact I|].
    apply wp_any. intros [[]|e] w0; [|exact I].
    repeat wp_step. apply wp_any. intros [audio_path|e] w1.
    - wp_step. eapply wp_mono; [|apply process_audio_value].
      intros r w2 Hr. apply wp_any. intros [[]|e] w3.
      + destruct r; [exact Hr|]. repeat wp_step. exact I.
      + repeat wp_step. exact I.
    - repeat wp_step. exact I. }
  unfold wp in H. rewrite Hrun in H. exact H.
Qed.

Lemma process_video_returns_result_witness :
  exists res,
    Some {| transcription := "hello world"; translation := Some "hola mundo";
            video_path := "x.mp4" |} = Some res
    /\ video_path res = "x.mp4"
    /\ (translation res = None
        <-> PyStr.contains "FALLO TRANSCRIBIENDO" (transcription res) = true).
Proof.
  apply (process_video_returns_result Sample.env "x.mp4" (Some "out") true true
           Sample.world
           (Some {| transcription := "hello world";
                    translation := Some "hola mundo";
                    video_path := "x.mp4" |})
           (process_video Sample.env "x.mp4" (Some "out") true true Sample.world).2).
  vm_compute. reflexivity.
Defined.

(** C8, as the claim has it, fails on a call without [return_results]: the
    transcription is not the failure string, both files are written, the
    call returns, and it returns [None]. *)
Lemma process_video_default_returns_none :
  let r := process_video Sample.env "x.mp4" (Some "out") true false Sample.world in
  r.1 = Return None
  /\ fs r.2 !! "out/x_transcription.txt" = Some (File "hello world")
  /\ fs r.2 !! "out/x_translation.txt" = Some (File "hola mundo")
  /\ PyStr.contains "FALLO TRANSCRIBIENDO" "hello world" = false.
Proof. vm_compute. repeat split. Qed.

(** ** How a failed transcription is recognised *)

(** The value of the expression for the sample of the translation leaves
    the world alone. *)
Lemma preview_opt_world x w : (Main.preview_opt x w).2 = w.
Proof. destruct x; reflexivity. Qed.

(** One turn of the loop ends in the world that [process_video] left. *)
Lemma one_video_world env results_directory save_files video_file c w :
  (Main.one_video env results_directory save_files video_file c w).2
  = (process_video env video_file
       (if save_files then results_directory else None) save_files true w).2.
Proof.
  unfold Main.one_video, Main.try_video. unfold bind at 1.
  destruct (process_video _ _ _ _ _ w) as [[[r|]|e] w1]; simpl; try reflexivity.
  destruct (PyStr.truthy _ && negb _); [|reflexivity].
  unfold bind. pose proof (preview_opt_world (translation r) w1) as H.
  destruct (Main.preview_opt (translation r) w1) as [[p|e] w2]; simpl in *;
    now subst.
Qed.

(** The counters after one turn of the loop, from what [process_video]
    returned. *)
Lemma one_video_count env results_directory (save_files : bool) video_file c w :
  (Main.one_video env results_directory save_files video_file c w).1
  = match (process_video env video_file
             (if save_files then results_directory else None) save_files true w).1
    with
    | Return (Some r) =>
        if counts_as_processed (Some r)
        then match translation r with
             | Some _ => Main.count_processed c
             | None => Main.count_error c
             end
        else Main.count_error c
    | _ => Main.count_error c
    end.
Proof.
  unfold Main.one_video, Main.try_video. unfold bind at 1.
  destruct (process_video _ _ _ _ _ w) as [[[r|]|e] w1]; cbn [fst snd];
    try reflexivity.
  unfold counts_as_processed.
  destruct (PyStr.truthy (transcription r)
            && negb (PyStr.startswith "FALLO" (transcription r)));
    [|reflexivity].
  destruct (translation r); reflexivity.
Qed.





(** ** A failed translation *)

Lemma append_length (x y : string) :
  String.length (x ++ y) = (String.length x + String.length y)%nat.
Proof. induction x as [|a x IH]; [reflexivity|]. rewrite append_cons. simpl. now rewrite IH. Qed.

(** Two strings that are equal end alike. *)
Lemma append_same_suffix (x y s t : string) :
  String.length s = String.length t -> x ++ s = y ++ t -> s = t.
Proof.
  revert y. induction x as [|a x IH]; intros [|b y] Hl H.
  - exact H.
  - rewrite append_nil in H. subst s. rewrite append_cons in Hl. simpl in Hl.
    rewrite append_length in Hl. lia.
  - rewrite append_nil in H. subst t. rewrite append_cons in Hl. simpl in Hl.
    rewrite append_length in Hl. lia.
  - rewrite !append_cons in H. injection H as _ H. now apply (IH y).
Qed.

Lemma path_join_suffix (a b : string) : exists pre, PyStr.path_join a b = pre ++ b.
Proof.
  unfold PyStr.path_join. destruct (PyStr.startswith "/" b).
  - exists "". reflexivity.
  - destruct (negb (PyStr.truthy a) || _).
    + exists a. reflexivity.
    + exists (a ++ "/"). now rewrite append_assoc.
Qed.

(** The temporary audio file, whose name ends in [.wav], is not the
    translation file, whose name ends in [.txt]. *)
Lemma translation_file_not_audio env vpath results_path (x : string) :
  translation_file env vpath results_path <> x ++ ".wav".
Proof.
  unfold translation_file.
  destruct (path_join_suffix (path_of results_path)
              (path_stem env vpath ++ "_translation.txt")) as [pre ->].
  change "_translation.txt" with ("_translation" ++ ".txt").
  rewrite <- !append_assoc. intros H.
  apply append_same_suffix in H; [discriminate | reflexivity].
Qed.

(** A write that is not refused puts the text in the file. *)
Lemma save_text_writes env text file_path w :
  write_fault env file_path = None -> fs w !! file_path <> Some Dir ->
  fs (save_text env text file_path w).2 !! file_path = Some (File text).
Proof.
  intros Hw Hd. unfold save_text, try_except, bind, logger, write_file.
  rewrite Hw. destruct (fs w !! file_path) as [[c|]|]; simpl;
    solve [apply lookup_insert_eq | contradiction].
Qed.

(** [save_text] creates no directory. *)
Lemma save_text_no_new_dir env text file_path w q :
  fs w !! q <> Some Dir ->
  fs (save_text env text file_path w).2 !! q <> Some Dir.
Proof.
  intros Hd.
  apply (wp_save_text env text file_path (fun _ w' => fs w' !! q <> Some Dir)).
  - intros l. exact Hd.
  - intros l c _ _. simpl. destruct (decide (file_path = q)) as [->|Hne].
    + rewrite lookup_insert_eq. discriminate.
    + now rewrite lookup_insert_ne.
Qed.

(** C10, as the code has it.  When the translation loop has given up and
    returned its failure string, [process_video] goes on as after a
    translation: it returns normally and its last record is the one of
    success.  With [return_results] set, the dictionary it returns has the
    failure string as translation; otherwise it returns [None].  With
    [save] set and a results directory given, it hands the failure string
    to [save_text] for the translation file, which holds it afterwards
    unless the write is refused. *)
Theorem translation_failure_goes_unnoticed env vpath results_path save
    return_results w audio_path w1 t w2 w3 :
  reaches_transcription env vpath results_path save w audio_path w1 ->
  transcribe_audio env audio_path 0 w1 = (Return t, w2) ->
  PyStr.contains "FALLO TRANSCRIBIENDO" t = false ->
  translate_text env t 0 w2 = (Return FALLO_TRADUCIENDO, w3) ->
  let r := process_video env vpath results_path save return_results w in
  r.1 = Return (if return_results
                then Some {| transcription := t;
                             translation := Some FALLO_TRADUCIENDO;
                             video_path := vpath |}
                else None)
  /\ head (log r.2) = Some (INFO, MsgProcessed vpath)
  /\ (save = true -> truthy_path results_path = true ->
      write_fault env (translation_file env vpath results_path) = None ->
      fs w1 !! translation_file env vpath results_path <> Some Dir ->
      fs r.2 !! translation_file env vpath results_path
      = Some (File FALLO_TRADUCIENDO)).
Proof.
  intros Hreach Ht Hc Htr.
  pose proof (transcribe_audio_frame env audio_path 0 w1) as F1.
  unfold wp in F1. rewrite Ht in F1. destruct F1 as (_ & Hf1 & _).
  pose proof (translate_text_frame env t 0 w2) as F2.
  unfold wp in F2. rewrite Htr in F2. destruct F2 as (_ & Hf2 & _).
  simpl in Hf1, Hf2.
  set (saves := if save && truthy_path results_path
                then (save_text env FALLO_TRADUCIENDO
                        (translation_file env vpath results_path)
                        (save_text env t (transcription_file env vpath results_path)
                           w3).2).2
                else w3).
  assert (Hrun : process_audio env vpath results_path save return_results
                   audio_path w1
                 = (Return (if return_results
                            then Some {| transcription := t;
                                         translation := Some FALLO_TRADUCIENDO;
                                         video_path := vpath |}
                            else None),
                    set_log ((INFO, MsgProcessed vpath) :: log saves) saves)).
  { unfold process_audio. unfold bind at 1. rewrite Ht, Hc.
    unfold bind at 1. rewrite Htr. cbv zeta. unfold bind at 1.
    unfold saves, transcription_file, translation_file.
    destruct (save && truthy_path results_path).
    - unfold bind at 1.
      pose proof (save_text_returns env t
                    (transcription_file env vpath results_path) w3) as H1.
      unfold transcription_file in H1.
      destruct (save_text env t _ w3) as [r1 w4]. simpl in H1. subst r1.
      pose proof (save_text_returns env FALLO_TRADUCIENDO
                    (translation_file env vpath results_path) w4) as H2.
      unfold translation_file in H2. simpl snd.
      destruct (save_text env FALLO_TRADUCIENDO _ w4) as [r2 w5].
      simpl in H2. subst r2. destruct return_results; reflexivity.
    - destruct return_results; reflexivity. }
  intros r. subst r.
  rewrite (proj2 (process_video_run _ _ _ _ _ _ _ _ _ _ Hreach Hrun)). cbv zeta.
  split; [reflexivity|]. split; [reflexivity|].
  intros Hs Htp Hw Hd. simpl.
  destruct (reaches_transcription_frame _ _ _ _ _ _ _ Hreach) as (-> & _).
  rewrite lookup_delete_ne
    by (intros E; symmetry in E; revert E; apply translation_file_not_audio).
  unfold saves. rewrite Hs, Htp. simpl. apply save_text_writes; [exact Hw|].
  apply save_text_no_new_dir. now rewrite Hf2, Hf1.
Qed.

Lemma translation_failure_goes_unnoticed_witness :
  let r := process_video Sample.translator_down "x.mp4" (Some "out") true true
             Sample.world in
  r.1 = Return (Some {| transcription := "hello world";
                        translation := Some FALLO_TRADUCIENDO;
                        video_path := "x.mp4" |})
  /\ head (log r.2) = Some (INFO, MsgProcessed "x.mp4")
  /\ fs r.2 !! "out/x_translation.txt" = Some (File FALLO_TRADUCIENDO).
Proof.
  pose (w1 := (extract_audio Sample.translator_down "x.mp4"
                 (process_video_entry Sample.translator_down "x.mp4" (Some "out")
                    true Sample.world).2).2).
  pose (w2 := (transcribe_audio Sample.translator_down "/tmp/tmp0.wav" 0 w1).2).
  pose (w3 := (translate_text Sample.translator_down "hello world" 0 w2).2).
  destruct (translation_failure_goes_unnoticed Sample.translator_down "x.mp4"
              (Some "out") true true Sample.world "/tmp/tmp0.wav" w1
              "hello world" w2 w3)
    as (Hres & Hlog & Hfile).
  - eexists. split; vm_compute; reflexivity.
  - vm_compute. reflexivity.
  - vm_compute. reflexivity.
  - vm_compute. reflexivity.
  - split; [exact Hres|]. split; [exact Hlog|].
    apply Hfile; [reflexivity | reflexivity | reflexivity |].
    vm_compute. discriminate.
Defined.

(** C10, as the claim has it, fails on the default call: the translation
    loop gives up, and [process_video] writes no file and returns [None]. *)
Lemma translation_failure_default_call :
  let w1 := (extract_audio Sample.translator_down "x.mp4"
               (process_video_entry Sample.translator_down "x.mp4" None true
                  Sample.world).2).2 in
  let w2 := (transcribe_audio Sample.translator_down "/tmp/tmp0.wav" 0 w1).2 in
  let r := process_video Sample.translator_down "x.mp4" None true false
             Sample.world in
  (translate_text Sample.translator_down "hello world" 0 w2).1
  = Return FALLO_TRADUCIENDO
  /\ translator_calls r.2 = 11%nat
  /\ r.1 = Return None
  /\ fs r.2 = fs Sample.world.
Proof. vm_compute. repeat split. Qed.

(** * Further properties of the code *)

(** ** What a call of [process_video] costs and what it leaves alone *)

Lemma within_budget_refl a b w : within_budget a b w w.
Proof. unfold within_budget. repeat split; lia. Qed.

Lemma wp_os_makedirs env p (Q : outcome unit -> World -> Prop) w :
  (forall r f, new_dirs_along p (fs w) f -> Q r (set_fs f w)) ->
  wp (os_makedirs env p) Q w.
Proof.
  intros H. unfold wp.
  destruct (os_makedirs env p w) as [r w'] eqn:E.
  apply os_makedirs_world in E as (f & -> & Hf). simpl. now apply H.
Qed.

Lemma wp_remove_audio_any audio_path (Q : outcome unit -> World -> Prop) w :
  (forall r, Q r w) ->
  Q (Return tt) (set_fs (delete audio_path (fs w)) w) ->
  wp (remove_audio audio_path) Q w.
Proof.
  intros H1 H2. unfold wp, remove_audio, bind, os_path_exists, os_unlink, ret.
  destruct (bool_decide _); simpl; [|apply H1].
  destruct (fs w !! audio_path) as [[c|]|]; simpl; auto.
Qed.

(** [extract_audio] sends no request and leaves the object alone. *)
Lemma extract_audio_offline env video_path w :
  wp (extract_audio env video_path) (fun _ w' => within_budget 0 0 w w') w.
Proof.
  unfold extract_audio. repeat wp_step.
  destruct (open_video env video_path); repeat wp_step;
    try (unfold within_budget; simpl; repeat split; lia).
  unfold wp, named_temporary_file.
  destruct (fs _ !! _); simpl; repeat wp_step;
    try (unfold within_budget; simpl; repeat split; lia).
  destruct (write_audiofile env video_path); repeat wp_step;
    unfold wp, within_budget; simpl; repeat split; lia.
Qed.

Lemma process_audio_budget env vpath results_path save return_results
    audio_path w :
  wp (process_audio env vpath results_path save return_results audio_path)
     (fun _ w' => within_budget 11 11 w w') w.
Proof.
  unfold process_audio.
  wp_step. apply wp_transcribe_audio.
  intros [t|e] w1 (Hs1 & _ & Ht1 & Hw1); simpl in Hw1;
    [|unfold within_budget; repeat split; auto; lia].
  destruct (PyStr.contains "FALLO TRANSCRIBIENDO" t).
  { destruct return_results; repeat wp_step;
      unfold within_budget; simpl; repeat split; auto; lia. }
  wp_step. apply wp_translate_text.
  intros [t'|e] w2 (Hs2 & _ & Hw2 & Ht2); simpl in Ht2;
    [|unfold within_budget; repeat split; try congruence; lia].
  assert (B2 : within_budget 11 11 w w2)
    by (unfold within_budget; repeat split; try congruence; lia).
  clear - B2.
  assert (Hlog : forall l w', within_budget 11 11 w w' ->
                              within_budget 11 11 w (set_log l w')) by (intros; assumption).
  assert (Hfs : forall f w', within_budget 11 11 w w' ->
                             within_budget 11 11 w (set_fs f w')) by (intros; assumption).
  wp_step. destruct (save && truthy_path results_path).
  - wp_step. apply wp_save_text; intros;
      (apply wp_save_text; intros;
       destruct return_results; repeat wp_step; auto).
  - destruct return_results; repeat wp_step; auto.
Qed.

(** Closes a goal [within_budget] from the budgets of the steps. *)
Ltac budget :=
  unfold within_budget in *; simpl in *;
  repeat match goal with H : _ /\ _ |- _ => destruct H end;
  repeat split; solve [congruence | lia].

Lemma process_video_budget env vpath results_path save return_results w :
  wp (process_video env vpath results_path save return_results)
     (fun _ w' => within_budget 11 11 w w') w.
Proof.
  unfold process_video. repeat wp_step.
  destruct (negb _); repeat wp_step; [budget|].
  assert (Hgo : forall w0, within_budget 0 0 w w0 ->
            wp (try_except
                  (logger INFO (MsgProcessing vpath);;
                   let* audio_path := extract_audio env vpath
                   in try_finally
                        (process_audio env vpath results_path save return_results
                           audio_path)
                        (remove_audio audio_path))
                  (fun e => logger ERROR (MsgProcessError vpath (exn_str e));; raise e))
               (fun _ w' => within_budget 11 11 w w') w0).
  { intros w0 B0. repeat wp_step.
    eapply wp_mono; [|apply extract_audio_offline].
    intros [audio_path|e] w1 B1; cbv beta.
    - wp_step. eapply wp_mono; [|apply process_audio_budget].
      intros r w2 B2. cbv beta.
      assert (B : within_budget 11 11 w w2) by budget.
      apply wp_remove_audio_any.
      + intros [[]|e]; destruct r; repeat wp_step; budget.
      + destruct r; repeat wp_step; budget.
    - repeat wp_step. budget. }
  destruct (save && truthy_path results_path).
  - apply wp_os_makedirs.
    intros [[]|e] f _; [apply Hgo; budget | budget].
  - wp_step. apply Hgo. budget.
Qed.

(** X1.  A call of [process_video], whatever its arguments and however it
    ends, sends at most 11 requests to the speech-to-text service and at
    most 11 to the translation service. *)
Theorem process_video_request_budget env vpath results_path save return_results w :
  let w' := (process_video env vpath results_path save return_results w).2 in
  (whisper_calls w' <= whisper_calls w + 11)%nat
  /\ (translator_calls w' <= translator_calls w + 11)%nat.
Proof.
  destruct (process_video_budget env vpath results_path save return_results w)
    as (_ & Hw & Ht).
  simpl. lia.
Qed.

(** X2.  A call of [process_video] never changes the object: the API key,
    the two model names, the template and the translation client are the
    same after the call as before, also when the call raises. *)
Theorem process_video_keeps_object env vpath results_path save return_results w :
  self (process_video env vpath results_path save return_results w).2 = self w.
Proof.
  apply (process_video_budget env vpath results_path save return_results w).
Qed.

(** ** The filesystem after a call of [process_video] *)

(** What the entry of [process_video] does to the filesystem: nothing
    with persistence off; with persistence on, the creation of the
    results directory and of the missing directories above it. *)
Lemma process_video_entry_fs env vpath results_path save w w0 :
  process_video_entry env vpath results_path save w = (Return tt, w0) ->
  is_Some (fs w !! vpath)
  /\ temp_files w0 = temp_files w
  /\ (save && truthy_path results_path = false -> fs w0 = fs w)
  /\ new_dirs_along (path_of results_path) (fs w) (fs w0).
Proof.
  unfold process_video_entry, bind, os_path_exists, ret, logger, raise.
  destruct (bool_decide (is_Some (fs w !! vpath))) eqn:Hb; simpl; [|discriminate].
  apply bool_decide_eq_true in Hb.
  destruct (save && truthy_path results_path).
  - destruct (os_makedirs env _ w) as [[[]|e] w'] eqn:Hmk; [|discriminate].
    apply os_makedirs_world in Hmk as (f & -> & Hf).
    intros [= <-]. simpl. repeat split; [exact Hb | discriminate | exact Hf].
  - intros [= <-]. simpl. repeat split; [exact Hb | apply new_dirs_along_refl].
Qed.

(** What a successful extraction does to the filesystem: the temporary
    name was free, and now it holds the audio. *)
Lemma extract_audio_fs env vpath w0 audio_path w1 :
  extract_audio env vpath w0 = (Return audio_path, w1) ->
  fs w0 !! audio_path = None
  /\ exists data, fs w1 = <[audio_path := File data]> (fs w0).
Proof.
  unfold extract_audio, named_temporary_file.
  unfold try_except, bind, ret, raise, logger, answer. simpl.
  destruct (open_video env vpath); simpl; [discriminate|].
  destruct (fs w0 !! _) eqn:Hfree; simpl; [discriminate|].
  destruct (write_audiofile env vpath) as [e|data]; simpl; [discriminate|].
  intros [= <- <-]. simpl. split; [exact Hfree|].
  exists data. apply insert_insert_eq.
Qed.

(** [save_text] touches no path but its own. *)
Lemma save_text_other_paths env text file_path w q :
  q <> file_path ->
  fs (save_text env text file_path w).2 !! q = fs w !! q.
Proof.
  intros Hq.
  apply (wp_save_text env text file_path (fun _ w' => fs w' !! q = fs w !! q)).
  - reflexivity.
  - intros l c _ _. simpl. now rewrite lookup_insert_ne.
Qed.

(** The two output files have different names. *)
Lemma transcription_file_not_translation_file env vpath results_path :
  transcription_file env vpath results_path <> translation_file env vpath results_path.
Proof.
  unfold transcription_file, translation_file.
  destruct (path_join_suffix (path_of results_path)
              (path_stem env vpath ++ "_transcription.txt")) as [pre1 ->].
  destruct (path_join_suffix (path_of results_path)
              (path_stem env vpath ++ "_translation.txt")) as [pre2 ->].
  change "_transcription.txt" with ("_transcri" ++ "ption.txt").
  change "_translation.txt" with ("_transl" ++ "ation.txt").
  rewrite <- !append_assoc. intros H.
  apply append_same_suffix in H; [discriminate | reflexivity].
Qed.

Lemma transcription_file_not_audio env vpath results_path (x : string) :
  transcription_file env vpath results_path <> x ++ ".wav".
Proof.
  unfold transcription_file.
  destruct (path_join_suffix (path_of results_path)
              (path_stem env vpath ++ "_transcription.txt")) as [pre ->].
  change "_transcription.txt" with ("_transcription" ++ ".txt").
  rewrite <- !append_assoc. intros H.
  apply append_same_suffix in H; [discriminate | reflexivity].
Qed.

(** The run of the inner block when both remote steps return and the
    transcription is not taken for a failure. *)
Lemma process_audio_run env vpath results_path save return_results
    audio_path w1 t w2 t' w3 :
  transcribe_audio env audio_path 0 w1 = (Return t, w2) ->
  PyStr.contains "FALLO TRANSCRIBIENDO" t = false ->
  translate_text env t 0 w2 = (Return t', w3) ->
  let w5 := if save && truthy_path results_path
            then (save_text env t' (translation_file env vpath results_path)
                    (save_text env t (transcription_file env vpath results_path)
                       w3).2).2
            else w3 in
  process_audio env vpath results_path save return_results audio_path w1
  = (Return (if return_results
             then Some {| transcription := t; translation := Some t';
                          video_path := vpath |}
             else None),
     set_log ((INFO, MsgProcessed vpath) :: log w5) w5).
Proof.
  intros Ht Hc Htr. cbv zeta.
  unfold process_audio. unfold bind at 1. rewrite Ht, Hc.
  unfold bind at 1. rewrite Htr. cbv zeta. unfold bind at 1.
  unfold transcription_file, translation_file.
  destruct (save && truthy_path results_path).
  - unfold bind at 1.
    pose proof (save_text_returns env t
                  (transcription_file env vpath results_path) w3) as H1.
    unfold transcription_file in H1.
    destruct (save_text env t _ w3) as [r1 w4]. simpl in H1. subst r1.
    pose proof (save_text_returns env t'
                  (translation_file env vpath results_path) w4) as H2.
    unfold translation_file in H2. simpl snd.
    destruct (save_text env t' _ w4) as [r2 w5].
    simpl in H2. subst r2. destruct return_results; reflexivity.
  - destruct return_results; reflexivity.
Qed.

(** X3.  The whole pipeline with persistence on.  When the run reaches
    the transcription, the transcription returns a text without the
    failure marker, the translation returns, and neither output file
    fails to be written, then after the call the transcription file holds
    the transcription, the translation file holds the translation, and
    the temporary audio file is gone.  Every other path is as it was
    before the call, or it is new and a directory on the way to the
    results directory: the results directory itself or one above it that
    was missing. *)
Theorem process_video_saves_both env vpath results_path return_results
    w audio_path w1 t w2 t' w3 :
  reaches_transcription env vpath results_path true w audio_path w1 ->
  transcribe_audio env audio_path 0 w1 = (Return t, w2) ->
  PyStr.contains "FALLO TRANSCRIBIENDO" t = false ->
  translate_text env t 0 w2 = (Return t', w3) ->
  truthy_path results_path = true ->
  write_fault env (transcription_file env vpath results_path) = None ->
  write_fault env (translation_file env vpath results_path) = None ->
  fs w1 !! transcription_file env vpath results_path <> Some Dir ->
  fs w1 !! translation_file env vpath results_path <> Some Dir ->
  let r := process_video env vpath results_path true return_results w in
  r.1 = Return (if return_results
                then Some {| transcription := t; translation := Some t';
                             video_path := vpath |}
                else None)
  /\ fs r.2 !! transcription_file env vpath results_path = Some (File t)
  /\ fs r.2 !! translation_file env vpath results_path = Some (File t')
  /\ fs r.2 !! audio_path = None
  /\ fs w !! audio_path = None
  /\ (forall q,
        q <> transcription_file env vpath results_path ->
        q <> translation_file env vpath results_path ->
        fs r.2 !! q = fs w !! q
        \/ (fs w !! q = None /\ fs r.2 !! q = Some Dir
            /\ PyStr.startswith q (path_of results_path) = true)).
Proof.
  intros Hreach Ht Hc Htr Htp Hw1 Hw2 Hd1 Hd2.
  pose proof (transcribe_audio_frame env audio_path 0 w1) as F1.
  unfold wp in F1. rewrite Ht in F1. destruct F1 as (_ & Hf1 & _).
  pose proof (translate_text_frame env t 0 w2) as F2.
  unfold wp in F2. rewrite Htr in F2. destruct F2 as (_ & Hf2 & _).
  simpl in Hf1, Hf2.
  pose proof (process_audio_run env vpath results_path true return_results
                audio_path w1 t w2 t' w3 Ht Hc Htr) as Hrun.
  cbv zeta in Hrun. rewrite Htp in Hrun. simpl andb in Hrun. cbv iota in Hrun.
  intros r. subst r.
  rewrite (proj2 (process_video_run _ _ _ _ _ _ _ _ _ _ Hreach Hrun)). cbv zeta. simpl.
  destruct (reaches_transcription_frame _ _ _ _ _ _ _ Hreach) as (Ha & _).
  destruct Hreach as (w0 & He & Hx).
  apply process_video_entry_fs in He as (_ & _ & _ & Hfs0).
  apply extract_audio_fs in Hx as (Hfree & data & Hfs1).
  assert (Hne1 : transcription_file env vpath results_path <> audio_path)
    by (rewrite Ha; apply transcription_file_not_audio).
  assert (Hne2 : translation_file env vpath results_path <> audio_path)
    by (rewrite Ha; apply translation_file_not_audio).
  assert (Hfree0 : fs w !! audio_path = None).
  { destruct (Hfs0 audio_path) as [E|(E & _)]; congruence. }
  split; [reflexivity|]. split; [|split; [|split; [|split]]].
  - rewrite lookup_delete_ne by congruence.
    rewrite save_text_other_paths by apply transcription_file_not_translation_file.
    apply save_text_writes; [exact Hw1|]. now rewrite Hf2, Hf1.
  - rewrite lookup_delete_ne by congruence.
    apply save_text_writes; [exact Hw2|].
    apply save_text_no_new_dir. now rewrite Hf2, Hf1.
  - apply lookup_delete_eq.
  - exact Hfree0.
  - intros q Hq1 Hq2.
    destruct (decide (q = audio_path)) as [->|Hq3].
    { left. rewrite lookup_delete_eq. now rewrite Hfree0. }
    rewrite lookup_delete_ne by congruence.
    rewrite !save_text_other_paths by assumption.
    rewrite Hf2, Hf1, Hfs1. rewrite lookup_insert_ne by congruence.
    apply Hfs0.
Qed.

Lemma process_video_saves_both_witness :
  let r := process_video Sample.env "x.mp4" (Some "out/sub") true true Sample.world in
  r.1 = Return (Some {| transcription := "hello world";
                        translation := Some "hola mundo";
                        video_path := "x.mp4" |})
  /\ fs r.2 !! "out/sub/x_transcription.txt" = Some (File "hello world")
  /\ fs r.2 !! "out/sub/x_translation.txt" = Some (File "hola mundo")
  /\ fs r.2 !! "/tmp/tmp0.wav" = None
  /\ (fs r.2 !! "x.mp4" = fs Sample.world !! "x.mp4"
      \/ (fs Sample.world !! "x.mp4" = None /\ fs r.2 !! "x.mp4" = Some Dir
          /\ PyStr.startswith "x.mp4" "out/sub" = true)).
Proof.
  pose (w1 := (extract_audio Sample.env "x.mp4"
                 (process_video_entry Sample.env "x.mp4" (Some "out/sub") true
                    Sample.world).2).2).
  pose (w2 := (transcribe_audio Sample.env "/tmp/tmp0.wav" 0 w1).2).
  pose (w3 := (translate_text Sample.env "hello world" 0 w2).2).
  destruct (process_video_saves_both Sample.env "x.mp4" (Some "out/sub") true
              Sample.world "/tmp/tmp0.wav" w1 "hello world" w2 "hola mundo" w3)
    as (H1 & H2 & H3 & H4 & _ & H5).
  - eexists. split; vm_compute; reflexivity.
  - vm_compute. reflexivity.
  - vm_compute. reflexivity.
  - vm_compute. reflexivity.
  - reflexivity.
  - reflexivity.
  - reflexivity.
  - vm_compute. discriminate.
  - vm_compute. discriminate.
  - split; [exact H1|]. split; [exact H2|]. split; [exact H3|].
    split; [exact H4|]. apply H5; vm_compute; discriminate.
Defined.

(** In that run the results directory is nested, and the directory above
    it is created with it. *)
Example process_video_nested_results :
  map_to_list
    (fs (process_video Sample.env "x.mp4" (Some "out/sub") true true Sample.world).2)
  = [("out/sub/x_transcription.txt", File "hello world");
     ("out/sub/x_translation.txt", File "hola mundo");
     ("out/sub", Dir); ("out", Dir); ("x.mp4", File "video")].
Proof. vm_compute. reflexivity. Qed.

(** With persistence off the inner block writes nothing. *)
Lemma process_audio_no_writes env vpath results_path save return_results
    audio_path w :
  save && truthy_path results_path = false ->
  wp (process_audio env vpath results_path save return_results audio_path)
     (fun _ w' => fs w' = fs w) w.
Proof.
  intros Hoff. unfold process_audio. rewrite Hoff.
  wp_step. apply wp_transcribe_audio.
  intros [t|e] w1 (_ & Hf1 & _); [|exact Hf1].
  destruct (PyStr.contains "FALLO TRANSCRIBIENDO" t).
  { destruct return_results; repeat wp_step; exact Hf1. }
  wp_step. apply wp_translate_text.
  intros [t'|e] w2 (_ & Hf2 & _); [|congruence].
  destruct return_results; repeat wp_step; simpl; congruence.
Qed.

(** X4.  With persistence off ([save] unset, or no results directory),
    a call of [process_video] that reaches the transcription leaves the
    filesystem exactly as it found it, however the call ends: the only
    file it creates is the temporary audio file, and it deletes it. *)
Theorem process_video_leaves_no_trace env vpath results_path save return_results
    w audio_path w1 :
  save && truthy_path results_path = false ->
  reaches_transcription env vpath results_path save w audio_path w1 ->
  fs (process_video env vpath results_path save return_results w).2 = fs w.
Proof.
  intros Hoff Hreach.
  destruct (process_audio env vpath results_path save return_results
              audio_path w1) as [r w3] eqn:Hrun.
  rewrite (proj2 (process_video_run _ _ _ _ _ _ _ _ _ _ Hreach Hrun)).
  pose proof (process_audio_no_writes env vpath results_path save return_results
                audio_path w1 Hoff) as Hfs.
  unfold wp in Hfs. rewrite Hrun in Hfs. simpl in Hfs.
  destruct Hreach as (w0 & He & Hx).
  apply process_video_entry_fs in He as (_ & _ & Hfs0 & _).
  apply extract_audio_fs in Hx as (Hfree & data & Hfs1).
  specialize (Hfs0 Hoff).
  assert (Hfinal : delete audio_path (fs w3) = fs w).
  { rewrite Hfs, Hfs1. rewrite delete_insert_id by exact Hfree. exact Hfs0. }
  destruct r; simpl; exact Hfinal.
Qed.

Lemma process_video_leaves_no_trace_witness :
  fs (process_video Sample.translator_past "x.mp4" None true true Sample.world).2
  = fs Sample.world.
Proof.
  apply (process_video_leaves_no_trace Sample.translator_past "x.mp4" None true
           true Sample.world "/tmp/tmp0.wav"
           (extract_audio Sample.translator_past "x.mp4"
              (process_video_entry Sample.translator_past "x.mp4" None true
                 Sample.world).2).2).
  - reflexivity.
  - eexists. split; vm_compute; reflexivity.
Defined.

(** ** When the extraction fails *)

(** X5.  When the video cannot be opened, [process_video] raises the
    exception of the media library as it is, after two error records (one
    from [extract_audio], one from [process_video]); no temporary file has
    been created and no request has been sent. *)
Theorem process_video_unreadable_video env vpath results_path save return_results
    w w0 e :
  process_video_entry env vpath results_path save w = (Return tt, w0) ->
  open_video env vpath = Some e ->
  process_video env vpath results_path save return_results w
  = (Raise e,
     set_log ((ERROR, MsgProcessError vpath (exn_str e))
              :: (ERROR, MsgExtractError vpath (exn_str e))
              :: (INFO, MsgExtracting vpath) :: log w0) w0).
Proof.
  intros He Ho.
  unfold process_video, process_video_entry in *.
  unfold bind, try_except, os_path_exists, ret, logger, raise in *.
  destruct (bool_decide _); simpl in *; [|discriminate].
  assert (Hx : extract_audio env vpath w0
               = (Raise e, set_log ((ERROR, MsgExtractError vpath (exn_str e))
                                    :: (INFO, MsgExtracting vpath) :: log w0) w0)).
  { clear He. unfold extract_audio, try_except, bind, logger, raise.
    rewrite Ho. reflexivity. }
  destruct (save && truthy_path results_path).
  - destruct (os_makedirs env _ w) as [[[]|e'] w']; [|discriminate].
    injection He as <-. unfold logger in Hx. rewrite Hx. reflexivity.
  - injection He as <-. rewrite Hx. reflexivity.
Qed.

Lemma process_video_unreadable_video_witness :
  exists w0,
    process_video Cases.unreadable "x.mp4" (Some "out") true true Sample.world
    = (Raise (plain_exn OSError "MoviePy error: the file could not be read"),
       set_log ((ERROR, MsgProcessError "x.mp4"
                          "MoviePy error: the file could not be read")
                :: (ERROR, MsgExtractError "x.mp4"
                             "MoviePy error: the file could not be read")
                :: (INFO, MsgExtracting "x.mp4") :: log w0) w0).
Proof.
  exists (process_video_entry Cases.unreadable "x.mp4" (Some "out") true
            Sample.world).2.
  apply (process_video_unreadable_video Cases.unreadable "x.mp4" (Some "out")
           true true Sample.world).
  - vm_compute. reflexivity.
  - reflexivity.
Defined.

(** X6.  When the audio cannot be written (for instance, the video has no
    audio track), [process_video] raises the exception as it is, and the
    temporary file that [extract_audio] had created stays behind, empty:
    nothing deletes it. *)
Theorem extraction_failure_leaves_temp_file env vpath results_path save
    return_results w w0 e :
  process_video_entry env vpath results_path save w = (Return tt, w0) ->
  open_video env vpath = None ->
  fs w0 !! (temp_name env (temp_files w0) ++ ".wav") = None ->
  write_audiofile env vpath = inl e ->
  let r := process_video env vpath results_path save return_results w in
  r.1 = Raise e
  /\ fs r.2 = <[temp_name env (temp_files w0) ++ ".wav" := File ""]> (fs w0).
Proof.
  intros He Ho Hfree Hw.
  assert (Hx : exists w1,
             extract_audio env vpath w0 = (Raise e, w1)
             /\ fs w1 = <[temp_name env (temp_files w0) ++ ".wav" := File ""]> (fs w0)).
  { unfold extract_audio, named_temporary_file.
    unfold try_except, bind, logger, raise, ret, answer. simpl.
    rewrite Ho. simpl. rewrite Hfree. simpl. rewrite Hw. simpl.
    eexists. split; reflexivity. }
  destruct Hx as (w1 & Hx & Hfs1).
  unfold process_video, process_video_entry in *.
  unfold bind, try_except, os_path_exists, ret, logger, raise in *.
  destruct (bool_decide _); simpl in *; [|discriminate].
  destruct (save && truthy_path results_path).
  - destruct (os_makedirs env _ w) as [[[]|e'] w']; [|discriminate].
    injection He as <-. unfold logger in Hx. rewrite Hx. simpl. auto.
  - injection He as <-. rewrite Hx. simpl. auto.
Qed.

Lemma extraction_failure_leaves_temp_file_witness :
  let r := process_video Cases.silent "x.mp4" None true true Sample.world in
  r.1 = Raise (plain_exn OtherError
                 "'NoneType' object has no attribute 'write_audiofile'")
  /\ fs r.2 = <[ "/tmp/tmp0.wav" := File "" ]> (fs Sample.world).
Proof.
  apply (extraction_failure_leaves_temp_file Cases.silent "x.mp4" None true true
           Sample.world
           (process_video_entry Cases.silent "x.mp4" None true Sample.world).2).
  - vm_compute. reflexivity.
  - reflexivity.
  - vm_compute. reflexivity.
  - reflexivity.
Defined.

(** X7.  When the results path is taken by a regular file,
    [process_video] raises [FileExistsError] out of [os.makedirs] before
    its [try] block: the world is exactly as before, without even a log
    record, and the video has not been opened. *)
Theorem results_path_taken_by_a_file env vpath results_path return_results w c :
  is_Some (fs w !! vpath) ->
  truthy_path results_path = true ->
  fs w !! path_of results_path = Some (File c) ->
  process_video env vpath results_path true return_results w
  = (Raise (plain_exn FileExistsError (path_of results_path)), w).
Proof.
  intros Hv Htp Hf.
  unfold process_video, bind, os_path_exists, ret, os_makedirs.
  rewrite (bool_decide_eq_true_2 _ Hv). simpl. rewrite Htp, Hf. reflexivity.
Qed.

Lemma results_path_taken_by_a_file_witness :
  process_video Sample.env "x.mp4" (Some "out") true true Cases.with_notes
  = (Raise (plain_exn FileExistsError "out"), Cases.with_notes).
Proof.
  apply (results_path_taken_by_a_file Sample.env "x.mp4" (Some "out") true
           Cases.with_notes "notes").
  - vm_compute. eauto.
  - reflexivity.
  - vm_compute. reflexivity.
Defined.

(** ** The retry loops, attempt by attempt *)

(** Simplifies the fields of a world built by the setters, and nothing
    else. *)
Ltac world_simpl :=
  cbn [fst snd self fs log whisper_calls translator_calls random_draws
       temp_files sleeps set_self set_fs set_log set_whisper_calls
       set_translator_calls set_random_draws set_temp_files set_sleeps] in *.

(** A wait on a base of -5 or less is negative: the jitter stays below
    5, and so does its sum with the base below 0. *)
Lemma wait_negative env n base :
  Z.abs base < 2 ^ 53 -> base <= -5 ->
  (Binary64.add (inject_Z base) (jitter env n) < 0)%Q.
Proof.
  intros H1 H2. destruct (jitter_range env n) as [_ J1].
  unfold Binary64.add.
  assert (E : Binary64.round64 (-5 + (5629499534213119 # 1125899906842624))
              = (-1 # 1125899906842624)%Q) by (vm_compute; reflexivity).
  apply Qle_lt_trans with (-1 # 1125899906842624)%Q; [|reflexivity].
  rewrite <- E. apply Binary64Facts.round64_mono.
  assert (Hq : (inject_Z base <= inject_Z (-5))%Q) by (rewrite <- Zle_Qle; exact H2).
  change (inject_Z (-5)) with (-5)%Q in Hq. lra.
Qed.

(** When the hint is in range, the pause between two attempts neither
    raises nor touches anything but the log, the random source and the
    record of sleeps; without a hint it lasts 60 seconds at least. *)
Lemma pause_run env e w :
  hint_in_range env e ->
  exists t l,
    (let* retry_after_time := _get_retry_time env e in time_sleep retry_after_time) w
    = (Return tt,
       set_sleeps (t :: sleeps w) (set_log l (set_random_draws (S (random_draws w)) w)))
    /\ (0 <= t)%Q
    /\ (retry_after_hint e = None -> (60 <= t)%Q).
Proof.
  intros Hint.
  destruct (retry_time_run env e w) as (base & l & Hbase & Hrun).
  assert (Hb : 0 <= base <= 10 ^ 6 + 2).
  { unfold hint_in_range in Hint.
    destruct (retry_after_hint e) as [s|];
      [destruct (py_int env s) as [h|]|]; lia. }
  assert (Hsmall : Z.abs base < 2 ^ 53 /\ Z.abs (base + 5) < 2 ^ 53) by lia.
  destruct Hsmall as [Hs1 Hs2].
  unfold bind. rewrite (Hrun Hs1).
  set (t := Binary64.add (inject_Z base) (jitter env (random_draws w))).
  destruct (wait_bounds env (random_draws w) base Hs1 Hs2) as [Hlo _]. fold t in Hlo.
  assert (Hq : (inject_Z 0 <= inject_Z base)%Q) by (rewrite <- Zle_Qle; lia).
  change (inject_Z 0) with 0%Q in Hq.
  assert (Ht : (0 <= t)%Q) by lra.
  exists t, l. split; [|split].
  - unfold time_sleep. destruct (Qlt_le_dec t 0) as [Hneg|_]; [lra|]. reflexivity.
  - exact Ht.
  - intros Hnone. rewrite Hnone in Hbase. subst base.
    change (inject_Z 60) with 60%Q in Hlo. exact Hlo.
Qed.

Lemma bind_assoc {A B C} (m : M A) (f : A -> M B) (k : B -> M C) w :
  bind m (fun a => bind (f a) k) w = bind (bind m f) k w.
Proof. unfold bind. destruct (m w) as [[a|e] w']; reflexivity. Qed.

(** The same pause, followed by the rest of the handler. *)
Lemma pause_then {A} env e (rest : M A) w :
  hint_in_range env e ->
  exists t l,
    (let* retry_after_time := _get_retry_time env e in
     time_sleep retry_after_time ;; rest) w
    = rest (set_sleeps (t :: sleeps w)
              (set_log l (set_random_draws (S (random_draws w)) w)))
    /\ (0 <= t)%Q
    /\ (retry_after_hint e = None -> (60 <= t)%Q).
Proof.
  intros He. destruct (pause_run env e w He) as (t & l & Hp & Ht & H60).
  exists t, l. split; [|split; assumption].
  rewrite (bind_assoc (_get_retry_time env e) (fun t => time_sleep t) (fun _ => rest)).
  set (pause := bind (_get_retry_time env e) (fun t => time_sleep t)) in *.
  unfold bind. rewrite Hp. reflexivity.
Qed.

(** The second branch of [transcribe_audio], for a counter up to 10. *)
Lemma transcribe_audio_attempt env audio_path intento w :
  intento <= 10 ->
  transcribe_audio env audio_path intento w
  = try_except
      (logger INFO (MsgTranscribing audio_path) ;;
       let* data := read_file audio_path in
       let* o := get_self in
       let* text := whisper_create env (whisper_model o) audio_path data in
       logger INFO MsgTranscribed ;;
       ret text)
      (fun e =>
         logger INFO (MsgAttempt (intento + 1)) ;;
         logger ERROR (MsgTranscribeError audio_path (exn_str e)) ;;
         let* retry_after_time := _get_retry_time env e in
         time_sleep retry_after_time ;;
         transcribe_audio env audio_path (intento + 1)) w.
Proof.
  intros Hi. revert w. funelim (transcribe_audio env audio_path intento); intros w.
  - lia.
  - reflexivity.
Qed.

(** An attempt whose request is answered. *)
Lemma transcribe_audio_answered env audio_path intento w data text :
  intento <= 10 ->
  fs w !! audio_path = Some (File data) ->
  whisper_reply env (whisper_calls w) (whisper_model (self w)) audio_path data
  = inr text ->
  exists l,
    transcribe_audio env audio_path intento w
    = (Return text, set_log l (set_whisper_calls (S (whisper_calls w)) w)).
Proof.
  intros Hi Hf Hr. rewrite transcribe_audio_attempt by exact Hi.
  unfold try_except, bind, logger, read_file, get_self, whisper_create, ret.
  world_simpl. rewrite Hf. world_simpl. rewrite Hr. world_simpl.
  eexists. reflexivity.
Qed.

(** An attempt whose request is refused: after the pause, the next
    attempt starts in a world with one more request and one more sleep. *)
Lemma transcribe_audio_refused env audio_path intento w data e :
  hint_in_range env e ->
  intento <= 10 ->
  fs w !! audio_path = Some (File data) ->
  whisper_reply env (whisper_calls w) (whisper_model (self w)) audio_path data
  = inl e ->
  exists t l n,
    transcribe_audio env audio_path intento w
    = transcribe_audio env audio_path (intento + 1)
        (set_sleeps (t :: sleeps w)
           (set_log l (set_random_draws n (set_whisper_calls (S (whisper_calls w)) w))))
    /\ (0 <= t)%Q.
Proof.
  intros He Hi Hf Hr. rewrite transcribe_audio_attempt by exact Hi.
  unfold try_except. unfold bind at 1 2 3 4, logger at 1, read_file, get_self,
    whisper_create. world_simpl. rewrite Hf. world_simpl. rewrite Hr.
  unfold bind at 1 2, logger.
  match goal with
  | |- context [bind (_get_retry_time env e) _ ?w0] =>
      destruct (pause_then env e (transcribe_audio env audio_path (intento + 1))
                  w0 He) as (t & l & Hp & Ht & _)
  end.
  rewrite Hp. exists t. eexists. eexists. split; [reflexivity | exact Ht].
Qed.

Lemma transcribe_audio_recovers_from env audio_path data k :
  forall intento w (failures : nat -> pyexn) text,
    (forall i, (i < k)%nat -> hint_in_range env (failures i)) ->
    intento + Z.of_nat k <= 10 ->
    fs w !! audio_path = Some (File data) ->
    (forall i, (i < k)%nat ->
       whisper_reply env (whisper_calls w + i) (whisper_model (self w))
         audio_path data = inl (failures i)) ->
    whisper_reply env (whisper_calls w + k) (whisper_model (self w))
      audio_path data = inr text ->
    exists w',
      transcribe_audio env audio_path intento w = (Return text, w')
      /\ whisper_calls w' = (whisper_calls w + k + 1)%nat
      /\ length (sleeps w') = (length (sleeps w) + k)%nat
      /\ fs w' = fs w /\ self w' = self w.
Proof.
  induction k as [|k IH]; intros intento w failures text Hh Hi Hf Hfail Hok.
  - rewrite Nat.add_0_r in Hok.
    destruct (transcribe_audio_answered env audio_path intento w data text)
      as (l & ->); [lia | exact Hf | exact Hok |].
    eexists. split; [reflexivity|]. world_simpl. repeat split; lia.
  - pose proof (Hfail 0%nat ltac:(lia)) as H0. rewrite Nat.add_0_r in H0.
    destruct (transcribe_audio_refused env audio_path intento w data (failures 0%nat))
      as (t & l & n & -> & _);
      [apply Hh; lia | lia | exact Hf | exact H0 |].
    destruct (IH (intento + 1)
                (set_sleeps (t :: sleeps w)
                   (set_log l (set_random_draws n
                      (set_whisper_calls (S (whisper_calls w)) w))))
                (fun i => failures (S i)) text)
      as (w' & -> & Hc & Hs & Hfs & Ho).
    + intros i Hik. apply Hh. lia.
    + lia.
    + exact Hf.
    + intros i Hik. world_simpl.
      replace (S (whisper_calls w) + i)%nat with (whisper_calls w + S i)%nat by lia.
      apply Hfail. lia.
    + world_simpl.
      replace (S (whisper_calls w) + k)%nat with (whisper_calls w + S k)%nat by lia.
      exact Hok.
    + world_simpl. simpl length in Hs.
      exists w'. repeat split; try assumption; lia.
Qed.

(** X8.  When the speech-to-text service refuses the first [k] requests,
    for a [k] up to 10, and answers the next one, [transcribe_audio]
    returns that answer, having sent [k + 1] requests and slept [k] times,
    provided the retry-after hint of each refusal, when there is one that
    parses, is between -2 and [10 ^ 6]: then the wait is a number that
    [float] holds and [time.sleep] accepts.  The filesystem and the
    object are as before. *)
Theorem transcribe_audio_recovers env audio_path data k w
    (failures : nat -> pyexn) text :
  (forall i, (i < k)%nat -> hint_in_range env (failures i)) ->
  (k <= 10)%nat ->
  fs w !! audio_path = Some (File data) ->
  (forall i, (i < k)%nat ->
     whisper_reply env (whisper_calls w + i) (whisper_model (self w))
       audio_path data = inl (failures i)) ->
  whisper_reply env (whisper_calls w + k) (whisper_model (self w))
    audio_path data = inr text ->
  let r := transcribe_audio env audio_path 0 w in
  r.1 = Return text
  /\ whisper_calls r.2 = (whisper_calls w + k + 1)%nat
  /\ length (sleeps r.2) = (length (sleeps w) + k)%nat
  /\ fs r.2 = fs w /\ self r.2 = self w.
Proof.
  intros Hh Hk Hf Hfail Hok.
  destruct (transcribe_audio_recovers_from env audio_path data k 0 w failures text)
    as (w' & Hrun & H); try assumption; [lia|].
  cbv zeta. rewrite Hrun. split; [reflexivity | exact H].
Qed.

Lemma transcribe_audio_recovers_witness :
  let r := transcribe_audio Cases.flaky "a.wav" 0 Cases.with_audio in
  r.1 = Return "hello world"
  /\ whisper_calls r.2 = (whisper_calls Cases.with_audio + 2 + 1)%nat
  /\ length (sleeps r.2) = (length (sleeps Cases.with_audio) + 2)%nat
  /\ fs r.2 = fs Cases.with_audio /\ self r.2 = self Cases.with_audio.
Proof.
  apply (transcribe_audio_recovers Cases.flaky "a.wav" "RIFF" 2 Cases.with_audio
           (fun _ => Sample.rate_limit "1") "hello world").
  - intros i _. vm_compute. split; discriminate.
  - lia.
  - reflexivity.
  - intros [|[|i]] Hi; [reflexivity | reflexivity | lia].
  - reflexivity.
Defined.

(** With a hint beyond the range of [float], the same call raises
    [OverflowError] out of the handler after one request: the wait cannot
    be computed. *)
Example transcribe_audio_huge_hint :
  let env :=
    {| whisper_reply := fun _ _ _ _ => inl (Sample.rate_limit Cases.huge_hint);
       translator_reply := translator_reply Sample.env;
       random_bits := random_bits Sample.env;
       open_video := open_video Sample.env;
       write_audiofile := write_audiofile Sample.env;
       temp_name := temp_name Sample.env;
       write_fault := write_fault Sample.env;
       mkdir_fault := mkdir_fault Sample.env;
       py_int := Sample.int;
       py_format := Sample.format;
       path_stem := Sample.stem |} in
  let r := transcribe_audio env "a.wav" 0 Cases.with_audio in
  r.1 = Raise (plain_exn OverflowError "int too large to convert to float")
  /\ whisper_calls r.2 = 1%nat /\ sleeps r.2 = [].
Proof. vm_compute. repeat split. Qed.

(** An attempt on an audio file that is not there: [open] raises, no
    request is sent, and the next attempt starts after a pause of a minute
    at least. *)
Lemma transcribe_audio_no_file_step env audio_path intento w :
  intento <= 10 ->
  fs w !! audio_path = None ->
  exists t l n,
    transcribe_audio env audio_path intento w
    = transcribe_audio env audio_path (intento + 1)
        (set_sleeps (t :: sleeps w) (set_log l (set_random_draws n w)))
    /\ (60 <= t)%Q.
Proof.
  intros Hi Hf. rewrite transcribe_audio_attempt by exact Hi.
  unfold try_except. unfold bind at 1 2, logger at 1, read_file.
  world_simpl. rewrite Hf.
  unfold bind at 1 2, logger.
  match goal with
  | |- context [bind (_get_retry_time env ?e) _ ?w0] =>
      destruct (pause_then env e (transcribe_audio env audio_path (intento + 1))
                  w0 I) as (t & l & Hp & _ & Ht)
  end.
  rewrite Hp. exists t. eexists. eexists. split; [reflexivity|].
  apply Ht. reflexivity.
Qed.

Lemma transcribe_audio_no_file_from env audio_path n :
  forall intento w,
    intento = 11 - Z.of_nat n ->
    fs w !! audio_path = None ->
    exists w' waits,
      transcribe_audio env audio_path intento w = (Return FALLO_TRANSCRIBIENDO, w')
      /\ whisper_calls w' = whisper_calls w
      /\ sleeps w' = (waits ++ sleeps w)%list
      /\ length waits = n
      /\ Forall (fun t => (60 <= t)%Q) waits.
Proof.
  induction n as [|n IH]; intros intento w Hi Hf.
  - rewrite transcribe_audio_give_up by lia.
    eexists. exists []. repeat split. constructor.
  - destruct (transcribe_audio_no_file_step env audio_path intento w)
      as (t & l & m & -> & Ht); [lia | exact Hf |].
    destruct (IH (intento + 1)
                (set_sleeps (t :: sleeps w) (set_log l (set_random_draws m w))))
      as (w' & waits & -> & Hc & Hs & Hl & Hall); [lia | exact Hf |].
    world_simpl. exists w', (waits ++ [t])%list. split; [reflexivity|].
    split; [exact Hc|]. split; [|split].
    + rewrite Hs, <- app_assoc. reflexivity.
    + rewrite length_app. simpl. lia.
    + apply Forall_app. split; [exact Hall|]. constructor; [exact Ht | constructor].
Qed.

(** X9.  On an audio file that does not exist, [transcribe_audio] with the
    default counter returns the failure string without having sent a
    single request, after 11 sleeps of 60 seconds or more each: the loop
    retries a local error like a refusal of the service. *)
Theorem transcribe_audio_without_file env audio_path w :
  draws_nonnegative env ->
  fs w !! audio_path = None ->
  let r := transcribe_audio env audio_path 0 w in
  r.1 = Return FALLO_TRANSCRIBIENDO
  /\ whisper_calls r.2 = whisper_calls w
  /\ exists waits,
       sleeps r.2 = (waits ++ sleeps w)%list
       /\ length waits = 11%nat
       /\ Forall (fun t => (60 <= t)%Q) waits.
Proof.
  intros Hw Hf.
  destruct (transcribe_audio_no_file_from env audio_path 11 0 w)
    as (w' & waits & Hrun & Hc & Hs); [reflexivity | exact Hf |].
  cbv zeta. rewrite Hrun. split; [reflexivity|]. split; [exact Hc|].
  exists waits. exact Hs.
Qed.

Lemma transcribe_audio_without_file_witness :
  let r := transcribe_audio Sample.env "a.wav" 0 Sample.world in
  r.1 = Return FALLO_TRANSCRIBIENDO
  /\ whisper_calls r.2 = whisper_calls Sample.world
  /\ exists waits,
       sleeps r.2 = (waits ++ sleeps Sample.world)%list
       /\ length waits = 11%nat
       /\ Forall (fun t => (60 <= t)%Q) waits.
Proof.
  apply (transcribe_audio_without_file Sample.env "a.wav" Sample.world).
  - intros n. vm_compute. discriminate.
  - reflexivity.
Defined.

(** X10.  When a refusal carries a retry-after hint of -7 or less (and
    not below [- 10 ^ 6], so that the wait is within the reach of
    [time.sleep]), the computed wait is negative, [time.sleep] raises
    [ValueError], and the exception leaves [transcribe_audio]: the call
    neither retries nor returns the failure string. *)
Theorem transcribe_audio_wait_in_the_past env audio_path intento w data e s h :
  intento <= 10 ->
  fs w !! audio_path = Some (File data) ->
  whisper_reply env (whisper_calls w) (whisper_model (self w)) audio_path data
  = inl e ->
  retry_after_hint e = Some s ->
  py_int env s = Some h ->
  - 10 ^ 6 <= h ->
  h + 7 <= 0 ->
  let r := transcribe_audio env audio_path intento w in
  r.1 = Raise (plain_exn ValueError "sleep length must be non-negative")
  /\ whisper_calls r.2 = S (whisper_calls w)
  /\ sleeps r.2 = sleeps w.
Proof.
  intros Hi Hf Hr Hs Hh Hlow Hneg.
  assert (H : exists w',
             transcribe_audio env audio_path intento w
             = (Raise (plain_exn ValueError "sleep length must be non-negative"), w')
             /\ whisper_calls w' = S (whisper_calls w)
             /\ sleeps w' = sleeps w).
  { rewrite transcribe_audio_attempt by exact Hi.
    unfold try_except. unfold bind at 1 2 3 4, logger at 1, read_file, get_self,
      whisper_create. world_simpl. rewrite Hf. world_simpl. rewrite Hr.
    unfold bind at 1 2, logger. unfold bind at 1.
    match goal with
    | |- context [_get_retry_time env e ?w0] =>
        destruct (retry_time_run env e w0) as (base & l & Hbase & Hrun)
    end.
    rewrite Hs, Hh in Hbase. subst base.
    rewrite Hrun by lia. world_simpl.
    unfold bind, time_sleep.
    destruct (Qlt_le_dec _ 0) as [_|Hpos].
    - eexists. split; [reflexivity|]. split; reflexivity.
    - exfalso.
      pose proof (wait_negative env (random_draws w) (h + 2) ltac:(lia) ltac:(lia)).
      lra. }
  destruct H as (w' & Hrun & Hc & Hsl). cbv zeta. rewrite Hrun.
  split; [reflexivity|]. split; assumption.
Qed.

Lemma transcribe_audio_wait_in_the_past_witness :
  let env :=
    {| whisper_reply := fun _ _ _ _ => inl (Sample.rate_limit "-7");
       translator_reply := translator_reply Sample.env;
       random_bits := fun _ => 2 ^ 53 - 1;
       open_video := open_video Sample.env;
       write_audiofile := write_audiofile Sample.env;
       temp_name := temp_name Sample.env;
       write_fault := write_fault Sample.env;
       mkdir_fault := mkdir_fault Sample.env;
       py_int := Sample.int;
       py_format := Sample.format;
       path_stem := Sample.stem |} in
  let r := transcribe_audio env "a.wav" 0 Cases.with_audio in
  r.1 = Raise (plain_exn ValueError "sleep length must be non-negative")
  /\ whisper_calls r.2 = S (whisper_calls Cases.with_audio)
  /\ sleeps r.2 = sleeps Cases.with_audio.
Proof.
  intros env.
  apply (transcribe_audio_wait_in_the_past env "a.wav" 0 Cases.with_audio "RIFF"
           (Sample.rate_limit "-7") "-7" (-7)).
  - lia.
  - reflexivity.
  - reflexivity.
  - reflexivity.
  - reflexivity.
  - lia.
  - lia.
Defined.

(** The second branch of [translate_text], for a counter up to 10. *)
Lemma translate_text_attempt env text intento w :
  intento <= 10 ->
  translate_text env text intento w
  = try_except
      (logger INFO MsgTranslating ;;
       let* o := get_self in
       let* prompt := answer (py_format env (translation_prompt o) text) in
       let* translation := translator_invoke env (translator_model o) prompt in
       logger INFO MsgTranslated ;;
       ret translation)
      (fun e =>
         logger INFO (MsgAttempt (intento + 1)) ;;
         logger ERROR (MsgTranslateError (exn_str e)) ;;
         let* retry_after_time := _get_retry_time env e in
         time_sleep retry_after_time ;;
         translate_text env text (intento + 1)) w.
Proof.
  intros Hi. revert w. funelim (translate_text env text intento); intros w.
  - lia.
  - reflexivity.
Qed.

Lemma translate_text_answered env text intento w prompt translation :
  intento <= 10 ->
  py_format env (translation_prompt (self w)) text = inr prompt ->
  translator_reply env (translator_calls w) (translator_model (self w)) prompt
  = inr translation ->
  exists l,
    translate_text env text intento w
    = (Return translation, set_log l (set_translator_calls (S (translator_calls w)) w)).
Proof.
  intros Hi Hf Hr. rewrite translate_text_attempt by exact Hi.
  unfold try_except, bind, logger, get_self, translator_invoke, ret.
  world_simpl. rewrite Hf. unfold answer, ret. world_simpl. rewrite Hr.
  eexists. reflexivity.
Qed.

Lemma translate_text_refused env text intento w prompt e :
  hint_in_range env e ->
  intento <= 10 ->
  py_format env (translation_prompt (self w)) text = inr prompt ->
  translator_reply env (translator_calls w) (translator_model (self w)) prompt
  = inl e ->
  exists t l n,
    translate_text env text intento w
    = translate_text env text (intento + 1)
        (set_sleeps (t :: sleeps w)
           (set_log l (set_random_draws n
              (set_translator_calls (S (translator_calls w)) w))))
    /\ (0 <= t)%Q.
Proof.
  intros He Hi Hf Hr. rewrite translate_text_attempt by exact Hi.
  unfold try_except. unfold bind at 1 2 3 4, logger at 1, get_self,
    translator_invoke. world_simpl. rewrite Hf. unfold answer, ret.
  world_simpl. rewrite Hr.
  unfold bind at 1 2, logger.
  match goal with
  | |- context [bind (_get_retry_time env e) _ ?w0] =>
      destruct (pause_then env e (translate_text env text (intento + 1))
                  w0 He) as (t & l & Hp & Ht & _)
  end.
  rewrite Hp. exists t. eexists. eexists. split; [reflexivity | exact Ht].
Qed.

Lemma translate_text_recovers_from env text prompt k :
  forall intento w (failures : nat -> pyexn) translation,
    (forall i, (i < k)%nat -> hint_in_range env (failures i)) ->
    intento + Z.of_nat k <= 10 ->
    py_format env (translation_prompt (self w)) text = inr prompt ->
    (forall i, (i < k)%nat ->
       translator_reply env (translator_calls w + i) (translator_model (self w))
         prompt = inl (failures i)) ->
    translator_reply env (translator_calls w + k) (translator_model (self w))
      prompt = inr translation ->
    exists w',
      translate_text env text intento w = (Return translation, w')
      /\ translator_calls w' = (translator_calls w + k + 1)%nat
      /\ length (sleeps w') = (length (sleeps w) + k)%nat
      /\ fs w' = fs w /\ self w' = self w.
Proof.
  induction k as [|k IH]; intros intento w failures translation Hh Hi Hf Hfail Hok.
  - rewrite Nat.add_0_r in Hok.
    destruct (translate_text_answered env text intento w prompt translation)
      as (l & ->); [lia | exact Hf | exact Hok |].
    eexists. split; [reflexivity|]. world_simpl. repeat split; lia.
  - pose proof (Hfail 0%nat ltac:(lia)) as H0. rewrite Nat.add_0_r in H0.
    destruct (translate_text_refused env text intento w prompt (failures 0%nat))
      as (t & l & n & -> & _);
      [apply Hh; lia | lia | exact Hf | exact H0 |].
    destruct (IH (intento + 1)
                (set_sleeps (t :: sleeps w)
                   (set_log l (set_random_draws n
                      (set_translator_calls (S (translator_calls w)) w))))
                (fun i => failures (S i)) translation)
      as (w' & -> & Hc & Hs & Hfs & Ho).
    + intros i Hik. apply Hh. lia.
    + lia.
    + exact Hf.
    + intros i Hik. world_simpl.
      replace (S (translator_calls w) + i)%nat with (translator_calls w + S i)%nat by lia.
      apply Hfail. lia.
    + world_simpl.
      replace (S (translator_calls w) + k)%nat with (translator_calls w + S k)%nat by lia.
      exact Hok.
    + world_simpl. simpl length in Hs.
      exists w'. repeat split; try assumption; lia.
Qed.

(** X11.  [translate_text] renders the configured template with the text
    and sends the result to the model the client was built with.  When
    the service refuses the first [k] requests, for a [k] up to 10, and
    answers the next one, the call returns that answer after [k + 1]
    requests and [k] sleeps, provided the retry-after hint of each
    refusal, when there is one that parses, is between -2 and [10 ^ 6]. *)
Theorem translate_text_recovers env text prompt k w
    (failures : nat -> pyexn) translation :
  (forall i, (i < k)%nat -> hint_in_range env (failures i)) ->
  (k <= 10)%nat ->
  py_format env (translation_prompt (self w)) text = inr prompt ->
  (forall i, (i < k)%nat ->
     translator_reply env (translator_calls w + i) (translator_model (self w))
       prompt = inl (failures i)) ->
  translator_reply env (translator_calls w + k) (translator_model (self w))
    prompt = inr translation ->
  let r := translate_text env text 0 w in
  r.1 = Return translation
  /\ translator_calls r.2 = (translator_calls w + k + 1)%nat
  /\ length (sleeps r.2) = (length (sleeps w) + k)%nat
  /\ fs r.2 = fs w /\ self r.2 = self w.
Proof.
  intros Hh Hk Hf Hfail Hok.
  destruct (translate_text_recovers_from env text prompt k 0 w failures translation)
    as (w' & Hrun & H); try assumption; [lia|].
  cbv zeta. rewrite Hrun. split; [reflexivity | exact H].
Qed.

Lemma translate_text_recovers_witness :
  let r := translate_text Cases.flaky "hello world" 0 Sample.world in
  r.1 = Return "hola mundo"
  /\ translator_calls r.2 = (translator_calls Sample.world + 2 + 1)%nat
  /\ length (sleeps r.2) = (length (sleeps Sample.world) + 2)%nat
  /\ fs r.2 = fs Sample.world /\ self r.2 = self Sample.world.
Proof.
  apply (translate_text_recovers Cases.flaky "hello world" "Traduce: hello world" 2
           Sample.world (fun _ => Sample.rate_limit "1") "hola mundo").
  - intros i _. vm_compute. split; discriminate.
  - lia.
  - reflexivity.
  - intros [|[|i]] Hi; [reflexivity | reflexivity | lia].
  - reflexivity.
Defined.

(** An attempt with a template that [format] rejects. *)
Lemma translate_text_bad_template_step env text intento w e :
  intento <= 10 ->
  py_format env (translation_prompt (self w)) text = inl e ->
  retry_after_hint e = None ->
  exists t l n,
    translate_text env text intento w
    = translate_text env text (intento + 1)
        (set_sleeps (t :: sleeps w) (set_log l (set_random_draws n w)))
    /\ (60 <= t)%Q.
Proof.
  intros Hi Hf Hnone. rewrite translate_text_attempt by exact Hi.
  unfold try_except. unfold bind at 1 2 3, logger at 1, get_self.
  world_simpl. rewrite Hf. unfold answer, raise.
  unfold bind at 1 2, logger.
  assert (He : hint_in_range env e) by (unfold hint_in_range; now rewrite Hnone).
  match goal with
  | |- context [bind (_get_retry_time env e) _ ?w0] =>
      destruct (pause_then env e (translate_text env text (intento + 1))
                  w0 He) as (t & l & Hp & _ & Ht)
  end.
  rewrite Hp. exists t. eexists. eexists. split; [reflexivity|].
  apply Ht. exact Hnone.
Qed.

Lemma translate_text_bad_template_from env text e n :
  forall intento w,
    intento = 11 - Z.of_nat n ->
    py_format env (translation_prompt (self w)) text = inl e ->
    retry_after_hint e = None ->
    exists w' waits,
      translate_text env text intento w = (Return FALLO_TRADUCIENDO, w')
      /\ translator_calls w' = translator_calls w
      /\ sleeps w' = (waits ++ sleeps w)%list
      /\ length waits = n
      /\ Forall (fun t => (60 <= t)%Q) waits.
Proof.
  induction n as [|n IH]; intros intento w Hi Hf Hnone.
  - rewrite translate_text_give_up by lia.
    eexists. exists []. repeat split. constructor.
  - destruct (translate_text_bad_template_step env text intento w e)
      as (t & l & m & -> & Ht); [lia | exact Hf | exact Hnone |].
    destruct (IH (intento + 1)
                (set_sleeps (t :: sleeps w) (set_log l (set_random_draws m w))))
      as (w' & waits & -> & Hc & Hs & Hl & Hall); [lia | exact Hf | exact Hnone |].
    world_simpl. exists w', (waits ++ [t])%list. split; [reflexivity|].
    split; [exact Hc|]. split; [|split].
    + rewrite Hs, <- app_assoc. reflexivity.
    + rewrite length_app. simpl. lia.
    + apply Forall_app. split; [exact Hall|]. constructor; [exact Ht | constructor].
Qed.

(** X12.  When [format] rejects the configured template (a template with
    a second field passes [set_translation_prompt], which only looks for
    [{text}]), [translate_text] returns the failure string without having
    sent a single request, after 11 sleeps of 60 seconds or more each. *)
Theorem translate_text_bad_template env text w e :
  draws_nonnegative env ->
  py_format env (translation_prompt (self w)) text = inl e ->
  retry_after_hint e = None ->
  let r := translate_text env text 0 w in
  r.1 = Return FALLO_TRADUCIENDO
  /\ translator_calls r.2 = translator_calls w
  /\ exists waits,
       sleeps r.2 = (waits ++ sleeps w)%list
       /\ length waits = 11%nat
       /\ Forall (fun t => (60 <= t)%Q) waits.
Proof.
  intros Hw Hf Hnone.
  destruct (translate_text_bad_template_from env text e 11 0 w)
    as (w' & waits & Hrun & Hc & Hs); [reflexivity | exact Hf | exact Hnone |].
  cbv zeta. rewrite Hrun. split; [reflexivity|]. split; [exact Hc|].
  exists waits. exact Hs.
Qed.

Lemma translate_text_bad_template_witness :
  let r := translate_text Cases.second_field "hello world" 0 Sample.world in
  r.1 = Return FALLO_TRADUCIENDO
  /\ translator_calls r.2 = translator_calls Sample.world
  /\ exists waits,
       sleeps r.2 = (waits ++ sleeps Sample.world)%list
       /\ length waits = 11%nat
       /\ Forall (fun t => (60 <= t)%Q) waits.
Proof.
  apply (translate_text_bad_template Cases.second_field "hello world" Sample.world
           (plain_exn KeyError "'idioma'")).
  - intros n. vm_compute. discriminate.
  - reflexivity.
  - reflexivity.
Defined.

(** ** The construction of the object and its template *)

(** X13.  [__init__] succeeds exactly when a key that is not empty is
    available.  The explicit argument wins when it is not empty; an empty
    or absent argument falls back on the environment variable.  The object
    then has the two models asked for, a translation client built with
    the translation model, and the default template, which contains
    [{text}].  Otherwise [__init__] raises a [ValueError] whose message
    names [GROQ_API_KEY]. *)
Theorem init_key_resolution getenv wm tm key :
  match __init__ getenv wm tm key with
  | inr o =>
      groq_api_key o <> ""
      /\ (key = Some (groq_api_key o)
          \/ ((key = None \/ key = Some "") /\ getenv = Some (groq_api_key o)))
      /\ whisper_model o = wm
      /\ translation_model o = tm
      /\ translator_model o = tm
      /\ translation_prompt o = DEFAULT_TRANSLATION_PROMPT
      /\ has_marker o
  | inl e =>
      exn_cls e = ValueError
      /\ PyStr.contains "GROQ_API_KEY" (exn_str e) = true
      /\ (key = None \/ key = Some "")
      /\ (getenv = None \/ getenv = Some "")
  end.
Proof.
  unfold __init__, py_or.
  destruct key as [[|c k]|]; [destruct getenv as [[|c k]|] | |
                              destruct getenv as [[|c k]|]];
    simpl; repeat split; auto; try discriminate.
Qed.

Lemma set_translation_prompt_keeps_marker prompt w :
  has_marker (self w) -> has_marker (self (set_translation_prompt prompt w).2).
Proof.
  intros H. unfold set_translation_prompt.
  destruct (PyStr.contains "{text}" prompt) eqn:Hc; simpl; [exact Hc | exact H].
Qed.

(** X14.  The template of the object always has the place for the text:
    starting from an object whose template contains [{text}] (as the one
    [__init__] builds), any series of calls of [set_translation_prompt],
    accepted or rejected, leaves a template that contains [{text}]. *)
Theorem template_always_has_marker prompts w :
  has_marker (self w) -> has_marker (self (after_prompts prompts w)).
Proof.
  revert w. induction prompts as [|prompt prompts IH]; intros w H.
  - exact H.
  - apply IH. apply set_translation_prompt_keeps_marker. exact H.
Qed.

Lemma template_always_has_marker_witness :
  has_marker
    (self (after_prompts ["Resume: {text}"; "Resume"; "{text} en breve"]
             Sample.world)).
Proof.
  apply (template_always_has_marker ["Resume: {text}"; "Resume"; "{text} en breve"]
           Sample.world).
  reflexivity.
Defined.

(** X15.  A template that [set_translation_prompt] accepts takes effect
    at the next translation: the request that [translate_text] then sends
    is the new template rendered with the text, and when the service
    answers it, that answer is returned after one request. *)
Theorem new_prompt_is_used env prompt text rendered translation w :
  (exists pre post, prompt = pre ++ "{text}" ++ post) ->
  py_format env prompt text = inr rendered ->
  translator_reply env (translator_calls w) (translator_model (self w)) rendered
  = inr translation ->
  let r := (set_translation_prompt prompt ;; translate_text env text 0) w in
  r.1 = Return translation
  /\ translator_calls r.2 = S (translator_calls w)
  /\ translation_prompt (self r.2) = prompt.
Proof.
  intros Hm Hf Hr. apply contains_spec in Hm.
  assert (H : exists w',
             (set_translation_prompt prompt ;; translate_text env text 0) w
             = (Return translation, w')
             /\ translator_calls w' = S (translator_calls w)
             /\ translation_prompt (self w') = prompt).
  { unfold set_translation_prompt. rewrite Hm. cbn [negb].
    unfold bind at 1 2, logger.
    match goal with
    | |- context [translate_text env text 0 ?w0] =>
        destruct (translate_text_answered env text 0 w0 rendered translation)
          as (l & ->); [lia | exact Hf | exact Hr |]
    end.
    eexists. split; [reflexivity|]. split; reflexivity. }
  destruct H as (w' & Hrun & Hc & Hp). cbv zeta. rewrite Hrun. auto.
Qed.

Lemma new_prompt_is_used_witness :
  let r := (set_translation_prompt "Resume: {text}" ;;
            translate_text Sample.env "hello world" 0) Sample.world in
  r.1 = Return "hola mundo"
  /\ translator_calls r.2 = S (translator_calls Sample.world)
  /\ translation_prompt (self r.2) = "Resume: {text}".
Proof.
  apply (new_prompt_is_used Sample.env "Resume: {text}" "hello world"
           "Resume: hello world" "hola mundo" Sample.world).
  - exists "Resume: ", "". reflexivity.
  - reflexivity.
  - reflexivity.
Defined.

(** ** Saving and reading back *)

(** X16.  What [save_text] has written can be read back: when the write
    is not refused and the path is not a directory, opening the file after
    [save_text] yields the text, whatever the file held before; and no
    other path has changed. *)
Theorem save_text_then_read env text file_path w :
  write_fault env file_path = None ->
  fs w !! file_path <> Some Dir ->
  (save_text env text file_path ;; read_file file_path) w
  = (Return text,
     set_log ((INFO, MsgSaved file_path) :: log w)
       (set_fs (<[file_path := File text]> (fs w)) w))
  /\ (forall q, q <> file_path ->
        fs ((save_text env text file_path ;; read_file file_path) w).2 !! q
        = fs w !! q).
Proof.
  intros Hw Hd.
  assert (H : (save_text env text file_path ;; read_file file_path) w
              = (Return text,
                 set_log ((INFO, MsgSaved file_path) :: log w)
                   (set_fs (<[file_path := File text]> (fs w)) w))).
  { unfold save_text, try_except, bind, logger, write_file, read_file.
    rewrite Hw.
    destruct (fs w !! file_path) as [[c|]|]; world_simpl;
      try contradiction; rewrite lookup_insert_eq; reflexivity. }
  rewrite H. split; [reflexivity|].
  intros q Hq. world_simpl. now rewrite lookup_insert_ne.
Qed.

Lemma save_text_then_read_witness :
  (save_text Sample.env "hola" "x.mp4" ;; read_file "x.mp4") Sample.world
  = (Return "hola",
     set_log ((INFO, MsgSaved "x.mp4") :: log Sample.world)
       (set_fs (<["x.mp4" := File "hola"]> (fs Sample.world)) Sample.world))
  /\ (forall q, q <> "x.mp4" ->
        fs ((save_text Sample.env "hola" "x.mp4" ;; read_file "x.mp4")
              Sample.world).2 !! q
        = fs Sample.world !! q).
Proof.
  apply (save_text_then_read Sample.env "hola" "x.mp4" Sample.world).
  - reflexivity.
  - vm_compute. discriminate.
Defined.

(** ** The script *)

(** X17.  The reading of the arguments.  The script goes on exactly
    when it gets one to four arguments after its own name and, with two,
    the second does not name something that exists and is not a
    directory.  Saving is on exactly when a results directory was given,
    which is the case with two or four arguments.  The models are the
    defaults unless both are given, which is the case with three or four
    arguments. *)
Theorem parse_argv_outcome f argv :
  match Main.parse_argv f argv with
  | Some cfg =>
      (2 <= length argv <= 5)%nat
      /\ (length argv = 3%nat ->
          Main.isdir f (nth 2 argv "") = true
          \/ Main.exists_ f (nth 2 argv "") = false)
      /\ Main.video_directory cfg = nth 1 argv ""
      /\ (Main.save_files cfg = true
          <-> Main.results_directory cfg = Some (nth 2 argv ""))
      /\ (Main.save_files cfg = false <-> Main.results_directory cfg = None)
      /\ (Main.save_files cfg = true <-> length argv = 3%nat \/ length argv = 5%nat)
      /\ ((length argv <= 3)%nat ->
          Main.whisper_model cfg = DEFAULT_WHISPER_MODEL
          /\ Main.translation_model cfg = DEFAULT_TRANSLATION_MODEL)
      /\ (length argv = 4%nat ->
          Main.whisper_model cfg = nth 2 argv ""
          /\ Main.translation_model cfg = nth 3 argv "")
      /\ (length argv = 5%nat ->
          Main.whisper_model cfg = nth 3 argv ""
          /\ Main.translation_model cfg = nth 4 argv "")
  | None =>
      (length argv < 2)%nat \/ (5 < length argv)%nat
      \/ (length argv = 3%nat
          /\ Main.exists_ f (nth 2 argv "") = true
          /\ Main.isdir f (nth 2 argv "") = false)
  end.
Proof.
  unfold Main.parse_argv.
  destruct argv as [|a0 [|a1 [|a2 [|a3 [|a4 [|a5 rest]]]]]]; simpl.
  - left. lia.
  - left. lia.
  - repeat split; auto; try lia; try discriminate; intros [H|H]; discriminate.
  - destruct (Main.isdir f a2) eqn:Hd; simpl.
    + repeat split; auto; try lia; discriminate.
    + destruct (Main.exists_ f a2) eqn:He; simpl.
      * right. right. auto.
      * repeat split; auto; try lia; discriminate.
  - repeat split; auto; try lia; try discriminate; intros [H|H]; discriminate.
  - repeat split; auto; try lia; discriminate.
  - right. left. lia.
Qed.

(** The three outcomes of the reading of two arguments: a directory that
    exists, a name that is free, and a name taken by a file. *)
Example parse_argv_two_arguments :
  Main.save_files <$> Main.parse_argv (fs Cases.with_videos) ["script.py"; "videos"; "videos"]
  = Some true
  /\ Main.save_files <$> Main.parse_argv (fs Cases.with_videos) ["script.py"; "videos"; "out"]
     = Some true
  /\ Main.parse_argv (fs Cases.with_notes) ["script.py"; "videos"; "out"] = None.
Proof. vm_compute. repeat split. Qed.

(** The number of characters of a text that ends with other text. *)
Lemma len_append (x y : string) : PyStr.len (x ++ y) = (PyStr.len x + PyStr.len y)%nat.
Proof.
  induction x as [|a x IH]; [reflexivity|]. rewrite append_cons. simpl.
  destruct (PyStr.continuation a); rewrite IH; reflexivity.
Qed.

(** A slice has the characters asked for, when there are that many. *)
Lemma len_take s : forall n, PyStr.len (PyStr.take n s) = Nat.min n (PyStr.len s).
Proof.
  induction s as [|c s IH]; intros n; simpl.
  - now rewrite Nat.min_0_r.
  - destruct (PyStr.continuation c) eqn:E.
    + simpl. rewrite E. apply IH.
    + destruct n as [|n]; [reflexivity|].
      simpl. rewrite E, IH. reflexivity.
Qed.

(** A slice is a prefix. *)
Lemma take_prefix s : forall n, exists rest, s = PyStr.take n s ++ rest.
Proof.
  induction s as [|c s IH]; intros n; simpl.
  - exists "". reflexivity.
  - destruct (PyStr.continuation c).
    + destruct (IH n) as [rest Hr]. exists rest. rewrite append_cons. now rewrite <- Hr.
    + destruct n as [|n].
      * exists (String c s). reflexivity.
      * destruct (IH n) as [rest Hr]. exists rest. rewrite append_cons. now rewrite <- Hr.
Qed.

(** X18.  The sample of a text that the loop shows: the text itself when
    it has at most 100 characters, otherwise its first 100 characters and
    three dots, 103 characters in all.  Characters are counted as Python
    counts them, whatever the number of bytes each takes in the
    encoding. *)
Theorem preview_bounds s :
  (PyStr.len (Main.preview s) <= 103)%nat
  /\ ((PyStr.len s <= 100)%nat -> Main.preview s = s)
  /\ ((100 < PyStr.len s)%nat ->
      Main.preview s = PyStr.take 100 s ++ "..."
      /\ PyStr.len (PyStr.take 100 s) = 100%nat
      /\ PyStr.len (Main.preview s) = 103%nat
      /\ exists rest, s = PyStr.take 100 s ++ rest).
Proof.
  unfold Main.preview.
  destruct (Nat.ltb_spec 100 (PyStr.len s)) as [Hlong|Hshort].
  - assert (Ht : PyStr.len (PyStr.take 100 s) = 100%nat)
      by (rewrite len_take; lia).
    assert (Hl : PyStr.len (PyStr.take 100 s ++ "...") = 103%nat)
      by (rewrite len_append, Ht; reflexivity).
    split; [lia|]. split; [lia|]. intros _.
    split; [reflexivity|]. split; [exact Ht|]. split; [exact Hl|].
    apply take_prefix.
  - split; [lia|]. split; [reflexivity | lia].
Qed.

(** A text of 101 characters of two bytes each: the sample has its first
    100 characters, which are 200 bytes, and the three dots. *)
Example preview_of_accented_text :
  let s := String.concat "" (repeat "ñ" 101) in
  PyStr.len s = 101%nat
  /\ String.length s = 202%nat
  /\ Main.preview s = String.concat "" (repeat "ñ" 100) ++ "..."
  /\ PyStr.len (Main.preview s) = 103%nat.
Proof. vm_compute. repeat split. Qed.

Lemma preview_bounds_witness :
  (PyStr.len (Main.preview "hola mundo") <= 103)%nat
  /\ Main.preview "hola mundo" = "hola mundo".
Proof.
  destruct (preview_bounds "hola mundo") as (H1 & H2 & _).
  split; [exact H1|]. apply H2. vm_compute. lia.
Defined.

(** X19.  How one video is counted.  It is counted as processed exactly
    when [process_video] returned a dictionary whose transcription is not
    empty and does not start with ["FALLO"] and whose translation is not
    [None]; in every other case (an exception, a failed transcription, or
    a [None] translation, on which the sample raises) it is counted as an
    error.  A video is counted once. *)
Theorem one_video_counting env results_directory (save_files : bool) video_file c w :
  let pv := process_video env video_file
              (if save_files then results_directory else None) save_files true w in
  let c' := (Main.one_video env results_directory save_files video_file c w).1 in
  ((exists r t,
      pv.1 = Return (Some r)
      /\ counts_as_processed (Some r) = true
      /\ translation r = Some t)
   /\ c' = Main.count_processed c)
  \/ (~ (exists r t,
           pv.1 = Return (Some r)
           /\ counts_as_processed (Some r) = true
           /\ translation r = Some t)
      /\ c' = Main.count_error c).
Proof.
  cbv zeta. rewrite one_video_count.
  destruct (process_video _ _ _ _ _ w).1 as [[r|]|e].
  - destruct (counts_as_processed (Some r)) eqn:Hc.
    + destruct (translation r) as [t|] eqn:Ht.
      * left. split; [|reflexivity]. exists r, t. auto.
      * right. split; [|reflexivity].
        intros (r' & t & [= <-] & _ & Ht'). congruence.
    + right. split; [|reflexivity].
      intros (r' & t & [= <-] & Hc' & _). congruence.
  - right. split; [|reflexivity]. intros (r' & t & [=] & _).
  - right. split; [|reflexivity]. intros (r' & t & [=] & _).
Qed.

(** A video whose translation gave up is counted as processed, and one
    whose transcription quotes the failure marker in its middle is counted
    as an error, by the exception that the sample of its [None]
    translation raises. *)
Example one_video_samples :
  (Main.one_video Sample.translator_down None false "x.mp4"
     {| Main.processed_count := 0; Main.error_count := 0 |} Sample.world).1
  = {| Main.processed_count := 1; Main.error_count := 0 |}
  /\ (Main.one_video Sample.quoting None false "x.mp4"
        {| Main.processed_count := 0; Main.error_count := 0 |} Sample.world).1
     = {| Main.processed_count := 0; Main.error_count := 1 |}.
Proof. vm_compute. split; reflexivity. Qed.

Lemma all_videos_accounting env results_directory save_files video_files :
  forall c w,
    let r := Main.all_videos env results_directory save_files video_files c w in
    (Main.processed_count r.1 + Main.error_count r.1
     = Main.processed_count c + Main.error_count c + length video_files)%nat
    /\ within_budget (11 * length video_files) (11 * length video_files) w r.2.
Proof.
  induction video_files as [|v vs IH]; intros c w; cbv zeta.
  - simpl. split; [lia | budget].
  - simpl Main.all_videos.
    pose proof (one_video_count env results_directory save_files v c w) as Hc.
    pose proof (one_video_world env results_directory save_files v c w) as Hw.
    pose proof (process_video_budget env v
                  (if save_files then results_directory else None)
                  save_files true w) as Hb.
    unfold wp in Hb. rewrite <- Hw in Hb.
    assert (Hone : (Main.one_video env results_directory save_files v c w).1
                   = Main.count_processed c
                   \/ (Main.one_video env results_directory save_files v c w).1
                      = Main.count_error c).
    { rewrite Hc. destruct (process_video _ _ _ _ _ w).1 as [[r|]|e]; auto.
      destruct (counts_as_processed (Some r)); auto.
      destruct (translation r); auto. }
    clear Hc.
    destruct (Main.one_video env results_directory save_files v c w) as [c1 w1].
    cbn [fst snd] in Hone, Hb.
    specialize (IH c1 w1). cbv zeta in IH. destruct IH as [IHc IHb].
    split.
    + rewrite IHc. simpl length.
      destruct Hone as [->| ->]; simpl; lia.
    + simpl length. budget.
Qed.

(** X20.  The loop over the videos counts every video exactly once,
    whatever happens to it: afterwards the two counters have grown by the
    number of video files.  No exception stops the loop. *)
Theorem all_videos_counts_every_video env results_directory save_files
    video_files c w :
  let c' := (Main.all_videos env results_directory save_files video_files c w).1 in
  (Main.processed_count c' + Main.error_count c'
   = Main.processed_count c + Main.error_count c + length video_files)%nat.
Proof.
  apply (all_videos_accounting env results_directory save_files video_files c w).
Qed.

(** X21.  A batch of [n] videos sends at most [11 n] requests to each of
    the two services, and leaves the object as it was. *)
Theorem all_videos_request_budget env results_directory save_files
    video_files c w :
  let w' := (Main.all_videos env results_directory save_files video_files c w).2 in
  (whisper_calls w' <= whisper_calls w + 11 * length video_files)%nat
  /\ (translator_calls w' <= translator_calls w + 11 * length video_files)%nat
  /\ self w' = self w.
Proof.
  destruct (all_videos_accounting env results_directory save_files video_files c w)
    as (_ & Hs & Hw & Ht).
  cbv zeta. repeat split; [lia | lia | exact Hs].
Qed.

(** X22.  A run of the script that gets to its summary has found at
    least one video file, and its two counters add up to the number of
    video files found: every video is either processed or an error.  The
    run has sent at most 11 requests per video to each service. *)
Theorem main_summary_adds_up env getenv glob argv w c total w' :
  Main.main env getenv glob argv w = (Main.Summary c total, w') ->
  (0 < total)%nat
  /\ (Main.processed_count c + Main.error_count c = total)%nat
  /\ (whisper_calls w' <= whisper_calls w + 11 * total)%nat
  /\ (translator_calls w' <= translator_calls w + 11 * total)%nat.
Proof.
  unfold Main.main.
  destruct (Main.parse_argv (fs w) argv) as [cfg|]; [|discriminate].
  destruct (negb (Main.exists_ _ _)); [discriminate|].
  destruct (negb (Main.isdir _ _)); [discriminate|].
  destruct ((if Main.save_files cfg && truthy_path (Main.results_directory cfg)
             then os_makedirs env (path_of (Main.results_directory cfg))
             else ret tt) w) as [[[]|e] w1] eqn:Hmk; [|discriminate].
  assert (Hw1 : whisper_calls w1 = whisper_calls w
                /\ translator_calls w1 = translator_calls w).
  { destruct (Main.save_files cfg && truthy_path (Main.results_directory cfg)).
    - apply os_makedirs_world in Hmk as (f & -> & _). auto.
    - injection Hmk as <-. auto. }
  destruct (Main.find_videos glob (Main.video_directory cfg)) as [|v vs] eqn:Hv;
    [discriminate|].
  destruct (__init__ getenv _ _ None) as [e|transcriber]; [discriminate|].
  pose proof (all_videos_accounting env (Main.results_directory cfg)
                (Main.save_files cfg) (v :: vs)
                {| Main.processed_count := 0; Main.error_count := 0 |}
                (set_self transcriber w1)) as Hacc.
  cbv zeta in Hacc.
  destruct (Main.all_videos env _ _ (v :: vs) _ (set_self transcriber w1))
    as [c2 w2].
  intros [= <- <- <-]. unfold within_budget in Hacc. world_simpl.
  destruct Hacc as (Hsum & _ & Hwc & Htc).
  destruct Hw1 as [Hw1 Ht1]. cbn [Main.processed_count Main.error_count] in Hsum.
  simpl length in *. repeat split; lia.
Qed.

Lemma main_summary_adds_up_witness :
  let r := Main.main Sample.translator_past (Some "key") Cases.glob
             ["script.py"; "videos"; "out"] Cases.with_videos in
  (0 < 2)%nat
  /\ (0 + 2 = 2)%nat
  /\ (whisper_calls r.2 <= whisper_calls Cases.with_videos + 11 * 2)%nat
  /\ (translator_calls r.2 <= translator_calls Cases.with_videos + 11 * 2)%nat.
Proof.
  apply (main_summary_adds_up Sample.translator_past (Some "key") Cases.glob
           ["script.py"; "videos"; "out"] Cases.with_videos
           {| Main.processed_count := 0; Main.error_count := 2 |} 2).
  vm_compute. reflexivity.
Defined.

(** When the reading of the arguments turns saving on, the results
    directory is the second argument, and there are two or four
    arguments. *)
Lemma parse_argv_saving f argv cfg :
  Main.parse_argv f argv = Some cfg ->
  Main.save_files cfg = true ->
  Main.results_directory cfg = Some (nth 2 argv "")
  /\ (length argv = 3%nat \/ length argv = 5%nat).
Proof.
  unfold Main.parse_argv.
  destruct argv as [|a0 [|a1 [|a2 [|a3 [|a4 [|a5 rest]]]]]]; try discriminate.
  - intros [= <-]. discriminate.
  - destruct (_ || _); [|discriminate]. intros [= <-]. simpl. auto.
  - intros [= <-]. discriminate.
  - intros [= <-]. simpl. auto.
Qed.

(** X23.  A run of the script that ends with [sys.exit(1)] has sent no
    request and has not built the object.  All it may have done to the
    filesystem is to create directories on the way to the results
    directory, its second argument: nothing that was there has changed,
    and what is new is the results directory or a directory above it.
    Without a second argument that asks for saving, the filesystem is as
    it was. *)
Theorem main_exit_is_harmless env getenv glob argv w w' :
  Main.main env getenv glob argv w = (Main.Exit1, w') ->
  whisper_calls w' = whisper_calls w
  /\ translator_calls w' = translator_calls w
  /\ self w' = self w
  /\ new_dirs_along (nth 2 argv "") (fs w) (fs w')
  /\ (length argv <> 3%nat -> length argv <> 5%nat -> fs w' = fs w).
Proof.
  unfold Main.main.
  destruct (Main.parse_argv (fs w) argv) as [cfg|] eqn:Hargs;
    [|intros [= <-]; repeat split; auto using new_dirs_along_refl].
  destruct (negb (Main.exists_ _ _));
    [intros [= <-]; repeat split; auto using new_dirs_along_refl|].
  destruct (negb (Main.isdir _ _));
    [intros [= <-]; repeat split; auto using new_dirs_along_refl|].
  destruct ((if Main.save_files cfg && truthy_path (Main.results_directory cfg)
             then os_makedirs env (path_of (Main.results_directory cfg))
             else ret tt) w) as [r w1] eqn:Hmk.
  assert (Hw1 : whisper_calls w1 = whisper_calls w
                /\ translator_calls w1 = translator_calls w
                /\ self w1 = self w
                /\ new_dirs_along (nth 2 argv "") (fs w) (fs w1)
                /\ (length argv <> 3%nat -> length argv <> 5%nat -> fs w1 = fs w)).
  { destruct (Main.save_files cfg) eqn:Hs; cbn [andb] in Hmk.
    - destruct (truthy_path (Main.results_directory cfg)).
      + apply os_makedirs_world in Hmk as (f & -> & Hf).
        destruct (parse_argv_saving _ _ _ Hargs Hs) as [Hdir Hlen].
        rewrite Hdir in Hf. simpl in Hf.
        repeat split; auto. intros H3 H5. destruct Hlen; contradiction.
      + injection Hmk as <- <-. repeat split; auto using new_dirs_along_refl.
    - injection Hmk as <- <-. repeat split; auto using new_dirs_along_refl. }
  destruct r as [[]|e]; [|intros [= <-]; exact Hw1].
  destruct (Main.find_videos glob (Main.video_directory cfg)) as [|v vs];
    [intros [= <-]; exact Hw1|].
  destruct (__init__ getenv _ _ None) as [e|transcriber];
    [intros [= <-]; exact Hw1|].
  destruct (Main.all_videos _ _ _ _ _ _). discriminate.
Qed.

Lemma main_exit_is_harmless_witness :
  let r := Main.main Sample.env None Cases.glob ["script.py"; "videos"; "out/sub"]
             Cases.with_videos in
  whisper_calls r.2 = whisper_calls Cases.with_videos
  /\ translator_calls r.2 = translator_calls Cases.with_videos
  /\ self r.2 = self Cases.with_videos
  /\ new_dirs_along "out/sub" (fs Cases.with_videos) (fs r.2).
Proof.
  destruct (main_exit_is_harmless Sample.env None Cases.glob
              ["script.py"; "videos"; "out/sub"] Cases.with_videos
              (Main.main Sample.env None Cases.glob ["script.py"; "videos"; "out/sub"]
                 Cases.with_videos).2)
    as (H1 & H2 & H3 & H4 & _).
  - vm_compute. reflexivity.
  - cbv zeta. auto.
Defined.

(** In that run there is no API key: the script exits, and the two
    directories it has created on the way stay behind. *)
Example main_exit_leaves_directories :
  let r := Main.main Sample.env None Cases.glob ["script.py"; "videos"; "out/sub"]
             Cases.with_videos in
  r.1 = Main.Exit1
  /\ fs r.2 !! "out" = Some Dir /\ fs r.2 !! "out/sub" = Some Dir
  /\ fs Cases.with_videos !! "out" = None.
Proof. vm_compute. repeat split. Qed.

(** ** What the extraction does to the filesystem *)

(** X24.  The filesystem after [extract_audio], whether it returns or
    raises.  Either it is the one before: the video could not be opened,
    or no temporary file could be created.  Or it is the one before with
    one file added under the temporary name, which was free: the audio
    when [extract_audio] returns, then with that name as its value, and
    an empty file when the audio could not be written.  So every path
    that was there is as it was, the video among them, and no path is
    added but the temporary file. *)
Theorem extract_audio_keeps_existing_paths env vpath w :
  let r := extract_audio env vpath w in
  let tmp := temp_name env (temp_files w) ++ ".wav" in
  (fs r.2 = fs w /\ exists e, r.1 = Raise e)
  \/ (fs w !! tmp = None
      /\ ((exists data,
             write_audiofile env vpath = inr data
             /\ r.1 = Return tmp /\ fs r.2 = <[tmp := File data]> (fs w))
          \/ (exists e,
                write_audiofile env vpath = inl e
                /\ r.1 = Raise e /\ fs r.2 = <[tmp := File ""]> (fs w)))).
Proof.
  cbv zeta.
  unfold extract_audio, named_temporary_file.
  unfold try_except, bind, ret, raise, logger, answer. world_simpl.
  destruct (open_video env vpath); world_simpl; [left; eauto|].
  destruct (fs w !! (temp_name env (temp_files w) ++ ".wav")) eqn:Hfree;
    world_simpl; [left; eauto|].
  right. split; [reflexivity|].
  destruct (write_audiofile env vpath) as [e|data]; unfold raise, ret; world_simpl.
  - right. exists e. auto.
  - left. exists data. split; [reflexivity|]. split; [reflexivity|].
    apply insert_insert_eq.
Qed.

(** Hence no path that exists is changed by [extract_audio]. *)
Example extract_audio_frame env vpath w q :
  is_Some (fs w !! q) ->
  fs (extract_audio env vpath w).2 !! q = fs w !! q.
Proof.
  intros [x Hx].
  assert (Hne : fs w !! (temp_name env (temp_files w) ++ ".wav") = None ->
                temp_name env (temp_files w) ++ ".wav" <> q) by congruence.
  unfold extract_audio, named_temporary_file.
  unfold try_except, bind, ret, raise, logger, answer. world_simpl.
  destruct (open_video env vpath); world_simpl; [reflexivity|].
  destruct (fs w !! (temp_name env (temp_files w) ++ ".wav")) eqn:Hfree;
    world_simpl; [reflexivity|].
  destruct (write_audiofile env vpath) as [e|data]; unfold raise, ret; world_simpl;
    rewrite ?lookup_insert_ne by auto; reflexivity.
Qed.
